(** * mlflow.utils.autologging_utils: a shallow embedding and its properties

    The development follows [mlflow/utils/autologging_utils.py]:

    - Python values, exceptions and call arguments;
    - the argument validator [_validate_args];
    - the integration registry ([AUTOLOGGING_INTEGRATIONS],
      [get_autologging_config], [autologging_is_disabled],
      [autologging_integration]);
    - programs over the operations the module performs on its surroundings
      (the original function, the MLflow client, the clock, warnings), with
      their execution over a world that records every such operation;
    - [try_mlflow_log], [PatchFunction], [with_managed_run], [safe_patch];
    - [BatchMetricsLogger] and the [batch_metrics_logger] context manager.

    Floating point time is read as an exact rational number of seconds. *)

From Stdlib Require Import ZArith QArith Lqa List Bool String Lia.
From stdpp Require Import base gmap strings list.

Local Open Scope string_scope.
Local Open Scope list_scope.

#[local] Set Warnings "-register-all".

(** ** Python values *)

(** A class, as far as this module looks at it: its name, and whether its
    metaclass is [ExceptionSafeClass] ([type(cls) == ExceptionSafeClass]). *)
Record pyclass : Type := PyClass {
  class_name : string;
  class_exception_safe : bool
}.

(** The values that reach this module.  A function object carries its identity
    and the value that [getattr(f, "exception_safe", False)] reads; an instance
    carries its class and its identity, and its class defines neither
    [__call__] nor [__eq__].  Dictionaries keep insertion order and have string
    keys, as keyword mappings do. *)
Inductive pyval : Type :=
| VNone
| VBool (b : bool)
| VInt (n : Z)
| VStr (s : string)
| VFunc (id : nat) (exception_safe : bool)
| VClass (c : pyclass)
| VObj (c : pyclass) (id : nat)
| VTuple (items : list pyval)
| VList (items : list pyval)
| VDict (items : list (string * pyval)).

(** [type(v)]. *)
Inductive pytype : Type :=
| TNoneType | TBool | TInt | TStr | TFunction
| TType | TExceptionSafeClass
| TInstance (c : pyclass)
| TTuple | TList | TDict.

#[global] Instance pyclass_eq_dec : EqDecision pyclass.
Proof. solve_decision. Defined.

#[global] Instance pytype_eq_dec : EqDecision pytype.
Proof. solve_decision. Defined.

Definition type_of (v : pyval) : pytype :=
  match v with
  | VNone => TNoneType
  | VBool _ => TBool
  | VInt _ => TInt
  | VStr _ => TStr
  | VFunc _ _ => TFunction
  | VClass c => if class_exception_safe c then TExceptionSafeClass else TType
  | VObj c _ => TInstance c
  | VTuple _ => TTuple
  | VList _ => TList
  | VDict _ => TDict
  end.

(** [v is None]. *)
Definition is_None (v : pyval) : bool :=
  match v with VNone => true | _ => false end.

(** Truth value of a value in a condition ([if v:]). *)
Definition truthy (v : pyval) : bool :=
  match v with
  | VNone => false
  | VBool b => b
  | VInt n => negb (n =? 0)%Z
  | VStr s => negb (String.eqb s EmptyString)
  | VFunc _ _ | VClass _ | VObj _ _ => true
  | VTuple l | VList l => negb (Nat.eqb (length l) 0)
  | VDict d => negb (Nat.eqb (length d) 0)
  end.

(** [a is u or a == u] for two values of one type that is neither a sequence
    nor a dictionary: numbers, strings and booleans by value, functions,
    classes and instances by identity (the default [__eq__]). *)
Definition same_or_equal (a u : pyval) : bool :=
  match a, u with
  | VNone, VNone => true
  | VBool x, VBool y => Bool.eqb x y
  | VInt x, VInt y => (x =? y)%Z
  | VStr x, VStr y => String.eqb x y
  | VFunc i _, VFunc j _ => Nat.eqb i j
  | VClass c, VClass d => bool_decide (c = d)
  | VObj c i, VObj d j => bool_decide (c = d) && Nat.eqb i j
  | _, _ => false
  end.

(** [d.get(key, default)] on an insertion-ordered dictionary. *)
Fixpoint dict_get (d : list (string * pyval)) (key : string) (default : pyval) : pyval :=
  match d with
  | [] => default
  | (k, v) :: d' => if String.eqb k key then v else dict_get d' key default
  end.

Definition dict_keys (d : list (string * pyval)) : list string := map fst d.

Definition has_key (d : list (string * pyval)) (key : string) : bool :=
  existsb (String.eqb key) (dict_keys d).

(** Positional and keyword arguments of a call, [*args] and [**kwargs]. *)
Record call_args : Type := CallArgs {
  positional : list pyval;
  keywords : list (string * pyval)
}.

(** ** Exceptions *)

(** What an assertion of the validator reports. *)
Inductive validation_error : Type :=
| NewFunctionNotExceptionSafe (inp : pyval)
| InvalidNewInput (inp : pyval)
| TypeMismatch (autologging_type user_type : pytype)
| ExpectedInputsMissing (length_difference : Z)
| ExpectedKeysOmitted (keys : list string)
| InputMismatch (original expected : pyval).

(** Exceptions.  [KeyboardInterrupt] and [SystemExit] derive from
    [BaseException] only, so [except Exception] does not catch them. *)
Inductive pyexn : Type :=
| AssertionError (e : validation_error)
| AttributeError (msg : string)
| PyException (cls msg : string)
| KeyboardInterrupt
| SystemExit.

(** [isinstance(e, Exception)]. *)
Definition is_Exception (e : pyexn) : bool :=
  match e with
  | KeyboardInterrupt | SystemExit => false
  | _ => true
  end.

(** What a call yields: the exception it raises, or the value it returns. *)
Abbreviation outcome := (pyexn + pyval)%type.

(** ** The argument validator, [_validate_args] *)

Module Validator.

(** The result of a run of assertions. *)
Inductive verdict : Type :=
| Pass
| Fail (e : validation_error).

Definition and_then (v : verdict) (k : verdict) : verdict :=
  match v with Pass => k | Fail e => Fail e end.

(** [_validate_new_input]: a list is checked element by element, a callable
    must carry the [exception_safe] attribute, anything else must be an
    instance of a class whose metaclass is [ExceptionSafeClass]. *)
Fixpoint _validate_new_input (inp : pyval) : verdict :=
  match inp with
  | VList items =>
      (fix each (l : list pyval) : verdict :=
         match l with
         | [] => Pass
         | item :: l' => and_then (_validate_new_input item) (each l')
         end) items
  | VFunc _ safe =>
      if safe then Pass else Fail (NewFunctionNotExceptionSafe inp)
  | VClass _ => Fail (NewFunctionNotExceptionSafe inp)
  | VObj c _ =>
      if class_exception_safe c then Pass else Fail (InvalidNewInput inp)
  | _ => Fail (InvalidNewInput inp)
  end.

(** The elements of a sequence, the entries of a dictionary. *)
Definition seq_items (v : pyval) : list pyval :=
  match v with VTuple l | VList l => l | _ => [] end.

Definition dict_items (v : pyval) : list (string * pyval) :=
  match v with VDict d => d | _ => [] end.

(** [set(user.keys()) - set(autologging.keys())]. *)
Definition omitted_keys (user autologging : list (string * pyval)) : list string :=
  List.filter (fun k => negb (has_key autologging k)) (dict_keys user).

(** [_validate(autologging_call_input, user_call_input)].  The default
    [user_call_input=None], the padding of [zip_longest] and the default of
    [user_call_input.get(key, None)] are all [VNone]. *)
Fixpoint _validate (autologging_call_input user_call_input : pyval) {struct autologging_call_input}
  : verdict :=
  if is_None user_call_input && negb (is_None autologging_call_input)
  then _validate_new_input autologging_call_input
  else if negb (bool_decide (type_of autologging_call_input = type_of user_call_input))
  then Fail (TypeMismatch (type_of autologging_call_input) (type_of user_call_input))
  else
    match autologging_call_input with
    | VTuple items | VList items =>
        let user_items := seq_items user_call_input in
        let length_difference :=
          (Z.of_nat (length items) - Z.of_nat (length user_items))%Z in
        if (length_difference <? 0)%Z
        then Fail (ExpectedInputsMissing length_difference)
        else
          (fix zip_longest (l us : list pyval) : verdict :=
             match l with
             | [] => Pass
             | a :: l' => and_then (_validate a (hd VNone us)) (zip_longest l' (tl us))
             end) items user_items
    | VDict entries =>
        let user_entries := dict_items user_call_input in
        match omitted_keys user_entries entries with
        | (_ :: _) as missing => Fail (ExpectedKeysOmitted missing)
        | [] =>
            (fix each_key (d : list (string * pyval)) : verdict :=
               match d with
               | [] => Pass
               | (key, a) :: d' =>
                   and_then (_validate a (dict_get user_entries key VNone)) (each_key d')
               end) entries
        end
    | _ =>
        if same_or_equal autologging_call_input user_call_input
        then Pass
        else Fail (InputMismatch autologging_call_input user_call_input)
    end.

(** [_validate_args(user_call_args, user_call_kwargs, autologging_call_args,
    autologging_call_kwargs)]. *)
Definition _validate_args (user_call autologging_call : call_args) : verdict :=
  and_then
    (_validate (VTuple (positional autologging_call)) (VTuple (positional user_call)))
    (_validate (VDict (keywords autologging_call)) (VDict (keywords user_call))).

End Validator.

(** ** Metrics and run statuses *)

(** [mlflow.entities.Metric(key, value, timestamp, step)]. *)
Record Metric : Type := MkMetric {
  metric_key : string;
  metric_value : pyval;
  metric_timestamp : Z;
  metric_step : Z
}.

(** The two statuses this module passes to [mlflow.end_run]. *)
Inductive RunStatus : Type := FINISHED | FAILED.

(** ** Programs *)

(** The warnings the module emits. *)
Inductive warning : Type :=
| LoggingToMLflowFailed (e : pyexn)
| UnexpectedErrorDuringAutologging (integration : string) (e : pyexn).

(** Marks left in the record of a run where the module enters a step that the
    surroundings cannot see by themselves. *)
Inductive mark : Type :=
| Flushing
| Validating (user_call autologging_call : call_args).

(** What the module does to its surroundings, with the type of the answer.
    [Original] is the function a patch receives as its first argument; at top
    level it is the saved original implementation. *)
Inductive op : Type -> Type :=
| Original (a : call_args) : op outcome
| EnvironGet (var : string) : op (option string)
| ReadIntegrations : op (gmap string (gmap string pyval))
| WriteIntegration (name : string) (config : gmap string pyval) : op unit
| ActiveRun : op (option string)
| StartRun : op (pyexn + string)
| EndRun (status : RunStatus) : op (pyexn + unit)
| LogBatch (run_id : string) (metrics : list Metric) : op (pyexn + unit)
| Clock : op Q
| Warn (w : warning) : op unit
| External (what : string) (a : call_args) : op outcome
| Leave (m : mark) : op unit.

(** A program: it returns, or performs an operation and goes on with the
    answer. *)
Inductive prog (A : Type) : Type :=
| Ret (a : A)
| Do {X : Type} (o : op X) (k : X -> prog A).

Arguments Ret {A} a.
Arguments Do {A X} o k.

Fixpoint bind {A B : Type} (p : prog A) (f : A -> prog B) : prog B :=
  match p with
  | Ret a => f a
  | Do o k => Do o (fun x => bind (k x) f)
  end.

Definition call {X : Type} (o : op X) : prog X := Do o Ret.

(** Programs that may raise: the answer is an exception or a value. *)
Definition px (A : Type) : Type := prog (pyexn + A).

Definition ret {A : Type} (a : A) : px A := Ret (inr a).
Definition throw {A : Type} (e : pyexn) : px A := Ret (inl e).

Definition bindx {A B : Type} (c : px A) (f : A -> px B) : px B :=
  bind c (fun r => match r with inl e => Ret (inl e) | inr a => f a end).

Declare Scope prog_scope.
Delimit Scope prog_scope with prog.
Notation "x <- c ;; k" := (bind c (fun x => k))
  (at level 100, c at next level, right associativity) : prog_scope.
Notation "x <-! c ;; k" := (bindx c (fun x => k))
  (at level 100, c at next level, right associativity) : prog_scope.
Notation "c ;;! k" := (bindx c (fun _ => k))
  (at level 100, right associativity) : prog_scope.
Local Open Scope prog_scope.

(** [try: c  except <catches> as e: handler e]. *)
Definition try_except {A : Type} (c : px A) (catches : pyexn -> bool)
    (handler : pyexn -> px A) : px A :=
  r <- c ;;
  match r with
  | inl e => if catches e then handler e else Ret (inl e)
  | inr a => Ret (inr a)
  end.

(** [try: c  except <catches> as e: handler e  else: orelse result];
    what [orelse] raises is not caught. *)
Definition try_except_else {A B : Type} (c : px A) (catches : pyexn -> bool)
    (handler : pyexn -> px B) (orelse : A -> px B) : px B :=
  r <- c ;;
  match r with
  | inl e => if catches e then handler e else Ret (inl e)
  | inr a => orelse a
  end.

(** A bare [except:] catches everything. *)
Definition anything (e : pyexn) : bool := true.

(** [for x in l: body x]. *)
Fixpoint for_each {A : Type} (l : list A) (body : A -> px unit) : px unit :=
  match l with
  | [] => ret tt
  | x :: l' => body x ;;! for_each l' body
  end.

(** ** The world a program runs in *)

(** The surroundings of the module over a state [E] of their own: the original
    function, the MLflow fluent API and client, the clock, and whatever else a
    patch calls.  Calls that do something may raise; reading the active run
    and the clock does not. *)
Record surroundings (E : Type) : Type := Surroundings {
  original_impl : call_args -> E -> outcome * E;
  active_run_impl : E -> option string;
  start_run_impl : E -> (pyexn + string) * E;
  end_run_impl : RunStatus -> E -> (pyexn + unit) * E;
  log_batch_impl : string -> list Metric -> E -> (pyexn + unit) * E;
  time_impl : E -> Q * E;
  external_impl : string -> call_args -> E -> outcome * E
}.

Arguments original_impl {E} _ _ _.
Arguments active_run_impl {E} _ _.
Arguments start_run_impl {E} _ _.
Arguments end_run_impl {E} _ _ _.
Arguments log_batch_impl {E} _ _ _ _.
Arguments time_impl {E} _ _.
Arguments external_impl {E} _ _ _ _.

(** The process: [os.environ], the module's registry
    [AUTOLOGGING_INTEGRATIONS], and the state of the surroundings. *)
Record world (E : Type) : Type := World {
  environ : gmap string string;
  AUTOLOGGING_INTEGRATIONS : gmap string (gmap string pyval);
  ext : E
}.

Arguments World {E} _ _ _.
Arguments environ {E} _.
Arguments AUTOLOGGING_INTEGRATIONS {E} _.
Arguments ext {E} _.

Definition with_ext {E : Type} (w : world E) (e : E) : world E :=
  World (environ w) (AUTOLOGGING_INTEGRATIONS w) e.

(** What a run leaves behind, in order. *)
Inductive event : Type :=
| EvOriginal (a : call_args) (r : outcome)
| EvStartRun (r : pyexn + string)
| EvEndRun (status : RunStatus) (r : pyexn + unit)
| EvLogBatch (run_id : string) (metrics : list Metric) (r : pyexn + unit)
| EvWarn (w : warning)
| EvExternal (what : string) (a : call_args) (r : outcome)
| EvMark (m : mark).

(** The result of a run. *)
Record result (E A : Type) : Type := Result {
  value : A;
  final : world E;
  events : list event
}.

Arguments Result {E A} _ _ _.
Arguments value {E A} _.
Arguments final {E A} _.
Arguments events {E A} _.

Section Run.

Context {E : Type} (env : surroundings E).

(** One operation. *)
Definition step {X : Type} (o : op X) (w : world E) : result E X :=
  match o in op X return result E X with
  | Original a =>
      let '(r, e) := original_impl env a (ext w) in
      Result r (with_ext w e) [EvOriginal a r]
  | EnvironGet var => Result (environ w !! var) w []
  | ReadIntegrations => Result (AUTOLOGGING_INTEGRATIONS w) w []
  | WriteIntegration name config =>
      Result tt (World (environ w) (<[name := config]> (AUTOLOGGING_INTEGRATIONS w)) (ext w)) []
  | ActiveRun => Result (active_run_impl env (ext w)) w []
  | StartRun =>
      let '(r, e) := start_run_impl env (ext w) in
      Result r (with_ext w e) [EvStartRun r]
  | EndRun status =>
      let '(r, e) := end_run_impl env status (ext w) in
      Result r (with_ext w e) [EvEndRun status r]
  | LogBatch run_id metrics =>
      let '(r, e) := log_batch_impl env run_id metrics (ext w) in
      Result r (with_ext w e) [EvLogBatch run_id metrics r]
  | Clock =>
      let '(t, e) := time_impl env (ext w) in
      Result t (with_ext w e) []
  | Warn msg => Result tt w [EvWarn msg]
  | External what a =>
      let '(r, e) := external_impl env what a (ext w) in
      Result r (with_ext w e) [EvExternal what a r]
  | Leave m => Result tt w [EvMark m]
  end.

(** A whole program. *)
Fixpoint run {A : Type} (p : prog A) (w : world E) : result E A :=
  match p with
  | Ret a => Result a w []
  | Do o k =>
      let s := step o w in
      let r := run (k (value s)) (final s) in
      Result (value r) (final r) (events s ++ events r)
  end.

End Run.

(** ** Test mode and best-effort logging *)

Definition _AUTOLOGGING_TEST_MODE_ENV_VAR : string := "MLFLOW_AUTOLOGGING_TESTING".

(** Whether a process is in test mode. *)
Definition testing {E : Type} (w : world E) : bool :=
  String.eqb (default "false" (environ w !! _AUTOLOGGING_TEST_MODE_ENV_VAR)) "true".

(** [_is_testing()]: [os.environ.get(VAR, "false") == "true"]. *)
Definition _is_testing : prog bool :=
  v <- call (EnvironGet _AUTOLOGGING_TEST_MODE_ENV_VAR) ;;
  Ret (String.eqb (default "false" v) "true").

(** [try_mlflow_log(fn, ...)]: the value of [fn], or [None] after a warning
    when [fn] raised an [Exception] outside test mode. *)
Definition try_mlflow_log {A : Type} (fn : px A) : px (option A) :=
  try_except (a <-! fn ;; ret (Some a)) is_Exception
    (fun e =>
       testing <- _is_testing ;;
       if testing then throw e
       else _ <- call (Warn (LoggingToMLflowFailed e)) ;; ret None).

(** ** The integration registry *)

Module Registry.

(** [get_autologging_config(flavor_name, config_key, default_value)] over the
    contents of [AUTOLOGGING_INTEGRATIONS]. *)
Definition get_autologging_config (integrations : gmap string (gmap string pyval))
    (flavor_name config_key : string) (default_value : pyval) : pyval :=
  match integrations !! flavor_name with
  | Some config => default default_value (config !! config_key)
  | None => default_value
  end.

(** [autologging_is_disabled(flavor_name)]. *)
Definition autologging_is_disabled (integrations : gmap string (gmap string pyval))
    (flavor_name : string) : pyval :=
  get_autologging_config integrations flavor_name "disable" (VBool true).

(** A parameter of a signature, [inspect.Parameter]: its name and its default,
    [inspect.Parameter.empty] when it has none. *)
Record parameter : Type := Param {
  param_name : string;
  param_default : pyval
}.

Definition Parameter_empty : pyval := VClass (PyClass "inspect._empty" false).

(** [param_spec[name]] for the ordered mapping [inspect.signature(f).parameters]. *)
Definition param_lookup (param_spec : list parameter) (name : string) : option parameter :=
  find (fun p => String.eqb (param_name p) name) param_spec.

(** [v is False]. *)
Definition is_False (v : pyval) : bool :=
  match v with VBool false => true | _ => false end.

Definition invalid_autolog (name : string) : pyexn :=
  PyException "Exception"
    ("Invalid `autolog()` function for integration '" +:+ name +:+
     "'. `autolog()` functions must specify a 'disable' argument with default value 'False'").

(** [validate_param_spec(param_spec)] inside [autologging_integration(name)]. *)
Definition validate_param_spec (name : string) (param_spec : list parameter) : px unit :=
  match param_lookup param_spec "disable" with
  | None => throw (invalid_autolog name)
  | Some p =>
      if negb (is_False (param_default p)) then throw (invalid_autolog name)
      else ret tt
  end.

(** A signature declares a parameter [disable] with the default [False]. *)
Definition declares_disable_False (param_spec : list parameter) : Prop :=
  exists p, In p param_spec /\ param_name p = "disable" /\ param_default p = VBool false.

(** [d.update(items)]. *)
Definition dict_update (d : gmap string pyval) (items : list (string * pyval)) : gmap string pyval :=
  foldl (fun d kv => <[kv.1 := kv.2]> d) d items.

(** The function [autolog] that takes the place of the decorated [_autolog]:
    it stores the configuration of the call, then calls [_autolog]. *)
Definition autolog (name : string) (param_spec : list parameter) (args : call_args)
  : prog outcome :=
  let default_params := map (fun p => (param_name p, param_default p)) param_spec in
  let config_to_store := dict_update ∅ default_params in
  let config_to_store :=
    dict_update config_to_store
      (map (fun ap => (param_name ap.2, ap.1)) (zip (positional args) param_spec)) in
  let config_to_store := dict_update config_to_store (keywords args) in
  _ <- call (WriteIntegration name config_to_store) ;;
  call (External ("autolog:" +:+ name) args).

(** [autologging_integration(name)(_autolog)], for an [_autolog] with the
    signature [param_spec]: the decoration itself, which yields [autolog]. *)
Definition autologging_integration (name : string) (param_spec : list parameter)
  : px (call_args -> prog outcome) :=
  validate_param_spec name param_spec ;;!
  _ <- call (WriteIntegration name ∅) ;;
  ret (autolog name param_spec).

End Registry.

(** ** Patches *)

Module Patching.

(** A subclass of [PatchFunction]: the attributes of an instance, their values
    after [__init__], and the two methods.  [_patch_implementation] yields the
    instance as it is when it returns or raises. *)
Record PatchFunction : Type := {
  instance : Type;
  init : instance;
  _patch_implementation : instance -> call_args -> prog (outcome * instance);
  _on_exception : instance -> pyexn -> px unit
}.

(** [PatchFunction.__call__]: an [Exception] of [_patch_implementation] goes to
    [_on_exception] and is raised again once the callback is over, however it
    ends. *)
Definition __call__ (cls : PatchFunction) (self : instance cls) (args : call_args)
  : prog outcome :=
  ri <- _patch_implementation cls self args ;;
  match ri with
  | (inr v, _) => Ret (inr v)
  | (inl e, self') =>
      if is_Exception e
      then _ <- _on_exception cls self' e ;; Ret (inl e)
      else Ret (inl e)
  end.

(** [PatchFunction.call]: [cls().__call__(original, *args, **kwargs)]. *)
Definition PatchFunction_call (cls : PatchFunction) (args : call_args) : prog outcome :=
  __call__ cls (init cls) args.

(** What [safe_patch] accepts: a function object whose first argument is the
    original, or a [PatchFunction] class. *)
Inductive patch_function : Type :=
| FunctionPatch (f : call_args -> prog outcome)
| ClassPatch (cls : PatchFunction).

(** [patch_function.call(original, ...)] or [patch_function(original, ...)]. *)
Definition invoke (patch : patch_function) (args : call_args) : prog outcome :=
  match patch with
  | ClassPatch cls => PatchFunction_call cls args
  | FunctionPatch f => f args
  end.

(** [try_mlflow_log(mlflow.end_run, RunStatus.to_string(status))] under
    [if managed_run:]. *)
Definition end_managed_run (managed_run : option string) (status : RunStatus) : px unit :=
  if bool_decide (is_Some managed_run)
  then try_mlflow_log (call (EndRun status)) ;;! ret tt
  else ret tt.

(** [managed_run = try_mlflow_log(mlflow.start_run)] under
    [if not mlflow.active_run():]. *)
Definition start_managed_run (managed_run : option string) : px (option string) :=
  active <- call ActiveRun ;;
  if negb (bool_decide (is_Some active))
  then try_mlflow_log (call StartRun)
  else ret managed_run.

(** The class [PatchWithManagedRun(patch_function)] of [with_managed_run]. *)
Definition PatchWithManagedRun (cls : PatchFunction) : PatchFunction := {|
  instance := instance cls * option string;
  init := (init cls, None);
  _patch_implementation := fun self args =>
    let '(super, managed_run) := self in
    started <- start_managed_run managed_run ;;
    match started with
    | inl e => Ret (inl e, (super, managed_run))
    | inr managed_run =>
        ri <- _patch_implementation cls super args ;;
        match ri with
        | (inl e, super') => Ret (inl e, (super', managed_run))
        | (inr result, super') =>
            ended <- end_managed_run managed_run FINISHED ;;
            match ended with
            | inl e => Ret (inl e, (super', managed_run))
            | inr _ => Ret (inr result, (super', managed_run))
            end
        end
    end;
  _on_exception := fun self e =>
    let '(super, managed_run) := self in
    end_managed_run managed_run FAILED ;;!
    _on_exception cls super e
|}.

(** The function [patch_with_managed_run] of [with_managed_run]. *)
Definition patch_with_managed_run (patch : call_args -> prog outcome) (args : call_args)
  : prog outcome :=
  managed_run <-! start_managed_run None ;;
  try_except_else (patch args) anything
    (fun e => end_managed_run managed_run FAILED ;;! throw e)
    (fun result => end_managed_run managed_run FINISHED ;;! ret result).

(** [with_managed_run(patch_function)]. *)
Definition with_managed_run (patch : patch_function) : patch_function :=
  match patch with
  | ClassPatch cls => ClassPatch (PatchWithManagedRun cls)
  | FunctionPatch f => FunctionPatch (patch_with_managed_run f)
  end.

(** The three variables of [safe_patch_function] that [call_original]
    assigns. *)
Record tracker : Type := Tracker {
  original_has_been_called : bool;
  original_result : pyval;
  failed_during_original : bool
}.

Definition fresh_tracker : tracker := Tracker false VNone false.

(** [call_original], called with [og_args] inside a call of
    [safe_patch_function] with [args]. *)
Definition call_original (args og_args : call_args) (t : tracker) : prog (outcome * tracker) :=
  testing <- _is_testing ;;
  checked <- (if testing
              then _ <- call (Leave (Validating args og_args)) ;;
                   Ret (Validator._validate_args args og_args)
              else Ret Validator.Pass) ;;
  match checked with
  | Validator.Fail err =>
      Ret (inl (AssertionError err),
           Tracker (original_has_been_called t) (original_result t) true)
  | Validator.Pass =>
      r <- call (Original og_args) ;;
      match r with
      | inr v => Ret (inr v, Tracker true v (failed_during_original t))
      | inl e =>
          Ret (inl e,
               Tracker true (original_result t)
                 (if is_Exception e then true else failed_during_original t))
      end
  end.

(** The variables after a call of [call_original] in which the original
    yielded [r]. *)
Definition after_call (t : tracker) (r : outcome) : tracker :=
  match r with
  | inr v => Tracker true v (failed_during_original t)
  | inl e =>
      Tracker true (original_result t)
        (if is_Exception e then true else failed_during_original t)
  end.

(** A program in which [Original] stands for [handler], which reads and
    assigns the tracker. *)
Fixpoint with_original {A : Type} (handler : call_args -> tracker -> prog (outcome * tracker))
    (p : prog A) (t : tracker) : prog (A * tracker) :=
  match p with
  | Ret a => Ret (a, t)
  | Do o k =>
      match o in op X return (X -> prog A) -> prog (A * tracker) with
      | Original og_args => fun k =>
          rt <- handler og_args t ;;
          with_original handler (k rt.1) rt.2
      | o' => fun k => Do o' (fun x => with_original handler (k x) t)
      end k
  end.

(** The [try] block of [safe_patch_function]: the patch, run with
    [call_original] for its original, from fresh variables. *)
Definition patch_run (patch : patch_function) (args : call_args) : prog (outcome * tracker) :=
  with_original (call_original args) (invoke patch args) fresh_tracker.

(** [safe_patch_function], called with [args], of
    [safe_patch(autologging_integration, destination, function_name,
    patch_function)]. *)
Definition safe_patch_function (autologging_integration : string) (patch : patch_function)
    (args : call_args) : prog outcome :=
  integrations <- call ReadIntegrations ;;
  if truthy (Registry.autologging_is_disabled integrations autologging_integration)
  then call (Original args)
  else
    rt <- patch_run patch args ;;
    let t := rt.2 in
    handled <-
      match rt.1 with
      | inr _ => ret tt
      | inl e =>
          if is_Exception e
          then
            if failed_during_original t then throw e
            else
              testing <- _is_testing ;;
              if testing then throw e
              else _ <- call (Warn (UnexpectedErrorDuringAutologging autologging_integration e)) ;;
                   ret tt
          else throw e
      end ;;
    match handled with
    | inl e => Ret (inl e)
    | inr _ =>
        if original_has_been_called t
        then Ret (inr (original_result t))
        else call (Original args)
    end.

(** [safe_patch(autologging_integration, destination, function_name,
    patch_function, manage_run)]: the function installed at the destination. *)
Definition safe_patch (autologging_integration : string) (patch : patch_function)
    (manage_run : bool) : call_args -> prog outcome :=
  let patch := if manage_run then with_managed_run patch else patch in
  safe_patch_function autologging_integration patch.

(** The calls of the original implementation in a record of events, with
    what each yielded, and the value of the last one that returned. *)
Definition original_calls (evs : list event) : list (call_args * outcome) :=
  omap (fun ev => match ev with EvOriginal a r => Some (a, r) | _ => None end) evs.

Fixpoint last_returned (calls : list (call_args * outcome)) : option pyval :=
  match calls with
  | [] => None
  | (_, r) :: calls' =>
      match last_returned calls' with
      | Some v => Some v
      | None => match r with inr v => Some v | inl _ => None end
      end
  end.

(** A call of the original that raised an [Exception]. *)
Definition failed_call (c : call_args * outcome) : bool :=
  match c.2 with inl e => is_Exception e | inr _ => false end.

(** The patch returned, or it raised something that [safe_patch_function]
    swallows: an [Exception], outside test mode, no call of the original
    having failed. *)
Definition swallowed_or_none {E : Type} (w : world E) (rt : outcome * tracker) : Prop :=
  match rt.1 with
  | inr _ => True
  | inl e => is_Exception e = true /\ failed_during_original rt.2 = false /\ testing w = false
  end.

(** The code that [with_managed_run] brackets: the patch function itself, or
    the [_patch_implementation] of a fresh instance of the patch class. *)
Definition inner_code (patch : patch_function) (args : call_args) : prog outcome :=
  match patch with
  | FunctionPatch f => f args
  | ClassPatch cls => ri <- _patch_implementation cls (init cls) args ;; Ret ri.1
  end.

(** The status a managed run ends with after the inner code. *)
Definition status_after (o : outcome) : RunStatus :=
  match o with inr _ => FINISHED | inl _ => FAILED end.

(** What the bracket of [with_managed_run] reacts to: a return, and an
    exception that its handler catches, which is any exception for the
    function and an [Exception] for the class. *)
Definition handled_by (patch : patch_function) (o : outcome) : Prop :=
  match o, patch with
  | inr _, _ => True
  | inl _, FunctionPatch _ => True
  | inl e, ClassPatch _ => is_Exception e = true
  end.

(** What the three variables hold after the patch has run, read off the calls
    of the original that the run recorded. *)
Definition tracks (t t' : tracker) (calls : list (call_args * outcome)) : Prop :=
  original_has_been_called t' =
    match calls with [] => original_has_been_called t | _ => true end
  /\ original_result t' = default (original_result t) (last_returned calls)
  /\ (failed_during_original t = true \/ existsb failed_call calls = true ->
      failed_during_original t' = true).

(** The last two lines of [safe_patch_function], reached in the world [w] with
    the events [evs] behind: the recorded result, or a call of the original. *)
Definition conclude {E : Type} (env : surroundings E) (t : tracker) (args : call_args)
    (w : world E) (evs : list event) : result E outcome :=
  if original_has_been_called t
  then Result (inr (original_result t)) w evs
  else
    let o := original_impl env args (ext w) in
    Result o.1 (with_ext w o.2) (evs ++ [EvOriginal args o.1]).

(** A program without any call of [Original]. *)
Definition is_Original {X : Type} (o : op X) : bool :=
  match o with Original _ => true | _ => false end.

Inductive never_calls_original {A : Type} : prog A -> Prop :=
| never_ret (a : A) : never_calls_original (Ret a)
| never_do {X : Type} (o : op X) (k : X -> prog A) :
    is_Original o = false ->
    (forall x, never_calls_original (k x)) ->
    never_calls_original (Do o k).

End Patching.

(** ** The batch metrics logger *)

Module Metrics.

(** The attributes of a [BatchMetricsLogger]. *)
Record BatchMetricsLogger : Type := Logger {
  run_id : option string;
  data : list Metric;
  total_training_time : Q;
  total_log_batch_time : Q;
  previous_training_timestamp : option Q
}.

(** [BatchMetricsLogger(run_id)]. *)
Definition new (run_id : option string) : BatchMetricsLogger :=
  Logger run_id [] 0%Q 0%Q None.

(** [int(x)]: truncation towards zero. *)
Definition int_of (x : Q) : Z := Z.quot (Qnum x) (Z.pos (Qden x)).

(** [range(start, stop, step)] for a positive [step]; [fuel] bounds the number
    of rounds, and [stop - start] rounds are enough. *)
Fixpoint range_from (fuel start stop step : nat) : list nat :=
  match fuel with
  | O => []
  | S fuel' =>
      if Nat.ltb start stop
      then start :: range_from fuel' (start + step) stop step
      else []
  end.

Definition range (stop step : nat) : list nat := range_from stop 0 stop step.

Section Logger.

(** [mlflow.utils.validation.MAX_METRICS_PER_BATCH], a positive constant of
    the tracking client. *)
Variable MAX_METRICS_PER_BATCH : nat.

(** [[self.data[i : i + MAX] for i in range(0, len(self.data), MAX)]]. *)
Definition metrics_slices (data : list Metric) : list (list Metric) :=
  map (fun i => firstn MAX_METRICS_PER_BATCH (skipn i data))
      (range (length data) MAX_METRICS_PER_BATCH).

(** [mlflow.active_run().info.run_id] when [self.run_id is None]. *)
Definition current_run_id (self : BatchMetricsLogger) : px string :=
  match run_id self with
  | None =>
      active <- call ActiveRun ;;
      match active with
      | None => throw (AttributeError "'NoneType' object has no attribute 'info'")
      | Some id => ret id
      end
  | Some id => ret id
  end.

(** [self._timed_log_batch()].  For each slice the client is constructed,
    [MlflowClient()], before [try_mlflow_log] is entered: what the
    constructor raises is not caught there. *)
Definition _timed_log_batch (self : BatchMetricsLogger)
  : prog ((pyexn + unit) * BatchMetricsLogger) :=
  id <- current_run_id self ;;
  match id with
  | inl e => Ret (inl e, self)
  | inr current_run_id =>
      start <- call Clock ;;
      logged <- for_each (metrics_slices (data self))
                  (fun metrics_slice =>
                     call (External "MlflowClient" (CallArgs [] [])) ;;!
                     try_mlflow_log (call (LogBatch current_run_id metrics_slice)) ;;! ret tt) ;;
      match logged with
      | inl e => Ret (inl e, self)
      | inr _ =>
          end_ <- call Clock ;;
          Ret (inr tt,
               Logger (run_id self) (data self) (total_training_time self)
                 (total_log_batch_time self + (end_ - start))%Q
                 (previous_training_timestamp self))
      end
  end.

(** [self.flush()]. *)
Definition flush (self : BatchMetricsLogger) : prog ((pyexn + unit) * BatchMetricsLogger) :=
  _ <- call (Leave Flushing) ;;
  rs <- _timed_log_batch self ;;
  match rs with
  | (inl e, self) => Ret (inl e, self)
  | (inr _, self) =>
      Ret (inr tt,
           Logger (run_id self) [] (total_training_time self) (total_log_batch_time self)
             (previous_training_timestamp self))
  end.

(** [self._should_flush()]. *)
Definition _should_flush (self : BatchMetricsLogger) : bool :=
  let target_training_to_logging_time_ratio := 10%Q in
  Qle_bool (total_log_batch_time self * target_training_to_logging_time_ratio)
           (total_training_time self).

(** The points that one call of [record_metrics] appends. *)
Definition new_points (metrics : list (string * pyval)) (step : option Z)
    (current_timestamp : Q) : list Metric :=
  let step := default 0%Z step in
  map (fun kv => MkMetric kv.1 kv.2 (int_of (current_timestamp * 1000)) step) metrics.

(** The logger of [record_metrics] when it reaches [if self._should_flush()]. *)
Definition recorded (self : BatchMetricsLogger) (metrics : list (string * pyval))
    (step : option Z) (current_timestamp : Q) : BatchMetricsLogger :=
  let previous := default current_timestamp (previous_training_timestamp self) in
  let training_time := (current_timestamp - previous)%Q in
  Logger (run_id self)
    (data self ++ new_points metrics step current_timestamp)
    (total_training_time self + training_time)%Q
    (total_log_batch_time self)
    (Some previous).

(** [self.record_metrics(metrics, step)]. *)
Definition record_metrics (self : BatchMetricsLogger) (metrics : list (string * pyval))
    (step : option Z) : prog ((pyexn + unit) * BatchMetricsLogger) :=
  current_timestamp <- call Clock ;;
  let self := recorded self metrics step current_timestamp in
  rs <- (if _should_flush self then flush self else Ret (inr tt, self)) ;;
  match rs with
  | (inl e, self) => Ret (inl e, self)
  | (inr _, self) =>
      Ret (inr tt,
           Logger (run_id self) (data self) (total_training_time self)
             (total_log_batch_time self) (Some current_timestamp))
  end.

(** [with batch_metrics_logger(run_id) as logger: body logger].  The context
    manager is a generator with one [yield] and nothing around it: an
    exception of the body is thrown into the generator at the [yield] and
    leaves it at once; when the body completes, the generator resumes after
    the [yield]. *)
Definition with_batch_metrics_logger {A : Type} (run_id : option string)
    (body : BatchMetricsLogger -> prog ((pyexn + A) * BatchMetricsLogger)) : px A :=
  let batch_metrics_logger := new run_id in
  rs <- body batch_metrics_logger ;;
  match rs with
  | (inl e, _) => Ret (inl e)
  | (inr a, batch_metrics_logger) =>
      fs <- flush batch_metrics_logger ;;
      match fs.1 with
      | inl e => Ret (inl e)
      | inr _ => Ret (inr a)
      end
  end.

(** A use of a logger: one of its two public methods. *)
Inductive logger_call : Type :=
| RecordMetrics (metrics : list (string * pyval)) (step : option Z)
| Flush.

Definition perform (c : logger_call) (self : BatchMetricsLogger)
  : prog ((pyexn + unit) * BatchMetricsLogger) :=
  match c with
  | RecordMetrics metrics step => record_metrics self metrics step
  | Flush => flush self
  end.

(** Calls one after the other, up to the first that raises. *)
Fixpoint perform_all (calls : list logger_call) (self : BatchMetricsLogger)
  : prog ((pyexn + unit) * BatchMetricsLogger) :=
  match calls with
  | [] => Ret (inr tt, self)
  | c :: calls' =>
      rs <- perform c self ;;
      match rs with
      | (inl e, self) => Ret (inl e, self)
      | (inr _, self) => perform_all calls' self
      end
  end.

End Logger.

(** The batches handed to the client, and the flushes, in a record of
    events. *)
Definition submitted (evs : list event) : list (list Metric) :=
  omap (fun ev => match ev with EvLogBatch _ metrics _ => Some metrics | _ => None end) evs.

Definition flushes (evs : list event) : nat :=
  length (List.filter (fun ev => match ev with EvMark Flushing => true | _ => false end) evs).

(** The points that a sequence of calls appends to the buffer, in order: those
    of each [record_metrics], stamped with the time that call reads, as long
    as the calls return. *)
Fixpoint appended {E : Type} (env : surroundings E) (MAX_METRICS_PER_BATCH : nat)
    (calls : list logger_call) (self : BatchMetricsLogger) (w : world E) : list Metric :=
  match calls with
  | [] => []
  | c :: calls' =>
      let r := run env (perform MAX_METRICS_PER_BATCH c self) w in
      match c with
      | RecordMetrics metrics step => new_points metrics step (time_impl env (ext w)).1
      | Flush => []
      end ++
      match (value r).1 with
      | inr _ => appended env MAX_METRICS_PER_BATCH calls' (value r).2 (final r)
      | inl _ => []
      end
  end.

(** A client whose failures are all [Exception]s. *)
Definition client_raises_exceptions_only {E : Type} (env : surroundings E) : Prop :=
  forall id metrics e x, (log_batch_impl env id metrics e).1 = inl x -> is_Exception x = true.

(** The constructor of the client, [MlflowClient()], returns. *)
Definition client_constructor_returns {E : Type} (env : surroundings E) : Prop :=
  forall e, exists client, (external_impl env "MlflowClient" (CallArgs [] []) e).1 = inr client.

(** A batch the client accepts: not empty, and no longer than the limit. *)
Definition batch_ok (MAX_METRICS_PER_BATCH : nat) (batch : list Metric) : Prop :=
  (0 < length batch <= MAX_METRICS_PER_BATCH)%nat.

End Metrics.

(** ** Scripted surroundings

    Concrete surroundings on which the definitions can be run: the original
    function is a fixed function of its arguments, the MLflow calls answer as
    the script says, and the clock reads the next value of a list. *)

Module Script.

Record script : Type := MkScript {
  original_does : call_args -> outcome;
  active : option string;
  start_run_does : pyexn + string;
  end_run_does : pyexn + unit;
  log_batch_does : pyexn + unit;
  clock : list Q
}.

Definition set_active (s : script) (a : option string) : script :=
  MkScript (original_does s) a (start_run_does s) (end_run_does s) (log_batch_does s) (clock s).

Definition scripted : surroundings script := {|
  original_impl := fun a s => (original_does s a, s);
  active_run_impl := active;
  start_run_impl := fun s =>
    (start_run_does s,
     match start_run_does s with inr id => set_active s (Some id) | inl _ => s end);
  end_run_impl := fun _ s =>
    (end_run_does s,
     match end_run_does s with inr _ => set_active s None | inl _ => s end);
  log_batch_impl := fun _ _ s => (log_batch_does s, s);
  time_impl := fun s =>
    (hd 0%Q (clock s),
     MkScript (original_does s) (active s) (start_run_does s) (end_run_does s)
       (log_batch_does s) (tl (clock s)));
  external_impl := fun _ _ s => (inr VNone, s)
|}.

(** A quiet script: every call succeeds, no run is active, the original
    returns its first positional argument. *)
Definition quiet : script := {|
  original_does := fun a => inr (hd VNone (positional a));
  active := None;
  start_run_does := inr "run-1";
  end_run_does := inr tt;
  log_batch_does := inr tt;
  clock := []
|}.

Definition boom : pyexn := PyException "ValueError" "boom".

(** The original raises [boom]. *)
Definition failing_original : script :=
  MkScript (fun _ => inl boom) None (inr "run-1") (inr tt) (inr tt) [].

(** [mlflow.start_run] raises [boom]. *)
Definition failing_start : script :=
  MkScript (original_does quiet) None (inl boom) (inr tt) (inr tt) [].

(** A process in which the integration ["sklearn"] is enabled, in or out of
    test mode. *)
Definition enabled : gmap string (gmap string pyval) :=
  {[ "sklearn" := {[ "disable" := VBool false ]} ]}.

Definition process (testing : bool) (s : script) : world script :=
  World (if testing then {[ _AUTOLOGGING_TEST_MODE_ENV_VAR := "true" ]} else ∅) enabled s.

(** A process with an empty registry. *)
Definition bare_process (s : script) : world script := World ∅ ∅ s.

Definition one_two : call_args := CallArgs [VInt 1; VInt 2] [].

(** A patch that calls the original, catches whatever it raises, and
    returns. *)
Definition swallowing_patch : Patching.patch_function :=
  Patching.FunctionPatch (fun args => _ <- call (Original args) ;; Ret (inr VNone)).

(** A patch that calls the original and lets its exceptions through. *)
Definition transparent_patch : Patching.patch_function :=
  Patching.FunctionPatch (fun args => call (Original args)).

(** A patch that returns without calling the original. *)
Definition idle_patch : Patching.patch_function :=
  Patching.FunctionPatch (fun _ => Ret (inr VNone)).

(** A patch that raises before it calls the original. *)
Definition broken_patch : Patching.patch_function :=
  Patching.FunctionPatch (fun _ => Ret (inl boom)).

(** A run is active already. *)
Definition busy : script :=
  MkScript (original_does quiet) (Some "run-0") (inr "run-1") (inr tt) (inr tt) [].

(** A patch class without attributes that calls the original and ignores
    exceptions in its callback. *)
Definition transparent_class : Patching.PatchFunction := {|
  Patching.instance := unit;
  Patching.init := tt;
  Patching._patch_implementation := fun self args =>
    r <- call (Original args) ;; Ret (r, self);
  Patching._on_exception := fun _ _ => ret tt
|}.

(** A patch function and a patch class that are interrupted from the
    keyboard. *)
Definition interrupted_patch : Patching.patch_function :=
  Patching.FunctionPatch (fun _ => Ret (inl KeyboardInterrupt)).

Definition interrupted_class : Patching.PatchFunction := {|
  Patching.instance := unit;
  Patching.init := tt;
  Patching._patch_implementation := fun self _ => Ret (inl KeyboardInterrupt, self);
  Patching._on_exception := fun _ _ => ret tt
|}.

(** A client that takes five seconds for the first flush: the clock reads 0
    at the first [record_metrics], 0 and 5 around the flush it triggers, and 6
    at the second [record_metrics]. *)
Definition slow_client : script :=
  MkScript (original_does quiet) None (inr "run-1") (inr tt) (inr tt) [0; 0; 5; 6]%Q.

Definition loss (n : Z) : list (string * pyval) := [("loss", VInt n)].

(** The body of a [with] block: two calls of [record_metrics], then an
    exception. *)
Definition two_records_then_raise (logger : Metrics.BatchMetricsLogger)
  : prog ((pyexn + unit) * Metrics.BatchMetricsLogger) :=
  rs <- Metrics.record_metrics 1000 logger (loss 1) (Some 0%Z) ;;
  match rs with
  | (inl e, logger) => Ret (inl e, logger)
  | (inr _, logger) =>
      rs <- Metrics.record_metrics 1000 logger (loss 2) (Some 1%Z) ;;
      match rs with
      | (inl e, logger) => Ret (inl e, logger)
      | (inr _, logger) => Ret (inl boom, logger)
      end
  end.

(** The same body without the exception. *)
Definition two_records (logger : Metrics.BatchMetricsLogger)
  : prog ((pyexn + unit) * Metrics.BatchMetricsLogger) :=
  Metrics.perform_all 1000
    [Metrics.RecordMetrics (loss 1) (Some 0%Z); Metrics.RecordMetrics (loss 2) (Some 1%Z)]
    logger.

(** Signatures of [autolog] functions: with [disable=False], without
    [disable], with [disable] lacking a default, and with [disable=0]. *)
Definition keras_autolog : list Registry.parameter :=
  [Registry.Param "log_models" (VBool true); Registry.Param "disable" (VBool false)].

Definition old_autolog : list Registry.parameter :=
  [Registry.Param "log_models" (VBool true)].

Definition required_disable : list Registry.parameter :=
  [Registry.Param "disable" Registry.Parameter_empty].

Definition zero_disable : list Registry.parameter :=
  [Registry.Param "disable" (VInt 0)].

End Script.

(** ** The argument validator, seen from outside *)

Module ValidatorSpec.
Import Validator.

(** The loops of [_validate], by name: over the elements of a sequence paired
    with the expected ones, and over the entries of a dictionary. *)
Fixpoint validate_seq (items user_items : list pyval) : verdict :=
  match items with
  | [] => Pass
  | a :: l' => and_then (_validate a (hd VNone user_items)) (validate_seq l' (tl user_items))
  end.

Definition validate_entries (user_entries : list (string * pyval))
  : list (string * pyval) -> verdict :=
  fix each_key (d : list (string * pyval)) : verdict :=
    match d with
    | [] => Pass
    | (key, a) :: d' =>
        and_then (_validate a (dict_get user_entries key VNone)) (each_key d')
    end.

(** The loop of [_validate_new_input] over the elements of a list. *)
Fixpoint validate_new_inputs (items : list pyval) : verdict :=
  match items with
  | [] => Pass
  | item :: l' => and_then (_validate_new_input item) (validate_new_inputs l')
  end.

(** A value as Python builds it: no dictionary in it has a key twice. *)
Fixpoint unique_keys (v : pyval) : Prop :=
  match v with
  | VTuple l | VList l =>
      (fix all (l : list pyval) : Prop :=
         match l with
         | [] => True
         | x :: l' => unique_keys x /\ all l'
         end) l
  | VDict d =>
      List.NoDup (dict_keys d)
      /\ (fix all (d : list (string * pyval)) : Prop :=
            match d with
            | [] => True
            | (_, x) :: d' => unique_keys x /\ all d'
            end) d
  | _ => True
  end.

Definition unique_keys_args (a : call_args) : Prop :=
  unique_keys (VTuple (positional a)) /\ unique_keys (VDict (keywords a)).

(** What the docstring of [_validate_new_input] accepts: a function that
    carries the marker, an instance of a class whose metaclass is
    [ExceptionSafeClass], a list of such inputs. *)
Inductive exception_safe_input : pyval -> Prop :=
| safe_function (id : nat) : exception_safe_input (VFunc id true)
| safe_instance (c : pyclass) (id : nat) :
    class_exception_safe c = true -> exception_safe_input (VObj c id)
| safe_list (items : list pyval) :
    Forall exception_safe_input items -> exception_safe_input (VList items).

(** A value that is neither a sequence nor a dictionary, and not [None]. *)
Definition is_atom (v : pyval) : bool :=
  match v with
  | VBool _ | VInt _ | VStr _ | VFunc _ _ | VClass _ | VObj _ _ => true
  | _ => false
  end.

End ValidatorSpec.

(** ** More scripted surroundings *)

Module Cases.
Import Script.

(** [mlflow.end_run] raises [boom]. *)
Definition failing_end : script :=
  MkScript (original_does quiet) None (inr "run-1") (inl boom) (inr tt) [].

(** The client raises [boom] at every batch. *)
Definition failing_client : script :=
  MkScript (original_does quiet) None (inr "run-1") (inr tt) (inl boom) [0; 1; 3; 4; 9]%Q.

(** Surroundings whose client raises [boom] at every batch, whatever the
    script; the rest is as in [scripted]. *)
Definition rejecting : surroundings script := {|
  original_impl := original_impl scripted;
  active_run_impl := active_run_impl scripted;
  start_run_impl := start_run_impl scripted;
  end_run_impl := end_run_impl scripted;
  log_batch_impl := fun _ _ s => (inl boom, s);
  time_impl := time_impl scripted;
  external_impl := external_impl scripted
|}.

(** A patch that calls the original and then raises. *)
Definition late_failure : Patching.patch_function :=
  Patching.FunctionPatch (fun args => _ <- call (Original args) ;; Ret (inl boom)).

(** A patch that calls the original with the caller's arguments and then
    without any. *)
Definition two_calls : Patching.patch_function :=
  Patching.FunctionPatch
    (fun args => _ <- call (Original args) ;; call (Original (CallArgs [] []))).

(** The original returns its first positional argument and raises [boom]
    when it has none. *)
Definition needs_argument : script :=
  MkScript (fun a => match positional a with [] => inl boom | x :: _ => inr x end)
    None (inr "run-1") (inr tt) (inr tt) [].

(** The configuration that [autolog] stores for a call. *)
Definition stored_config (param_spec : list Registry.parameter) (args : call_args)
  : gmap string pyval :=
  Registry.dict_update
    (Registry.dict_update
       (Registry.dict_update ∅
          (map (fun p => (Registry.param_name p, Registry.param_default p)) param_spec))
       (map (fun ap => (Registry.param_name ap.2, ap.1)) (zip (positional args) param_spec)))
    (keywords args).

End Cases.

(** ** What a patch asks of [call_original] *)

Module PatchingSpec.
Import Patching.

Section Invocations.

Context {E : Type} (env : surroundings E).

(** The invocations of the original by a program that runs with [handler] in
    its place, as [patch_run] runs the patch with [call_original]: the
    arguments of each invocation and what it gave back to the program. *)
Fixpoint invocations {A : Type}
    (handler : call_args -> tracker -> prog (outcome * tracker))
    (p : prog A) (t : tracker) (w : world E) : list (call_args * outcome) :=
  match p with
  | Ret _ => []
  | Do o k =>
      match o in op X return (X -> prog A) -> list (call_args * outcome) with
      | Original og_args => fun k =>
          let c := run env (handler og_args t) w in
          (og_args, (value c).1)
            :: invocations handler (k (value c).1) (value c).2 (final c)
      | o' => fun k =>
          let s := step env o' w in
          invocations handler (k (value s)) t (final s)
      end k
  end.

End Invocations.

(** An invocation of [call_original] goes on to the original: always outside
    test mode, and in test mode when its arguments pass the validation
    against the caller's. *)
Definition reaches_original (testing : bool) (args : call_args)
    (c : call_args * outcome) : bool :=
  if testing
  then match Validator._validate_args args c.1 with
       | Validator.Pass => true
       | Validator.Fail _ => false
       end
  else true.

End PatchingSpec.

(** ** Logging the arguments of a call, [log_fn_args_as_params] *)

Module Params.
Import Registry.

(** [d[key] = value] on an insertion-ordered dictionary: a key that is
    present keeps its place. *)
Fixpoint dict_set (d : list (string * pyval)) (key : string) (value : pyval)
  : list (string * pyval) :=
  match d with
  | [] => [(key, value)]
  | (k, v) :: d' =>
      if String.eqb k key then (k, value) :: d' else (k, v) :: dict_set d' key value
  end.

(** [d.update(items)]; from the empty dictionary, a dictionary
    comprehension. *)
Definition ordered_update (d : list (string * pyval)) (items : list (string * pyval))
  : list (string * pyval) :=
  foldl (fun d kv => dict_set d kv.1 kv.2) d items.

(** [d.get(key)] as an option. *)
Fixpoint dict_lookup (d : list (string * pyval)) (key : string) : option pyval :=
  match d with
  | [] => None
  | (k, v) :: d' => if String.eqb k key then Some v else dict_lookup d' key
  end.

(** The parameters of the signature but [self]. *)
Definition relevant_params (param_spec : list parameter) : list parameter :=
  List.filter (fun param => negb (String.eqb (param_name param) "self")) param_spec.

(** The dictionary that [log_fn_args_as_params] hands to [mlflow.log_params],
    for a function whose signature is [param_spec]. *)
Definition params_to_log (param_spec : list parameter) (args : list pyval)
    (kwargs : list (string * pyval)) (unlogged : list string) : list (string * pyval) :=
  let relevant_params := relevant_params param_spec in
  let params_to_log :=
    ordered_update []
      (map (fun pv => (param_name pv.1, pv.2))
         (zip (take (length args) relevant_params) args)) in
  let params_to_log := ordered_update params_to_log kwargs in
  let params_to_log :=
    ordered_update params_to_log
      (ordered_update []
         (map (fun param => (param_name param, param_default param))
            (List.filter (fun param => negb (has_key kwargs (param_name param)))
               (drop (length args) relevant_params)))) in
  List.filter (fun kv => negb (existsb (String.eqb kv.1) unlogged)) params_to_log.

(** [log_fn_args_as_params(fn, args, kwargs, unlogged)], where
    [inspect.signature(fn).parameters] is [param_spec]. *)
Definition log_fn_args_as_params (param_spec : list parameter) (args : list pyval)
    (kwargs : list (string * pyval)) (unlogged : list string) : px unit :=
  let params_to_log := params_to_log param_spec args kwargs unlogged in
  try_mlflow_log (call (External "mlflow.log_params" (CallArgs [VDict params_to_log] []))) ;;!
  ret tt.

End Params.

(** ** Input example and model signature *)

Module Resolve.

Section Signature.

(** [str(e)], as the class of the exception defines it, and the message of the
    [TypeError] that the interpreter raises for a string plus [None]. *)
Variable str : pyexn -> string.
Variable concatenate_None_message : string.

(** [resolve_input_example_and_signature(get_input_example,
    infer_model_signature, log_input_example, log_model_signature, logger)];
    [logger_warning] is [logger.warning]. *)
Definition resolve_input_example_and_signature
    (get_input_example : px pyval) (infer_model_signature : pyval -> px pyval)
    (log_input_example log_model_signature : bool)
    (logger_warning : string -> px pyval) : px (pyval * pyval) :=
  let input_example := VNone in
  let input_example_user_msg : option string := None in
  let input_example_failure_msg : option string := None in
  gathered <-!
    (if log_input_example || log_model_signature then
       try_except
         (input_example <-! get_input_example ;;
          ret (input_example, input_example_user_msg, input_example_failure_msg))
         is_Exception
         (fun e =>
            let input_example_failure_msg := Some (str e) in
            let input_example_user_msg :=
              Some ("Failed to gather input example: " +:+ str e) in
            ret (input_example, input_example_user_msg, input_example_failure_msg))
     else ret (input_example, input_example_user_msg, input_example_failure_msg)) ;;
  let '(input_example, input_example_user_msg, input_example_failure_msg) := gathered in
  let model_signature := VNone in
  let model_signature_user_msg : option string := None in
  inferred <-!
    (if log_model_signature then
       try_except
         ((if is_None input_example then
             match input_example_failure_msg with
             | Some msg =>
                 throw (PyException "Exception"
                          ("could not sample data to infer model signature: " +:+ msg))
             | None => throw (PyException "TypeError" concatenate_None_message)
             end
           else ret tt) ;;!
          model_signature <-! infer_model_signature input_example ;;
          ret (model_signature, model_signature_user_msg))
         is_Exception
         (fun e =>
            let model_signature_user_msg :=
              Some ("Failed to infer model signature: " +:+ str e) in
            ret (model_signature, model_signature_user_msg))
     else ret (model_signature, model_signature_user_msg)) ;;
  let '(model_signature, model_signature_user_msg) := inferred in
  (if log_input_example then
     match input_example_user_msg with
     | Some msg => logger_warning msg ;;! ret tt
     | None => ret tt
     end
   else ret tt) ;;!
  (if log_model_signature then
     match model_signature_user_msg with
     | Some msg => logger_warning msg ;;! ret tt
     | None => ret tt
     end
   else ret tt) ;;!
  ret (if log_input_example then input_example else VNone, model_signature).

End Signature.

(** A program that raises nothing that is an [Exception]. *)
Definition raises_no_Exception {E A : Type} (env : surroundings E) (c : px A) : Prop :=
  forall w e, value (run env c w) = inl e -> is_Exception e = false.

(** A logger whose [warning] returns. *)
Definition logger_returns {E : Type} (env : surroundings E)
    (logger_warning : string -> px pyval) : Prop :=
  forall msg w, exists v, value (run env (logger_warning msg) w) = inr v.

(** [str(e)] for the exceptions that carry their message. *)
Definition message_of (e : pyexn) : string :=
  match e with
  | AttributeError msg | PyException _ msg => msg
  | _ => EmptyString
  end.

(** A logger that hands its warnings to the surroundings. *)
Definition external_logger (msg : string) : px pyval :=
  call (External "logger.warning" (CallArgs [VStr msg] [])).

End Resolve.

(** * Properties *)

(** ** Running programs *)

Section RunFacts.

Context {E : Type} (env : surroundings E).

Lemma result_eta {A : Type} (r : result E A) :
  Result (value r) (final r) (events r) = r.
Proof. destruct r; reflexivity. Qed.

Lemma run_bind {A B : Type} (p : prog A) (f : A -> prog B) (w : world E) :
  run env (bind p f) w =
  let r := run env p w in
  let r' := run env (f (value r)) (final r) in
  Result (value r') (final r') (events r ++ events r').
Proof.
  revert w. induction p as [a | X o k IH]; intros w; simpl.
  - symmetry. apply result_eta.
  - rewrite IH. simpl. rewrite <- app_assoc. reflexivity.
Qed.

Lemma run_bindx {A B : Type} (c : px A) (f : A -> px B) (w : world E) :
  run env (bindx c f) w =
  let r := run env c w in
  match value r with
  | inl e => Result (inl e) (final r) (events r)
  | inr a =>
      let r' := run env (f a) (final r) in
      Result (value r') (final r') (events r ++ events r')
  end.
Proof.
  unfold bindx. rewrite run_bind. simpl.
  destruct (value (run env c w)); simpl; [rewrite app_nil_r|]; reflexivity.
Qed.

(** Reading the test mode flag changes nothing. *)
Lemma run_is_testing (w : world E) :
  run env _is_testing w = Result (testing w) w [].
Proof. reflexivity. Qed.

(** [try_mlflow_log] around one call of the surroundings. *)
Lemma run_try_mlflow_log {A : Type} (fn : px A) (w : world E) :
  run env (try_mlflow_log fn) w =
  let r := run env fn w in
  match value r with
  | inr a => Result (inr (Some a)) (final r) (events r)
  | inl e =>
      if is_Exception e && negb (testing (final r))
      then Result (inr None) (final r) (events r ++ [EvWarn (LoggingToMLflowFailed e)])
      else Result (inl e) (final r) (events r)
  end.
Proof.
  unfold try_mlflow_log, try_except. rewrite run_bind, run_bindx. simpl.
  destruct (value (run env fn w)) as [e | a]; simpl.
  - destruct (is_Exception e); simpl.
    + unfold testing.
      destruct (String.eqb _ _); simpl; rewrite ?app_nil_r; reflexivity.
    + rewrite app_nil_r. reflexivity.
  - rewrite !app_nil_r. reflexivity.
Qed.

(** No operation changes [os.environ]. *)
Lemma step_environ {X : Type} (o : op X) (w : world E) :
  environ (final (step env o w)) = environ w.
Proof.
  destruct o; cbn; try reflexivity.
  - destruct (original_impl env a (ext w)); reflexivity.
  - destruct (start_run_impl env (ext w)); reflexivity.
  - destruct (end_run_impl env status (ext w)); reflexivity.
  - destruct (log_batch_impl env run_id metrics (ext w)); reflexivity.
  - destruct (time_impl env (ext w)); reflexivity.
  - destruct (external_impl env what a (ext w)); reflexivity.
Qed.

Lemma run_environ {A : Type} (p : prog A) (w : world E) :
  environ (final (run env p w)) = environ w.
Proof.
  revert w. induction p as [a | X o k IH]; intros w; cbn; [reflexivity |].
  rewrite IH. apply step_environ.
Qed.

Lemma run_testing {A : Type} (p : prog A) (w : world E) :
  testing (final (run env p w)) = testing w.
Proof. unfold testing. now rewrite run_environ. Qed.

End RunFacts.

(** ** The argument validator *)

Module ValidatorFacts.
Import Validator.

(** A function that carries the marker is a valid new input, one that does not
    is not. *)
Lemma new_function_valid (id : nat) (safe : bool) :
  _validate_new_input (VFunc id safe) =
  if safe then Pass else Fail (NewFunctionNotExceptionSafe (VFunc id safe)).
Proof. reflexivity. Qed.

(** A sequence shorter than the expected one is rejected, whatever it holds. *)
Lemma shorter_sequence_rejected (actual expected : list pyval) :
  (length actual < length expected)%nat ->
  _validate (VTuple actual) (VTuple expected) =
  Fail (ExpectedInputsMissing (Z.of_nat (length actual) - Z.of_nat (length expected))).
Proof.
  intros Hlt. cbn -[Z.sub Z.ltb Z.of_nat].
  destruct (Z.ltb_spec (Z.of_nat (length actual) - Z.of_nat (length expected)) 0) as [_ | Hge].
  - reflexivity.
  - lia.
Qed.

(** A dictionary that lacks an expected key is rejected. *)
Lemma missing_key_rejected (actual expected : list (string * pyval)) (key : string) :
  In key (dict_keys expected) -> has_key actual key = false ->
  exists missing, _validate (VDict actual) (VDict expected) = Fail (ExpectedKeysOmitted missing)
                  /\ In key missing.
Proof.
  intros Hin Hno.
  assert (Hmiss : In key (omitted_keys expected actual)).
  { unfold omitted_keys. apply filter_In. split; [assumption | now rewrite Hno]. }
  cbn. fold (dict_keys expected) in *.
  change (List.filter (fun k => negb (has_key actual k)) (dict_keys expected))
    with (omitted_keys expected actual).
  destruct (omitted_keys expected actual) as [| k ks] eqn:Heq.
  - destruct Hmiss.
  - exists (k :: ks). split; [reflexivity | assumption].
Qed.

(** C6. With expected positional arguments [(1, 2)]: the actual arguments
    [(1, 2, safe_fn)] pass when [safe_fn] carries the exception-safety marker;
    [(1, 2, unsafe_fn)] fail when the extra function is unmarked; the shorter
    [(1,)] fails; and with expected keywords [{"a": 1}] the actual keywords [{}]
    fail, the key ["a"] being absent. *)
Theorem validate_args_examples (id : nat) :
  _validate_args (CallArgs [VInt 1; VInt 2] [])
                 (CallArgs [VInt 1; VInt 2; VFunc id true] []) = Pass
  /\ _validate_args (CallArgs [VInt 1; VInt 2] [])
                    (CallArgs [VInt 1; VInt 2; VFunc id false] [])
     = Fail (NewFunctionNotExceptionSafe (VFunc id false))
  /\ _validate_args (CallArgs [VInt 1; VInt 2] []) (CallArgs [VInt 1] [])
     = Fail (ExpectedInputsMissing (-1))
  /\ _validate_args (CallArgs [] [("a", VInt 1)]) (CallArgs [] [])
     = Fail (ExpectedKeysOmitted ["a"]).
Proof. repeat split; reflexivity. Qed.

End ValidatorFacts.

(** ** The integration registry *)

Module RegistryFacts.
Import Registry.

Lemma param_lookup_Some (param_spec : list parameter) (name : string) (p : parameter) :
  param_lookup param_spec name = Some p -> In p param_spec /\ param_name p = name.
Proof.
  unfold param_lookup. intros H. apply find_some in H as [Hin Heq].
  split; [assumption | now apply String.eqb_eq].
Qed.

Lemma param_lookup_None (param_spec : list parameter) (name : string) (p : parameter) :
  param_lookup param_spec name = None -> In p param_spec -> param_name p <> name.
Proof.
  unfold param_lookup. intros H Hin Heq.
  pose proof (find_none _ _ H p Hin) as Hf. cbn in Hf.
  apply String.eqb_neq in Hf. contradiction.
Qed.

(** In a signature no two parameters share a name, so the parameter found
    under a name is the only one of that name. *)
Lemma param_lookup_unique (param_spec : list parameter) (p q : parameter) :
  List.NoDup (map param_name param_spec) ->
  In p param_spec -> In q param_spec -> param_name p = param_name q -> p = q.
Proof.
  induction param_spec as [| x l IH]; intros Hnd Hp Hq Heq; [destruct Hp |].
  cbn in Hnd. inversion Hnd as [| ? ? Hnotin Hnd']; subst.
  destruct Hp as [-> | Hp], Hq as [-> | Hq].
  - reflexivity.
  - exfalso. apply Hnotin. rewrite Heq. now apply in_map.
  - exfalso. apply Hnotin. rewrite <- Heq. now apply in_map.
  - now apply IH.
Qed.

(** C9. [autologging_is_disabled(name)] is [True] when [name] was never
    registered, and when it is registered with a configuration that has no
    ["disable"] entry; otherwise it is the value stored under ["disable"]. *)
Theorem autologging_is_disabled_spec
    (integrations : gmap string (gmap string pyval)) (name : string) :
  (integrations !! name = None ->
   autologging_is_disabled integrations name = VBool true)
  /\ (forall config, integrations !! name = Some config -> config !! "disable" = None ->
      autologging_is_disabled integrations name = VBool true)
  /\ (forall config v, integrations !! name = Some config -> config !! "disable" = Some v ->
      autologging_is_disabled integrations name = v).
Proof.
  unfold autologging_is_disabled, get_autologging_config.
  repeat split.
  - intros ->. reflexivity.
  - intros config -> ->. reflexivity.
  - intros config v -> ->. reflexivity.
Qed.

Lemma autologging_is_disabled_witness :
  autologging_is_disabled Script.enabled "keras" = VBool true
  /\ autologging_is_disabled {[ "keras" := ∅ ]} "keras" = VBool true
  /\ autologging_is_disabled Script.enabled "sklearn" = VBool false.
Proof.
  split; [| split].
  - apply (proj1 (autologging_is_disabled_spec Script.enabled "keras")).
    reflexivity.
  - apply (proj1 (proj2 (autologging_is_disabled_spec {[ "keras" := ∅ ]} "keras")) ∅);
      reflexivity.
  - apply (proj2 (proj2 (autologging_is_disabled_spec Script.enabled "sklearn"))
             {[ "disable" := VBool false ]}); reflexivity.
Defined.

Section Decorator.

Context {E : Type} (env : surroundings E).

(** C10. The decoration raises when the decorated function does not declare a
    parameter [disable] whose default is exactly [False], and then leaves the
    registry as it was; when the function does, the decoration registers the
    integration with an empty configuration and yields [autolog] without
    having called the decorated function. *)
Theorem autologging_integration_spec (name : string) (param_spec : list parameter)
    (w : world E) :
  List.NoDup (map param_name param_spec) ->
  let r := run env (autologging_integration name param_spec) w in
  (~ declares_disable_False param_spec ->
   value r = inl (invalid_autolog name) /\ final r = w /\ events r = [])
  /\ (declares_disable_False param_spec ->
      value r = inr (autolog name param_spec)
      /\ AUTOLOGGING_INTEGRATIONS (final r) = <[name := ∅]> (AUTOLOGGING_INTEGRATIONS w)
      /\ environ (final r) = environ w /\ ext (final r) = ext w
      /\ events r = []).
Proof.
  intros Hnd r. subst r.
  unfold autologging_integration, validate_param_spec.
  destruct (param_lookup param_spec "disable") as [p |] eqn:Hfind.
  - apply param_lookup_Some in Hfind as Hp. destruct Hp as [Hin Hname].
    destruct (is_False (param_default p)) eqn:Hdef; cbn.
    + split.
      * intros Hno. exfalso. apply Hno. exists p. repeat split; try assumption.
        destruct (param_default p) as [| [|] | | | | | | | |]; try discriminate.
        reflexivity.
      * intros _. repeat split; reflexivity.
    + split.
      * intros _. repeat split; reflexivity.
      * intros (q & Hq & Hqname & Hqdef). exfalso.
        assert (p = q) as ->.
        { apply (param_lookup_unique param_spec); try assumption. congruence. }
        rewrite Hqdef in Hdef. discriminate.
  - cbn. split.
    + intros _. repeat split; reflexivity.
    + intros (q & Hq & Hqname & _). exfalso.
      exact (param_lookup_None _ _ _ Hfind Hq Hqname).
Qed.

End Decorator.

Lemma autologging_integration_witness :
  (let r := run Script.scripted (autologging_integration "keras" Script.old_autolog)
              (Script.bare_process Script.quiet) in
   value r = inl (invalid_autolog "keras")
   /\ final r = Script.bare_process Script.quiet /\ events r = [])
  /\ (let r := run Script.scripted (autologging_integration "keras" Script.keras_autolog)
                 (Script.bare_process Script.quiet) in
      value r = inr (autolog "keras" Script.keras_autolog)
      /\ AUTOLOGGING_INTEGRATIONS (final r) = <[ "keras" := ∅ ]> ∅
      /\ environ (final r) = ∅ /\ ext (final r) = Script.quiet
      /\ events r = []).
Proof.
  split.
  - apply (proj1 (autologging_integration_spec Script.scripted "keras" Script.old_autolog
                    (Script.bare_process Script.quiet)
                    ltac:(repeat constructor; cbn; intuition discriminate))).
    intros (p & [<- | []] & Hname & _). discriminate Hname.
  - apply (proj2 (autologging_integration_spec Script.scripted "keras" Script.keras_autolog
                    (Script.bare_process Script.quiet)
                    ltac:(repeat constructor; cbn; intuition discriminate))).
    exists (Param "disable" (VBool false)). cbn. auto.
Defined.

(** The default must be [False] itself: a missing default and [0] are
    rejected. *)
Example disable_default_must_be_False :
  value (run Script.scripted (autologging_integration "keras" Script.required_disable)
           (Script.bare_process Script.quiet)) = inl (invalid_autolog "keras")
  /\ value (run Script.scripted (autologging_integration "keras" Script.zero_disable)
              (Script.bare_process Script.quiet)) = inl (invalid_autolog "keras").
Proof. split; reflexivity. Qed.

(** After the decoration the integration counts as disabled; a call of
    [autolog] with its defaults enables it. *)
Example autolog_enables :
  let decorated := final (run Script.scripted
                            (autologging_integration "keras" Script.keras_autolog)
                            (Script.bare_process Script.quiet)) in
  let called := final (run Script.scripted
                         (autolog "keras" Script.keras_autolog (CallArgs [] []))
                         decorated) in
  autologging_is_disabled (AUTOLOGGING_INTEGRATIONS decorated) "keras" = VBool true
  /\ autologging_is_disabled (AUTOLOGGING_INTEGRATIONS called) "keras" = VBool false.
Proof. split; reflexivity. Qed.

End RegistryFacts.

(** ** Patches *)

Module PatchingFacts.
Import Patching PatchingSpec.

Section Facts.

Context {E : Type} (env : surroundings E).

Lemma original_calls_app (l1 l2 : list event) :
  original_calls (l1 ++ l2) = original_calls l1 ++ original_calls l2.
Proof. apply omap_app. Qed.

Lemma last_returned_app (l1 l2 : list (call_args * outcome)) :
  last_returned (l1 ++ l2) =
  match last_returned l2 with Some v => Some v | None => last_returned l1 end.
Proof.
  induction l1 as [| [a r] l1 IH]; cbn.
  - destruct (last_returned l2); reflexivity.
  - rewrite IH. destruct (last_returned l2); reflexivity.
Qed.

(** Only [Original] leaves a call of the original in the record. *)
Lemma step_no_original {X : Type} (o : op X) (w : world E) :
  is_Original o = false -> original_calls (events (step env o w)) = [].
Proof.
  destruct o; cbn; intros H; try discriminate; try reflexivity.
  - destruct (start_run_impl env (ext w)); reflexivity.
  - destruct (end_run_impl env status (ext w)); reflexivity.
  - destruct (log_batch_impl env run_id metrics (ext w)); reflexivity.
  - destruct (time_impl env (ext w)); reflexivity.
  - destruct (external_impl env what a (ext w)); reflexivity.
Qed.

Lemma run_call_original (args og_args : call_args) (t : tracker) (w : world E) :
  run env (call_original args og_args t) w =
  if testing w then
    match Validator._validate_args args og_args with
    | Validator.Fail err =>
        Result (inl (AssertionError err),
                Tracker (original_has_been_called t) (original_result t) true)
               w [EvMark (Validating args og_args)]
    | Validator.Pass =>
        let r := (original_impl env og_args (ext w)).1 in
        Result (r, after_call t r) (with_ext w (original_impl env og_args (ext w)).2)
               [EvMark (Validating args og_args); EvOriginal og_args r]
    end
  else
    let r := (original_impl env og_args (ext w)).1 in
    Result (r, after_call t r) (with_ext w (original_impl env og_args (ext w)).2)
           [EvOriginal og_args r].
Proof.
  unfold call_original. rewrite run_bind, run_is_testing.
  cbn [value final events]. destruct (testing w).
  - cbn. destruct (Validator._validate_args args og_args); [| reflexivity].
    cbn. destruct (original_impl env og_args (ext w)) as [[e | v] e']; reflexivity.
  - cbn. destruct (original_impl env og_args (ext w)) as [[e | v] e']; reflexivity.
Qed.

(** A program other than a call of the original runs under [with_original] as
    it does by itself. *)
Lemma run_with_original_other {A X : Type} (o : op X) (k : X -> prog A)
    (h : call_args -> tracker -> prog (outcome * tracker)) (t : tracker) (w : world E) :
  is_Original o = false ->
  run env (with_original h (Do o k) t) w =
  let s := step env o w in
  let r := run env (with_original h (k (value s)) t) (final s) in
  Result (value r) (final r) (events s ++ events r).
Proof. destruct o; cbn; intros H; try discriminate; reflexivity. Qed.

Lemma run_with_original_call {A : Type} (og_args : call_args) (k : outcome -> prog A)
    (h : call_args -> tracker -> prog (outcome * tracker)) (t : tracker) (w : world E) :
  run env (with_original h (Do (Original og_args) k) t) w =
  let c := run env (h og_args t) w in
  let r := run env (with_original h (k (value c).1) (value c).2) (final c) in
  Result (value r) (final r) (events c ++ events r).
Proof. cbn [with_original]. now rewrite run_bind. Qed.

Lemma tracks_refl (t : tracker) : tracks t t [].
Proof. repeat split. intros [H | H]; [assumption | discriminate]. Qed.

Lemma tracks_call (t t' : tracker) (og : call_args) (r : outcome)
    (calls : list (call_args * outcome)) :
  tracks (after_call t r) t' calls -> tracks t t' ((og, r) :: calls).
Proof.
  intros (Hc & Hr & Hf). repeat split.
  - rewrite Hc. destruct calls; destruct r; reflexivity.
  - rewrite Hr. cbn [last_returned].
    destruct (last_returned calls); [reflexivity |]. destruct r; reflexivity.
  - intros H. apply Hf. cbn [existsb] in H. unfold failed_call at 1 in H. cbn in H.
    destruct H as [H | H].
    + left. destruct r as [e | v]; cbn; [destruct (is_Exception e) |]; auto.
    + destruct r as [e | v]; cbn in *.
      * destruct (is_Exception e); cbn in *; auto.
      * auto.
Qed.

Lemma tracks_failed (t t' : tracker) (calls : list (call_args * outcome)) :
  tracks (Tracker (original_has_been_called t) (original_result t) true) t' calls ->
  tracks t t' calls.
Proof.
  intros (Hc & Hr & Hf). repeat split; try assumption.
  intros _. apply Hf. left. reflexivity.
Qed.

Lemma with_original_tracks {A : Type} (p : prog A) (args : call_args) (t : tracker)
    (w : world E) :
  let r := run env (with_original (call_original args) p t) w in
  tracks t (value r).2 (original_calls (events r)).
Proof.
  revert t w. induction p as [a | X o k IH]; intros t w.
  - cbn. apply tracks_refl.
  - destruct (is_Original o) eqn:Ho.
    + destruct o; try discriminate Ho.
      rewrite run_with_original_call, run_call_original.
      destruct (testing w).
      * destruct (Validator._validate_args args a) as [| err].
        -- cbn -[tracks]. apply tracks_call, IH.
        -- cbn -[tracks]. apply tracks_failed, IH.
      * cbn -[tracks]. apply tracks_call, IH.
    + rewrite run_with_original_other by assumption.
      cbn -[tracks step]. rewrite original_calls_app, step_no_original by assumption.
      apply IH.
Qed.

Lemma run_original (args : call_args) (w : world E) :
  run env (call (Original args)) w =
  let o := original_impl env args (ext w) in
  Result o.1 (with_ext w o.2) [EvOriginal args o.1].
Proof. cbn. destruct (original_impl env args (ext w)); reflexivity. Qed.

(** [safe_patch_function], step by step. *)
Lemma run_safe_patch_function (name : string) (patch : patch_function) (args : call_args)
    (w : world E) :
  run env (safe_patch_function name patch args) w =
  if truthy (Registry.autologging_is_disabled (AUTOLOGGING_INTEGRATIONS w) name)
  then run env (call (Original args)) w
  else
    let rp := run env (patch_run patch args) w in
    let t := (value rp).2 in
    match (value rp).1 with
    | inr _ => conclude env t args (final rp) (events rp)
    | inl e =>
        if is_Exception e && negb (failed_during_original t) && negb (testing w)
        then conclude env t args (final rp)
               (events rp ++ [EvWarn (UnexpectedErrorDuringAutologging name e)])
        else Result (inl e) (final rp) (events rp)
    end.
Proof.
  unfold safe_patch_function.
  rewrite run_bind.
  change (run env (call ReadIntegrations) w) with (Result (AUTOLOGGING_INTEGRATIONS w) w []).
  cbn [value final events app]. cbn zeta. rewrite result_eta.
  destruct (truthy (Registry.autologging_is_disabled (AUTOLOGGING_INTEGRATIONS w) name));
    [reflexivity |].
  rewrite run_bind. cbn zeta.
  pose proof (run_testing env (patch_run patch args) w) as Htest.
  destruct (run env (patch_run patch args) w) as [[r t] w1 evs].
  cbn [value final events fst snd] in *.
  rewrite run_bind.
  assert (Hconclude : forall evs',
    (let r' := run env (if original_has_been_called t
                        then Ret (inr (original_result t))
                        else call (Original args)) w1 in
     Result (value r') (final r') (evs' ++ events r')) = conclude env t args w1 evs').
  { intros evs'. unfold conclude. destruct (original_has_been_called t).
    - cbn. now rewrite app_nil_r.
    - rewrite run_original. reflexivity. }
  destruct r as [e | v].
  - destruct (is_Exception e); cbn [andb].
    + destruct (failed_during_original t); cbn [andb negb].
      * cbn. now rewrite !app_nil_r.
      * rewrite run_bind, run_is_testing. cbn [value final events].
        rewrite Htest. destruct (testing w); cbn [negb].
        -- cbn. now rewrite !app_nil_r.
        -- cbn [run step value final events ret app]. cbn zeta.
           rewrite <- (Hconclude (evs ++ [EvWarn (UnexpectedErrorDuringAutologging name e)])).
           cbn zeta. rewrite <- !app_assoc. reflexivity.
    + cbn. now rewrite !app_nil_r.
  - cbn [run ret value final events]. rewrite <- (Hconclude evs).
    reflexivity.
Qed.

(** A patch that never calls the original leaves no call in the record. *)
Lemma never_calls_original_run {A : Type} (p : prog A)
    (h : call_args -> tracker -> prog (outcome * tracker)) (t : tracker) (w : world E) :
  never_calls_original p ->
  original_calls (events (run env (with_original h p t) w)) = [].
Proof.
  intros Hp. revert t w. induction Hp as [a | X o k Ho _ IH]; intros t w.
  - reflexivity.
  - rewrite run_with_original_other by assumption.
    cbn -[step]. rewrite original_calls_app, step_no_original by assumption.
    apply IH.
Qed.

Lemma never_calls_original_patch_run (patch : patch_function) (args : call_args)
    (w : world E) :
  never_calls_original (invoke patch args) ->
  original_calls (events (run env (patch_run patch args) w)) = [].
Proof. apply never_calls_original_run. Qed.

(** C8. While the integration is disabled, a call of the patched function is
    a call of the original implementation with the caller's arguments and
    nothing else: its value and its effect on the surroundings are those of
    the original, and the only event is that one call; no validation, no
    warning, no call of the client, nothing of the patch. *)
Theorem disabled_integration_calls_original_only (name : string) (patch : patch_function)
    (manage_run : bool) (args : call_args) (w : world E) :
  truthy (Registry.autologging_is_disabled (AUTOLOGGING_INTEGRATIONS w) name) = true ->
  let r := run env (safe_patch name patch manage_run args) w in
  r = run env (call (Original args)) w
  /\ value r = (original_impl env args (ext w)).1
  /\ final r = with_ext w (original_impl env args (ext w)).2
  /\ events r = [EvOriginal args (value r)].
Proof.
  intros Hdis r. subst r. unfold safe_patch.
  rewrite run_safe_patch_function, Hdis, run_original.
  repeat split; reflexivity.
Qed.

(** What the patch asked of [call_original], and the calls of the original
    that came of it. *)
Lemma invocations_other {A X : Type} (o : op X) (k : X -> prog A)
    (h : call_args -> tracker -> prog (outcome * tracker)) (t : tracker) (w : world E) :
  is_Original o = false ->
  invocations env h (Do o k) t w
  = invocations env h (k (value (step env o w))) t (final (step env o w)).
Proof. destruct o; cbn; intros H; try discriminate; reflexivity. Qed.

Lemma step_keeps_testing {X : Type} (o : op X) (w : world E) :
  testing (final (step env o w)) = testing w.
Proof. unfold testing. now rewrite step_environ. Qed.

Lemma last_returned_raised (og : call_args) (e : pyexn) (calls : list (call_args * outcome)) :
  last_returned ((og, inl e) :: calls) = last_returned calls.
Proof. cbn. now destruct (last_returned calls). Qed.

Lemma original_calls_mark (m : mark) (evs : list event) :
  original_calls (EvMark m :: evs) = original_calls evs.
Proof. reflexivity. Qed.

Lemma original_calls_original (og : call_args) (r : outcome) (evs : list event) :
  original_calls (EvOriginal og r :: evs) = (og, r) :: original_calls evs.
Proof. reflexivity. Qed.

Lemma with_original_asked {A : Type} (p : prog A) (args : call_args) (t : tracker)
    (w : world E) :
  let r := run env (with_original (call_original args) p t) w in
  let asked := invocations env (call_original args) p t w in
  original_calls (events r) = List.filter (reaches_original (testing w) args) asked
  /\ last_returned asked = last_returned (original_calls (events r)).
Proof.
  revert t w. induction p as [a | X o k IH]; intros t w; cbn zeta.
  - split; reflexivity.
  - destruct (is_Original o) eqn:Ho.
    + destruct o; try discriminate Ho.
      rewrite run_with_original_call. cbn [invocations]. cbn zeta.
      rewrite run_call_original.
      assert (Hkeep : forall e', testing (with_ext w e') = testing w) by reflexivity.
      destruct (testing w) eqn:Htest.
      * destruct (Validator._validate_args args a) as [| err] eqn:Hval.
        -- cbn [value final events fst snd app].
           match goal with
           | |- context [with_original _ (k ?x) ?t' ] =>
               destruct (IH x t' (with_ext w (original_impl env a (ext w)).2)) as [IH1 IH2]
           end.
           cbn zeta in IH1, IH2. rewrite Hkeep in IH1.
           rewrite original_calls_mark, original_calls_original.
           cbn [List.filter]. unfold reaches_original at 1. cbn [fst]. rewrite Hval.
           rewrite IH1. split; [reflexivity |].
           cbn [last_returned]. now rewrite IH2, IH1.
        -- cbn [value final events fst snd app].
           match goal with
           | |- context [with_original _ (k ?x) ?t' ] =>
               destruct (IH x t' w) as [IH1 IH2]
           end.
           cbn zeta in IH1, IH2. rewrite Htest in IH1.
           rewrite original_calls_mark.
           cbn [List.filter]. unfold reaches_original at 1. cbn [fst]. rewrite Hval.
           rewrite IH1. split; [reflexivity |].
           now rewrite last_returned_raised, IH2, IH1.
      * cbn [value final events fst snd app].
        match goal with
        | |- context [with_original _ (k ?x) ?t' ] =>
            destruct (IH x t' (with_ext w (original_impl env a (ext w)).2)) as [IH1 IH2]
        end.
        cbn zeta in IH1, IH2. rewrite Hkeep in IH1.
        rewrite original_calls_original.
        cbn [List.filter]. unfold reaches_original at 1.
        rewrite IH1. split; [reflexivity |].
        cbn [last_returned]. now rewrite IH2, IH1.
    + rewrite run_with_original_other, invocations_other by assumption.
      cbn [value final events]. cbn zeta.
      rewrite original_calls_app, step_no_original by assumption.
      destruct (IH (value (step env o w)) t (final (step env o w))) as [IH1 IH2].
      cbn zeta in IH1, IH2. rewrite step_keeps_testing in IH1.
      split; assumption.
Qed.

(** C2, as far as the code goes.  For an enabled integration and a patch
    that returns or whose failure is swallowed: if the patch never invoked
    [call_original], the patched function calls the original exactly once,
    with the caller's arguments, and yields what it yields; and if
    [call_original] was invoked and returned, the patched function returns
    the value it returned last, and the original has been called for the
    invocations that went on to it and not once more. *)
Theorem patched_function_result (name : string) (patch : patch_function)
    (args : call_args) (w : world E) :
  truthy (Registry.autologging_is_disabled (AUTOLOGGING_INTEGRATIONS w) name) = false ->
  let rp := run env (patch_run patch args) w in
  let r := run env (safe_patch_function name patch args) w in
  let asked := invocations env (call_original args) (invoke patch args) fresh_tracker w in
  swallowed_or_none w (value rp) ->
  (asked = [] ->
   original_calls (events r) = [(args, value r)]
   /\ value r = (original_impl env args (ext (final rp))).1)
  /\ (forall v, last_returned asked = Some v ->
      value r = inr v
      /\ original_calls (events r)
         = List.filter (reaches_original (testing w) args) asked).
Proof.
  intros Hen rp r asked Hsw. subst r. rewrite run_safe_patch_function, Hen.
  fold rp. cbn zeta.
  pose proof (with_original_tracks (invoke patch args) args fresh_tracker w) as Htr.
  cbn zeta in Htr. fold (patch_run patch args) in Htr. fold rp in Htr.
  destruct Htr as (Hcalled & Hresult & _).
  pose proof (with_original_asked (invoke patch args) args fresh_tracker w) as Hasked.
  cbn zeta in Hasked. fold (patch_run patch args) in Hasked. fold rp in Hasked.
  fold asked in Hasked. destruct Hasked as [Hcalls Hlast].
  assert (Hfinish : forall evs', original_calls evs' = original_calls (events rp) ->
    let c := conclude env (value rp).2 args (final rp) evs' in
    (asked = [] ->
     original_calls (events c) = [(args, value c)]
     /\ value c = (original_impl env args (ext (final rp))).1)
    /\ (forall v, last_returned asked = Some v ->
        value c = inr v
        /\ original_calls (events c)
           = List.filter (reaches_original (testing w) args) asked)).
  { intros evs' Hevs c. subst c. unfold conclude. split.
    - intros Hnone. rewrite Hnone in Hcalls. cbn [List.filter] in Hcalls.
      rewrite Hcalled, Hcalls. cbn.
      rewrite original_calls_app, Hevs, Hcalls. split; reflexivity.
    - intros v Hv. rewrite Hlast in Hv. rewrite Hcalled, Hresult, Hv.
      destruct (original_calls (events rp)) eqn:Hrp; [discriminate Hv |].
      cbn [value events default from_option id]. split; [reflexivity |].
      rewrite Hevs. exact Hcalls. }
  unfold swallowed_or_none in Hsw.
  destruct (value rp).1 as [e | v0].
  - destruct Hsw as (-> & -> & Htest). rewrite Htest. cbn [andb negb].
    rewrite Htest in Hfinish.
    apply Hfinish. rewrite original_calls_app. cbn. apply app_nil_r.
  - apply Hfinish. reflexivity.
Qed.


End Facts.

(** *** Managed runs *)

Section ManagedRun.

Context {E : Type} (env : surroundings E).

Lemma run_start_managed_run (managed_run : option string) (w : world E) :
  run env (start_managed_run managed_run) w =
  match active_run_impl env (ext w) with
  | Some _ => Result (inr managed_run) w []
  | None =>
      let s := start_run_impl env (ext w) in
      match s.1 with
      | inr id => Result (inr (Some id)) (with_ext w s.2) [EvStartRun (inr id)]
      | inl e =>
          if is_Exception e && negb (testing w)
          then Result (inr None) (with_ext w s.2)
                 [EvStartRun (inl e); EvWarn (LoggingToMLflowFailed e)]
          else Result (inl e) (with_ext w s.2) [EvStartRun (inl e)]
      end
  end.
Proof.
  unfold start_managed_run. rewrite run_bind.
  change (run env (call ActiveRun) w) with (Result (active_run_impl env (ext w)) w []).
  cbn [value final events app]. cbn zeta. rewrite result_eta.
  destruct (active_run_impl env (ext w)) as [id |]; [reflexivity |].
  replace (negb (bool_decide (is_Some (@None string)))) with true by reflexivity.
  rewrite run_try_mlflow_log. cbn -[testing].
  destruct (start_run_impl env (ext w)) as [[e | id] e']; cbn -[testing]; reflexivity.
Qed.

Lemma run_end_managed_run (managed_run : option string) (status : RunStatus) (w : world E) :
  run env (end_managed_run managed_run status) w =
  match managed_run with
  | None => Result (inr tt) w []
  | Some _ =>
      let s := end_run_impl env status (ext w) in
      match s.1 with
      | inr _ => Result (inr tt) (with_ext w s.2) [EvEndRun status s.1]
      | inl e =>
          if is_Exception e && negb (testing w)
          then Result (inr tt) (with_ext w s.2)
                 [EvEndRun status s.1; EvWarn (LoggingToMLflowFailed e)]
          else Result (inl e) (with_ext w s.2) [EvEndRun status s.1]
      end
  end.
Proof.
  unfold end_managed_run. destruct managed_run as [id |]; [| reflexivity].
  replace (bool_decide (is_Some (Some id))) with true by reflexivity.
  rewrite run_bindx, run_try_mlflow_log. cbn -[testing].
  destruct (end_run_impl env status (ext w)) as [[e | []] e']; cbn -[testing];
    [| reflexivity].
  destruct (is_Exception e && negb (testing _)); reflexivity.
Qed.

(** [patch_with_managed_run], step by step. *)
Lemma run_patch_with_managed_run (f : call_args -> prog outcome) (args : call_args)
    (w : world E) :
  run env (patch_with_managed_run f args) w =
  let sm := run env (start_managed_run None) w in
  match value sm with
  | inl e => Result (inl e) (final sm) (events sm)
  | inr managed_run =>
      let ri := run env (f args) (final sm) in
      let fin := run env (end_managed_run managed_run (status_after (value ri))) (final ri) in
      Result (match value fin with inl e' => inl e' | inr _ => value ri end)
             (final fin) (events sm ++ events ri ++ events fin)
  end.
Proof.
  unfold patch_with_managed_run. rewrite run_bindx. cbn zeta.
  destruct (value (run env (start_managed_run None) w)) as [e | managed_run];
    [reflexivity |].
  unfold try_except_else. rewrite run_bind. cbn zeta.
  destruct (value (run env (f args) _)) as [e | v]; cbn [anything status_after].
  - rewrite run_bindx. cbn zeta.
    destruct (value (run env (end_managed_run managed_run FAILED) _)); cbn;
      rewrite ?app_nil_r; reflexivity.
  - rewrite run_bindx. cbn zeta.
    destruct (value (run env (end_managed_run managed_run FINISHED) _)); cbn;
      rewrite ?app_nil_r; reflexivity.
Qed.

(** [PatchFunction.__call__], step by step. *)
Lemma run___call__ (cls : PatchFunction) (self : instance cls) (args : call_args)
    (w : world E) :
  run env (__call__ cls self args) w =
  let ri := run env (_patch_implementation cls self args) w in
  match (value ri).1 with
  | inr v => Result (inr v) (final ri) (events ri)
  | inl e =>
      if is_Exception e
      then
        let oe := run env (_on_exception cls (value ri).2 e) (final ri) in
        Result (inl e) (final oe) (events ri ++ events oe)
      else Result (inl e) (final ri) (events ri)
  end.
Proof.
  unfold __call__. rewrite run_bind. cbn zeta.
  destruct (run env (_patch_implementation cls self args) w) as [[[e | v] self'] w' evs].
  - cbn [value final events fst snd]. destruct (is_Exception e).
    + rewrite run_bind. cbn. now rewrite app_nil_r.
    + cbn. now rewrite app_nil_r.
  - cbn. now rewrite app_nil_r.
Qed.

(** The two methods of [PatchWithManagedRun], step by step. *)
Lemma run_managed_implementation (cls : PatchFunction) (inst : instance cls)
    (managed_run : option string) (args : call_args) (w : world E) :
  run env (_patch_implementation (PatchWithManagedRun cls) (inst, managed_run) args) w =
  let sm := run env (start_managed_run managed_run) w in
  match value sm with
  | inl e => Result (inl e, (inst, managed_run)) (final sm) (events sm)
  | inr managed_run' =>
      let ri := run env (_patch_implementation cls inst args) (final sm) in
      match (value ri).1 with
      | inl e => Result (inl e, ((value ri).2, managed_run')) (final ri) (events sm ++ events ri)
      | inr v =>
          let fin := run env (end_managed_run managed_run' FINISHED) (final ri) in
          Result (match value fin with inl e => inl e | inr _ => inr v end,
                  ((value ri).2, managed_run'))
                 (final fin) (events sm ++ events ri ++ events fin)
      end
  end.
Proof.
  cbn [PatchWithManagedRun _patch_implementation]. rewrite run_bind. cbn zeta.
  destruct (run env (start_managed_run managed_run) w) as [[e | mr] w1 evs1];
    cbn [value final events].
  - cbn. now rewrite app_nil_r.
  - rewrite run_bind. cbn zeta.
    destruct (run env (_patch_implementation cls inst args) w1) as [[[e | v] inst'] w2 evs2];
      cbn [value final events fst snd].
    + cbn. now rewrite app_nil_r.
    + rewrite run_bind. cbn zeta.
      destruct (run env (end_managed_run mr FINISHED) w2) as [[e | []] w3 evs3];
        cbn; now rewrite app_nil_r.
Qed.

Lemma run_managed_on_exception (cls : PatchFunction) (inst : instance cls)
    (managed_run : option string) (e : pyexn) (w : world E) :
  run env (_on_exception (PatchWithManagedRun cls) (inst, managed_run) e) w =
  let fin := run env (end_managed_run managed_run FAILED) w in
  match value fin with
  | inl e' => Result (inl e') (final fin) (events fin)
  | inr _ =>
      let oe := run env (_on_exception cls inst e) (final fin) in
      Result (value oe) (final oe) (events fin ++ events oe)
  end.
Proof. cbn [PatchWithManagedRun _on_exception]. now rewrite run_bindx. Qed.

(** The end of a managed run: first the call of [mlflow.end_run] with the
    status. *)
Lemma end_managed_run_events (id : string) (status : RunStatus) (w : world E) :
  let fin := run env (end_managed_run (Some id) status) w in
  exists r_end tail,
    events fin = EvEndRun status r_end :: tail
    /\ (value fin = inr tt \/ exists e', r_end = inl e' /\ value fin = inl e').
Proof.
  rewrite run_end_managed_run. cbn zeta.
  destruct (end_run_impl env status (ext w)) as [[e | []] e'] eqn:Hend; cbn [fst snd].
  - destruct (is_Exception e && negb (testing w)); eexists _, _; cbn;
      (split; [reflexivity |]); [left | right; exists e]; auto.
  - eexists _, _. cbn. split; [reflexivity | left; reflexivity].
Qed.

(** C7, as far as the code goes.  With a run active at entry, the wrapped
    patch runs exactly as the patch does: no run is started, none is ended.
    With no run active, [mlflow.start_run] is called first.  If it yields a
    run, the inner code follows and then [mlflow.end_run]: with [FINISHED]
    when the inner code returned, with [FAILED] when it raised, and the
    wrapped patch ends as the inner code did unless ending the run raises
    itself.  If the start fails and the failure is swallowed, the patch runs
    as it does by itself and no run is ended; if the failure is not
    swallowed, it is raised. *)
Theorem managed_run_bracket (patch : patch_function) (args : call_args) (w : world E) :
  let r := run env (invoke (with_managed_run patch) args) w in
  let s := start_run_impl env (ext w) in
  let w1 := with_ext w s.2 in
  (is_Some (active_run_impl env (ext w)) -> r = run env (invoke patch args) w)
  /\ (active_run_impl env (ext w) = None ->
      (forall id, s.1 = inr id ->
         let ri := run env (inner_code patch args) w1 in
         handled_by patch (value ri) ->
         exists r_end tail,
           events r =
             EvStartRun (inr id) :: events ri ++ EvEndRun (status_after (value ri)) r_end :: tail
           /\ (value r = value ri \/ exists e', r_end = inl e' /\ value r = inl e'))
      /\ (forall e0, s.1 = inl e0 ->
           if is_Exception e0 && negb (testing w)
           then
             let rp := run env (invoke patch args) w1 in
             r = Result (value rp) (final rp)
                   (EvStartRun (inl e0) :: EvWarn (LoggingToMLflowFailed e0) :: events rp)
           else value r = inl e0 /\ hd_error (events r) = Some (EvStartRun (inl e0)))).
Proof.
  destruct patch as [f | cls]; cbn [with_managed_run invoke inner_code handled_by].
  - (* the function *)
    rewrite run_patch_with_managed_run, run_start_managed_run. cbn zeta.
    split.
    + intros [id Hid]. rewrite Hid. cbn.
      now rewrite app_nil_r, result_eta.
    + intros Hnone. rewrite Hnone. split.
      * intros id Hs Hhandled. rewrite Hs. cbn [value final events].
        destruct (end_managed_run_events id
                    (status_after (value (run env (f args) (with_ext w (start_run_impl env (ext w)).2))))
                    (final (run env (f args) (with_ext w (start_run_impl env (ext w)).2))))
          as (r_end & tail & Hev & Hval).
        exists r_end, tail. rewrite Hev. split; [reflexivity |].
        destruct Hval as [-> | (e' & -> & ->)]; [left | right; exists e']; auto.
      * intros e0 Hs. rewrite Hs.
        destruct (is_Exception e0 && negb (testing w)); cbn [value final events].
        -- rewrite run_end_managed_run. cbn. rewrite app_nil_r. reflexivity.
        -- split; reflexivity.
  - (* the class *)
    unfold PatchFunction_call.
    change (init (PatchWithManagedRun cls)) with (init cls, @None string).
    rewrite run___call__, run_managed_implementation, run_start_managed_run. cbn zeta.
    split.
    + intros [id Hid]. rewrite Hid. cbn [value final events app].
      rewrite run___call__. cbn zeta.
      destruct (run env (_patch_implementation cls (init cls) args) w)
        as [[[e | v] inst] w2 evs2]; cbn [value final events fst snd].
      * destruct (is_Exception e); [| reflexivity].
        rewrite run_managed_on_exception, run_end_managed_run. reflexivity.
      * rewrite run_end_managed_run. cbn. now rewrite app_nil_r.
    + intros Hnone. rewrite Hnone. split.
      * intros id Hs. rewrite Hs. cbn [value final events].
        rewrite run_bind. cbn zeta.
        destruct (run env (_patch_implementation cls (init cls) args)
                    (with_ext w (start_run_impl env (ext w)).2))
          as [[[e | v] inst] w2 evs2]; cbn [value final events fst snd run status_after];
          rewrite app_nil_r.
        -- intros Hexc. rewrite Hexc, run_managed_on_exception.
           destruct (end_managed_run_events id FAILED w2) as (r_end & tail & Hev & _).
           cbn zeta in Hev. cbn zeta.
           destruct (run env (end_managed_run (Some id) FAILED) w2) as [vf wf evf].
           cbn [value final events] in *. subst evf.
           destruct vf; cbn [value final events];
             eexists _, _; (split; [cbn; rewrite <- ?app_assoc; reflexivity | left; reflexivity]).
        -- intros _.
           destruct (end_managed_run_events id FINISHED w2) as (r_end & tail & Hev & Hval).
           cbn zeta in Hev, Hval. cbn zeta.
           destruct (run env (end_managed_run (Some id) FINISHED) w2) as [vf wf evf].
           cbn [value final events] in *. subst evf.
           destruct Hval as [-> | (e' & -> & ->)]; cbn [value final events fst snd].
           ++ eexists _, _. split; [cbn; reflexivity | left; reflexivity].
           ++ destruct (is_Exception e'); cbn [value final events];
                eexists _, _; (split; [cbn; rewrite <- ?app_assoc; reflexivity |
                                       right; exists e'; split; reflexivity]).
      * intros e0 Hs. rewrite Hs.
        destruct (is_Exception e0 && negb (testing w)) eqn:Hsw; cbn [value final events].
        -- rewrite run___call__. cbn zeta.
           destruct (run env (_patch_implementation cls (init cls) args)
                       (with_ext w (start_run_impl env (ext w)).2))
             as [[[e | v] inst] w2 evs2]; cbn [value final events fst snd].
           ++ destruct (is_Exception e); [| reflexivity].
              rewrite run_managed_on_exception, run_end_managed_run. reflexivity.
           ++ rewrite run_end_managed_run. cbn. now rewrite app_nil_r.
        -- cbn [fst snd]. destruct (is_Exception e0); split; reflexivity.
Qed.

End ManagedRun.

(** C7, counterexample: no run is active, [mlflow.start_run] raises, the
    failure is swallowed; the inner code returns and no run is ended. *)
Lemma failed_start_is_not_finalized :
  let r := run Script.scripted
             (invoke (with_managed_run Script.transparent_patch) Script.one_two)
             (Script.process false Script.failing_start) in
  active_run_impl Script.scripted (ext (Script.process false Script.failing_start)) = None
  /\ value r = inr (VInt 1)
  /\ events r = [EvStartRun (inl Script.boom);
                 EvWarn (LoggingToMLflowFailed Script.boom);
                 EvOriginal Script.one_two (inr (VInt 1))]
  /\ ~ (exists status r_end, In (EvEndRun status r_end) (events r)).
Proof.
  repeat split. intros (status & r_end & Hin). cbn in Hin.
  destruct Hin as [H | [H | [H | []]]]; discriminate H.
Qed.

(** C7 on the scripted surroundings: a run is active; no run is active and
    the start succeeds, for the function and for the class. *)
Lemma managed_run_bracket_witness :
  (run Script.scripted (invoke (with_managed_run Script.transparent_patch) Script.one_two)
     (Script.process false Script.busy)
   = run Script.scripted (invoke Script.transparent_patch Script.one_two)
       (Script.process false Script.busy))
  /\ (let r := run Script.scripted
                 (invoke (with_managed_run Script.transparent_patch) Script.one_two)
                 (Script.process false Script.quiet) in
      exists r_end tail,
        events r = EvStartRun (inr "run-1")
                   :: [EvOriginal Script.one_two (inr (VInt 1))]
                   ++ EvEndRun FINISHED r_end :: tail
        /\ (value r = inr (VInt 1) \/ exists e', r_end = inl e' /\ value r = inl e'))
  /\ (let r := run Script.scripted
                 (invoke (with_managed_run (ClassPatch Script.transparent_class)) Script.one_two)
                 (Script.process false Script.failing_original) in
      exists r_end tail,
        events r = EvStartRun (inr "run-1")
                   :: [EvOriginal Script.one_two (inl Script.boom)]
                   ++ EvEndRun FAILED r_end :: tail
        /\ (value r = inl Script.boom \/ exists e', r_end = inl e' /\ value r = inl e')).
Proof.
  split; [| split].
  - apply (proj1 (managed_run_bracket Script.scripted Script.transparent_patch Script.one_two
                    (Script.process false Script.busy))).
    exists "run-0". reflexivity.
  - apply (proj1 (proj2 (managed_run_bracket Script.scripted Script.transparent_patch
                           Script.one_two (Script.process false Script.quiet)) eq_refl)
             "run-1" eq_refl I).
  - apply (proj1 (proj2 (managed_run_bracket Script.scripted
                           (ClassPatch Script.transparent_class)
                           Script.one_two (Script.process false Script.failing_original))
                    eq_refl)
             "run-1" eq_refl eq_refl).
Defined.

(** The class form does not end the run it started when the inner code is
    interrupted from the keyboard; the function form does. *)
Example interrupted_class_not_finalized :
  events (run Script.scripted
            (invoke (with_managed_run (ClassPatch Script.interrupted_class)) Script.one_two)
            (Script.process false Script.quiet))
  = [EvStartRun (inr "run-1")].
Proof. reflexivity. Qed.

Example interrupted_function_finalized :
  events (run Script.scripted
            (invoke (with_managed_run Script.interrupted_patch) Script.one_two)
            (Script.process false Script.quiet))
  = [EvStartRun (inr "run-1"); EvEndRun FAILED (inr tt)].
Proof. reflexivity. Qed.

(** C8 on the scripted surroundings: the registry is empty, so the
    integration counts as disabled. *)
Lemma disabled_integration_witness :
  let r := run Script.scripted
             (safe_patch "sklearn" Script.broken_patch true Script.one_two)
             (Script.bare_process Script.quiet) in
  r = run Script.scripted (call (Original Script.one_two)) (Script.bare_process Script.quiet)
  /\ value r = inr (VInt 1)
  /\ final r = Script.bare_process Script.quiet
  /\ events r = [EvOriginal Script.one_two (value r)].
Proof.
  apply (disabled_integration_calls_original_only Script.scripted "sklearn"
           Script.broken_patch true Script.one_two (Script.bare_process Script.quiet)).
  reflexivity.
Defined.

Example idle_patch_never_calls :
  never_calls_original (invoke Script.idle_patch Script.one_two).
Proof. constructor. Qed.

(** C2 on the scripted surroundings: a patch that fails before it calls the
    original, and a patch that calls it. *)
Lemma patched_function_result_witness :
  (let r := run Script.scripted
              (safe_patch_function "sklearn" Script.broken_patch Script.one_two)
              (Script.process false Script.quiet) in
   original_calls (events r) = [(Script.one_two, value r)]
   /\ value r = inr (VInt 1))
  /\ (let r := run Script.scripted
                 (safe_patch_function "sklearn" Script.transparent_patch Script.one_two)
                 (Script.process false Script.quiet) in
      value r = inr (VInt 1)
      /\ original_calls (events r) = [(Script.one_two, inr (VInt 1))]).
Proof.
  split.
  - apply (proj1 (patched_function_result Script.scripted "sklearn" Script.broken_patch
                    Script.one_two (Script.process false Script.quiet)
                    eq_refl (conj eq_refl (conj eq_refl eq_refl)))).
    reflexivity.
  - apply (proj2 (patched_function_result Script.scripted "sklearn" Script.transparent_patch
                    Script.one_two (Script.process false Script.quiet) eq_refl I)
             (VInt 1)).
    reflexivity.
Defined.

(** C2, counterexample: [call_original] was invoked and returned [1], and
    yet the patched function raises instead of returning [1]: in test mode,
    when the patch raises after the call; and outside test mode, when a
    second call of the original fails and its exception leaves the patch. *)
Lemma returned_call_then_failure :
  truthy (Registry.autologging_is_disabled Script.enabled "sklearn") = false
  /\ (let w := Script.process true Script.quiet in
      last_returned (invocations Script.scripted (call_original Script.one_two)
                       (invoke Cases.late_failure Script.one_two) fresh_tracker w)
      = Some (VInt 1)
      /\ value (run Script.scripted
                  (safe_patch_function "sklearn" Cases.late_failure Script.one_two) w)
         = inl Script.boom)
  /\ (let w := Script.process false Cases.needs_argument in
      last_returned (invocations Script.scripted (call_original Script.one_two)
                       (invoke Cases.two_calls Script.one_two) fresh_tracker w)
      = Some (VInt 1)
      /\ value (run Script.scripted
                  (safe_patch_function "sklearn" Cases.two_calls Script.one_two) w)
         = inl Script.boom).
Proof. repeat split. Qed.



End PatchingFacts.

(** ** The batch metrics logger *)

Module MetricsFacts.
Import Metrics.

(** *** Slices *)

Lemma range_from_bound (fuel start stop step i : nat) :
  In i (range_from fuel start stop step) -> (i < stop)%nat.
Proof.
  revert start. induction fuel as [| fuel IH]; intros start; cbn [range_from]; [intros [] |].
  destruct (Nat.ltb_spec start stop) as [Hlt | Hge]; [| intros []].
  cbn [In]. intros [<- | Hin]; [assumption | eauto].
Qed.

Lemma range_from_slices (M fuel start : nat) (data : list Metric) :
  (0 < M)%nat -> (length data - start <= fuel)%nat ->
  concat (map (fun i => firstn M (skipn i data)) (range_from fuel start (length data) M))
  = skipn start data.
Proof.
  intros HM. revert start.
  induction fuel as [| fuel IH]; intros start Hfuel; cbn [range_from].
  - symmetry. apply skipn_all2. lia.
  - destruct (Nat.ltb_spec start (length data)) as [Hlt | Hge]; cbn [map concat].
    + rewrite IH by lia.
      transitivity (firstn M (skipn start data) ++ skipn M (skipn start data));
        [| apply firstn_skipn].
      rewrite skipn_skipn. f_equal. f_equal. lia.
    + symmetry. apply skipn_all2. lia.
Qed.

(** The slices of a flush put together are the buffer, and each is a batch
    the client accepts. *)
Lemma metrics_slices_partition (M : nat) (data : list Metric) :
  (0 < M)%nat ->
  concat (metrics_slices M data) = data
  /\ Forall (batch_ok M) (metrics_slices M data).
Proof.
  intros HM. unfold metrics_slices, range. split.
  - rewrite range_from_slices by lia. reflexivity.
  - apply List.Forall_forall. intros b Hb. apply in_map_iff in Hb as (i & <- & Hi).
    apply range_from_bound in Hi. unfold batch_ok.
    rewrite length_firstn, length_skipn. lia.
Qed.

Section Facts.

Context {E : Type} (env : surroundings E).
Variable MAX_METRICS_PER_BATCH : nat.

Lemma submitted_app (l1 l2 : list event) :
  submitted (l1 ++ l2) = submitted l1 ++ submitted l2.
Proof. apply omap_app. Qed.

Lemma flushes_app (l1 l2 : list event) :
  flushes (l1 ++ l2) = (flushes l1 + flushes l2)%nat.
Proof. unfold flushes. now rewrite List.filter_app, List.length_app. Qed.

Lemma run_client (w : world E) :
  run env (call (External "MlflowClient" (CallArgs [] []))) w =
  let o := external_impl env "MlflowClient" (CallArgs [] []) (ext w) in
  Result o.1 (with_ext w o.2) [EvExternal "MlflowClient" (CallArgs [] []) o.1].
Proof.
  cbn. destruct (external_impl env "MlflowClient" (CallArgs [] []) (ext w)); reflexivity.
Qed.

(** One batch handed to the client through [try_mlflow_log], once the client
    is constructed. *)
Lemma run_log_batch (id : string) (metrics_slice : list Metric) (w : world E) :
  let r := run env (call (External "MlflowClient" (CallArgs [] [])) ;;!
                    try_mlflow_log (call (LogBatch id metrics_slice)) ;;! ret tt) w in
  (value r = inr tt -> submitted (events r) = [metrics_slice])
  /\ flushes (events r) = 0%nat.
Proof.
  rewrite run_bindx, run_client. cbn [value final events]. cbn zeta.
  destruct (external_impl env "MlflowClient" (CallArgs [] []) (ext w)).1 as [e0 | client];
    cbn [value final events]; [split; [discriminate | reflexivity] |].
  rewrite run_bindx, run_try_mlflow_log. cbn -[testing].
  destruct (log_batch_impl env id metrics_slice _) as [[e | []] e'];
    cbn -[testing]; [| split; reflexivity].
  destruct (is_Exception e && negb (testing _)); split; first [reflexivity | discriminate].
Qed.

(** The loop of [_timed_log_batch]: it hands over the slices in order, all of
    them when it completes. *)
Lemma run_log_batches (id : string) (slices : list (list Metric)) (w : world E) :
  let r := run env (for_each slices
                      (fun metrics_slice =>
                         call (External "MlflowClient" (CallArgs [] [])) ;;!
                         try_mlflow_log (call (LogBatch id metrics_slice)) ;;! ret tt)) w in
  flushes (events r) = 0%nat
  /\ (value r = inr tt -> submitted (events r) = slices).
Proof.
  revert w. induction slices as [| sl slices IH]; intros w.
  - split; reflexivity.
  - cbn [for_each]. rewrite run_bindx. cbn zeta.
    destruct (run_log_batch id sl w) as [Hsub Hfl]. cbn zeta in Hsub, Hfl.
    destruct (run env (call (External "MlflowClient" (CallArgs [] [])) ;;!
                       try_mlflow_log (call (LogBatch id sl)) ;;! ret tt) w)
      as [[e | []] w1 evs1]; cbn [value final events] in *.
    + split; [assumption | discriminate].
    + destruct (IH w1) as [IHfl IHsub]. cbn zeta in IHfl, IHsub.
      rewrite flushes_app, submitted_app, (Hsub eq_refl), Hfl, IHfl. split; [reflexivity |].
      intros Hok. rewrite (IHsub Hok). reflexivity.
Qed.

Lemma run_current_run_id (self : BatchMetricsLogger) (w : world E) :
  run env (current_run_id self) w =
  Result
    match run_id self with
    | Some id => inr id
    | None =>
        match active_run_impl env (ext w) with
        | Some id => inr id
        | None => inl (AttributeError "'NoneType' object has no attribute 'info'")
        end
    end w [].
Proof.
  unfold current_run_id. destruct (run_id self); [reflexivity |].
  cbn. destruct (active_run_impl env (ext w)); reflexivity.
Qed.

Lemma run_time (w : world E) :
  run env (call Clock) w =
  Result (time_impl env (ext w)).1 (with_ext w (time_impl env (ext w)).2) [].
Proof. cbn. destruct (time_impl env (ext w)); reflexivity. Qed.

(** [_timed_log_batch] leaves no mark and keeps the buffer; when it returns it
    has handed over the slices of the buffer. *)
Lemma timed_log_batch_facts (self : BatchMetricsLogger) (w : world E) :
  let r := run env (_timed_log_batch MAX_METRICS_PER_BATCH self) w in
  flushes (events r) = 0%nat
  /\ data (value r).2 = data self
  /\ ((value r).1 = inr tt ->
      submitted (events r) = metrics_slices MAX_METRICS_PER_BATCH (data self)).
Proof.
  unfold _timed_log_batch. rewrite run_bind, run_current_run_id.
  cbn [value final events app]. cbn zeta.
  destruct (match run_id self with
            | Some id => inr id
            | None => _
            end) as [e | id].
  - cbn. repeat split. discriminate.
  - rewrite run_bind, run_time. cbn [value final events app]. cbn zeta.
    rewrite run_bind. cbn zeta.
    destruct (run_log_batches id (metrics_slices MAX_METRICS_PER_BATCH (data self))
                (with_ext w (time_impl env (ext w)).2)) as [Hfl Hsub].
    cbn zeta in Hfl, Hsub.
    destruct (run env (for_each _ _) _) as [[e | []] w1 evs1]; cbn [value final events] in *.
    + cbn. rewrite app_nil_r. repeat split; [assumption | discriminate].
    + rewrite run_bind, run_time. cbn. rewrite !app_nil_r. repeat split; auto.
Qed.

(** [flush] leaves one mark; when it returns it has handed over the slices of
    the buffer and the buffer is empty. *)
Lemma flush_facts (self : BatchMetricsLogger) (w : world E) :
  let r := run env (flush MAX_METRICS_PER_BATCH self) w in
  flushes (events r) = 1%nat
  /\ ((value r).1 = inr tt ->
      submitted (events r) = metrics_slices MAX_METRICS_PER_BATCH (data self)
      /\ data (value r).2 = []).
Proof.
  unfold flush. rewrite run_bind.
  change (run env (call (Leave Flushing)) w) with (Result tt w [EvMark Flushing]).
  cbn [value final events]. cbn zeta. rewrite run_bind. cbn zeta.
  destruct (timed_log_batch_facts self w) as (Hfl & _ & Hsub). cbn zeta in Hfl, Hsub.
  destruct (run env (_timed_log_batch MAX_METRICS_PER_BATCH self) w)
    as [[[e | []] self'] w1 evs1]; cbn [value final events fst snd] in *.
  - cbn [run value final events]. rewrite app_nil_r, (flushes_app [_]), Hfl.
    split; [reflexivity | discriminate].
  - cbn [run value final events fst snd data]. rewrite app_nil_r, (flushes_app [_]), Hfl.
    split; [reflexivity |]. intros _. rewrite (submitted_app [_]). cbn [submitted omap].
    split; [apply Hsub |]; reflexivity.
Qed.

(** [record_metrics] flushes exactly when [_should_flush] holds of the logger
    with the new points and the elapsed time added; when it returns, what it
    handed over followed by what it left in the buffer is the old buffer
    followed by the new points. *)
Lemma record_metrics_facts (self : BatchMetricsLogger) (metrics : list (string * pyval))
    (step : option Z) (w : world E) :
  let now := (time_impl env (ext w)).1 in
  let r := run env (record_metrics MAX_METRICS_PER_BATCH self metrics step) w in
  flushes (events r) = (if _should_flush (recorded self metrics step now) then 1 else 0)%nat
  /\ ((0 < MAX_METRICS_PER_BATCH)%nat -> (value r).1 = inr tt ->
      concat (submitted (events r)) ++ data (value r).2
        = data self ++ new_points metrics step now
      /\ Forall (batch_ok MAX_METRICS_PER_BATCH) (submitted (events r))).
Proof.
  unfold record_metrics. rewrite run_bind, run_time.
  cbn [value final events app]. cbn zeta. rewrite run_bind. cbn zeta.
  set (self1 := recorded self metrics step (time_impl env (ext w)).1).
  set (w1 := with_ext w (time_impl env (ext w)).2).
  destruct (_should_flush self1).
  - destruct (flush_facts self1 w1) as (Hfl & Hsub). cbn zeta in Hfl, Hsub.
    destruct (run env (flush MAX_METRICS_PER_BATCH self1) w1)
      as [[[e | []] self2] w2 evs2]; cbn [value final events fst snd] in *.
    + cbn [run value final events]. rewrite app_nil_r.
      split; [assumption |]. intros _ H; discriminate H.
    + cbn [run value final events fst snd data]. rewrite app_nil_r.
      split; [assumption |]. intros HM _.
      destruct (Hsub eq_refl) as [-> ->].
      destruct (metrics_slices_partition MAX_METRICS_PER_BATCH (data self1) HM) as [-> Hok].
      rewrite app_nil_r. split; [reflexivity | assumption].
  - cbn. split; [reflexivity |]. intros _ _. split; [reflexivity | constructor].
Qed.


(** On a normal exit of the [with] block the logger is flushed once more. *)
Lemma normal_exit_flushes {A : Type} (id : option string)
    (body : BatchMetricsLogger -> prog ((pyexn + A) * BatchMetricsLogger)) (w : world E)
    (a : A) :
  let rb := run env (body (new id)) w in
  (value rb).1 = inr a ->
  let rf := run env (flush MAX_METRICS_PER_BATCH (value rb).2) (final rb) in
  let r := run env (with_batch_metrics_logger MAX_METRICS_PER_BATCH id body) w in
  events r = events rb ++ events rf
  /\ flushes (events r) = S (flushes (events rb)).
Proof.
  intros rb Hret rf r. subst r rf. unfold with_batch_metrics_logger.
  rewrite run_bind. cbn zeta. fold rb.
  destruct (flush_facts (value rb).2 (final rb)) as [Hfl _]. cbn zeta in Hfl.
  destruct (value rb) as [[e | a'] self']; cbn [fst snd] in *; [discriminate |].
  rewrite run_bind. cbn zeta.
  destruct (value (run env (flush MAX_METRICS_PER_BATCH self') (final rb))).1;
    cbn [run value final events]; rewrite app_nil_r, flushes_app, Hfl;
    (split; [reflexivity | lia]).
Qed.

(** An exception of the body skips the flush. *)
Lemma exceptional_exit_skips_flush {A : Type} (id : option string)
    (body : BatchMetricsLogger -> prog ((pyexn + A) * BatchMetricsLogger)) (w : world E)
    (e : pyexn) :
  let rb := run env (body (new id)) w in
  (value rb).1 = inl e ->
  run env (with_batch_metrics_logger MAX_METRICS_PER_BATCH id body) w
  = Result (inl e) (final rb) (events rb).
Proof.
  intros rb Hraise. unfold with_batch_metrics_logger. rewrite run_bind. cbn zeta. fold rb.
  destruct (value rb) as [[e' | a] self']; cbn [fst snd] in *; [| discriminate].
  injection Hraise as ->. cbn. now rewrite app_nil_r.
Qed.

(** One call: what it handed over followed by what it left in the buffer is
    the old buffer followed by what it appended. *)
Lemma perform_facts (c : logger_call) (self : BatchMetricsLogger) (w : world E) :
  (0 < MAX_METRICS_PER_BATCH)%nat ->
  let r := run env (perform MAX_METRICS_PER_BATCH c self) w in
  (value r).1 = inr tt ->
  concat (submitted (events r)) ++ data (value r).2
    = data self ++ appended env MAX_METRICS_PER_BATCH [c] self w
  /\ Forall (batch_ok MAX_METRICS_PER_BATCH) (submitted (events r))
  /\ (c = Flush -> data (value r).2 = []).
Proof.
  intros HM r Hok. subst r. destruct c as [metrics step |]; cbn [perform appended] in *.
  - destruct (proj2 (record_metrics_facts self metrics step w) HM Hok) as [Heq Hall].
    rewrite Heq, Hok, !app_nil_r. repeat split; auto. intros H; discriminate H.
  - destruct (proj2 (flush_facts self w) Hok) as [Hsub Hdata].
    rewrite Hsub, Hdata, Hok.
    destruct (metrics_slices_partition MAX_METRICS_PER_BATCH (data self) HM) as [-> Hall].
    rewrite !app_nil_r. repeat split; auto.
Qed.

Lemma run_perform_all_cons (c : logger_call) (calls : list logger_call)
    (self : BatchMetricsLogger) (w : world E) :
  run env (perform_all MAX_METRICS_PER_BATCH (c :: calls) self) w =
  let r := run env (perform MAX_METRICS_PER_BATCH c self) w in
  match (value r).1 with
  | inl e => Result (inl e, (value r).2) (final r) (events r)
  | inr _ =>
      let r' := run env (perform_all MAX_METRICS_PER_BATCH calls (value r).2) (final r) in
      Result (value r') (final r') (events r ++ events r')
  end.
Proof.
  cbn [perform_all]. rewrite run_bind. cbn zeta.
  destruct (run env (perform MAX_METRICS_PER_BATCH c self) w) as [[[e | []] self'] w' evs];
    cbn [value final events fst snd]; [| reflexivity].
  cbn. now rewrite app_nil_r.
Qed.

(** A sequence of calls that all return. *)
Lemma perform_all_facts (calls : list logger_call) (self : BatchMetricsLogger) (w : world E) :
  (0 < MAX_METRICS_PER_BATCH)%nat ->
  let r := run env (perform_all MAX_METRICS_PER_BATCH calls self) w in
  (value r).1 = inr tt ->
  concat (submitted (events r)) ++ data (value r).2
    = data self ++ appended env MAX_METRICS_PER_BATCH calls self w
  /\ Forall (batch_ok MAX_METRICS_PER_BATCH) (submitted (events r))
  /\ (last calls = Some Flush -> data (value r).2 = []).
Proof.
  intros HM. revert self w. induction calls as [| c calls IH]; intros self w r Hok; subst r.
  - cbn. rewrite app_nil_r. repeat split; [constructor | discriminate].
  - rewrite run_perform_all_cons in Hok |- *. cbn zeta in Hok |- *.
    pose proof (perform_facts c self w HM) as Hc. cbn zeta in Hc.
    cbn [appended] in Hc |- *.
    destruct (value (run env (perform MAX_METRICS_PER_BATCH c self) w)).1 as [e | []] eqn:Hv;
      [discriminate Hok |].
    destruct (Hc eq_refl) as (Heq & Hall & Hflush).
    destruct (IH _ _ Hok) as (IHeq & IHall & IHflush).
    cbn [value final events] in *.
    rewrite submitted_app, concat_app, <- app_assoc, IHeq, app_assoc, Heq.
    rewrite app_nil_r, <- app_assoc. split; [| split].
    + destruct c; reflexivity.
    + apply Forall_app. split; assumption.
    + destruct calls as [| c' calls'].
      * cbn. intros Hlast. injection Hlast as ->. now apply Hflush.
      * intros Hlast. apply IHflush. exact Hlast.
Qed.

(** *** Outside test mode the calls return

    With a run id bound at creation, a constructor of the client that
    returns and a client that fails with [Exception]s only, no call of the
    logger raises outside test mode. *)

Lemma log_batch_returns (id : string) (metrics_slice : list Metric) (w : world E) :
  client_constructor_returns env ->
  client_raises_exceptions_only env -> testing w = false ->
  value (run env (call (External "MlflowClient" (CallArgs [] [])) ;;!
                  try_mlflow_log (call (LogBatch id metrics_slice)) ;;! ret tt) w) = inr tt.
Proof.
  intros Hnew Hclient Htest. rewrite run_bindx, run_client. cbn [value final events].
  cbn zeta. destruct (Hnew (ext w)) as [client ->]. cbn [value final events].
  rewrite run_bindx, run_try_mlflow_log. cbn -[testing].
  match goal with
  | |- context [log_batch_impl env id metrics_slice ?e0] =>
      specialize (Hclient id metrics_slice e0);
      destruct (log_batch_impl env id metrics_slice e0) as [[x | []] e']
  end; cbn -[testing] in *; [| reflexivity].
  rewrite (Hclient x eq_refl).
  change (testing (with_ext _ e')) with (testing w). rewrite Htest. reflexivity.
Qed.

Lemma log_batches_return (id : string) (slices : list (list Metric)) (w : world E) :
  client_constructor_returns env ->
  client_raises_exceptions_only env -> testing w = false ->
  value (run env (for_each slices
                    (fun metrics_slice =>
                       call (External "MlflowClient" (CallArgs [] [])) ;;!
                       try_mlflow_log (call (LogBatch id metrics_slice)) ;;! ret tt)) w)
  = inr tt.
Proof.
  intros Hnew Hclient. revert w. induction slices as [| sl slices IH]; intros w Htest.
  - reflexivity.
  - cbn [for_each]. rewrite run_bindx. cbn zeta.
    rewrite (log_batch_returns id sl w Hnew Hclient Htest). cbn [value].
    apply IH. now rewrite run_testing.
Qed.

Lemma timed_log_batch_returns (self : BatchMetricsLogger) (w : world E) :
  client_constructor_returns env ->
  client_raises_exceptions_only env -> testing w = false -> is_Some (run_id self) ->
  let r := run env (_timed_log_batch MAX_METRICS_PER_BATCH self) w in
  (value r).1 = inr tt /\ run_id (value r).2 = run_id self.
Proof.
  intros Hnew Hclient Htest [id Hid]. unfold _timed_log_batch.
  rewrite run_bind, run_current_run_id, Hid.
  cbn [value final events app]. cbn zeta.
  rewrite run_bind, run_time. cbn [value final events app]. cbn zeta.
  rewrite run_bind. cbn zeta.
  pose proof (log_batches_return id (metrics_slices MAX_METRICS_PER_BATCH (data self))
                (with_ext w (time_impl env (ext w)).2) Hnew Hclient Htest) as Hv.
  destruct (run env (for_each _ _) _) as [[e | []] w1 evs1];
    cbn [value final events] in *; [discriminate Hv |].
  rewrite run_bind, run_time. cbn. split; reflexivity.
Qed.

Lemma flush_returns (self : BatchMetricsLogger) (w : world E) :
  client_constructor_returns env ->
  client_raises_exceptions_only env -> testing w = false -> is_Some (run_id self) ->
  let r := run env (flush MAX_METRICS_PER_BATCH self) w in
  (value r).1 = inr tt /\ run_id (value r).2 = run_id self.
Proof.
  intros Hnew Hclient Htest Hid. unfold flush. rewrite run_bind.
  change (run env (call (Leave Flushing)) w) with (Result tt w [EvMark Flushing]).
  cbn [value final events]. cbn zeta. rewrite run_bind. cbn zeta.
  destruct (timed_log_batch_returns self w Hnew Hclient Htest Hid) as [Hv Hr].
  cbn zeta in Hv, Hr.
  destruct (run env (_timed_log_batch MAX_METRICS_PER_BATCH self) w)
    as [[[e | []] self'] w1 evs1]; cbn [value final events fst snd] in *;
    [discriminate Hv |].
  cbn. split; [reflexivity | assumption].
Qed.

Lemma record_metrics_returns (self : BatchMetricsLogger) (metrics : list (string * pyval))
    (step : option Z) (w : world E) :
  client_constructor_returns env ->
  client_raises_exceptions_only env -> testing w = false -> is_Some (run_id self) ->
  let r := run env (record_metrics MAX_METRICS_PER_BATCH self metrics step) w in
  (value r).1 = inr tt /\ run_id (value r).2 = run_id self.
Proof.
  intros Hnew Hclient Htest Hid. unfold record_metrics.
  rewrite run_bind, run_time. cbn [value final events app]. cbn zeta.
  rewrite run_bind. cbn zeta.
  set (self1 := recorded self metrics step (time_impl env (ext w)).1).
  set (w1 := with_ext w (time_impl env (ext w)).2).
  destruct (_should_flush self1).
  - destruct (flush_returns self1 w1 Hnew Hclient Htest Hid) as [Hv Hr]. cbn zeta in Hv, Hr.
    destruct (run env (flush MAX_METRICS_PER_BATCH self1) w1) as [[[e | []] self2] w2 evs2];
      cbn [value final events fst snd] in *; [discriminate Hv |].
    cbn. split; [reflexivity | assumption].
  - cbn. split; reflexivity.
Qed.

Lemma perform_all_returns (calls : list logger_call) (self : BatchMetricsLogger)
    (w : world E) :
  client_constructor_returns env ->
  client_raises_exceptions_only env -> testing w = false -> is_Some (run_id self) ->
  (value (run env (perform_all MAX_METRICS_PER_BATCH calls self) w)).1 = inr tt.
Proof.
  intros Hnew Hclient. revert self w. induction calls as [| c calls IH]; intros self w Htest Hid.
  - reflexivity.
  - rewrite run_perform_all_cons. cbn zeta.
    assert (Hc : (value (run env (perform MAX_METRICS_PER_BATCH c self) w)).1 = inr tt
                 /\ run_id (value (run env (perform MAX_METRICS_PER_BATCH c self) w)).2
                    = run_id self).
    { destruct c; [apply record_metrics_returns | apply flush_returns]; assumption. }
    destruct Hc as [Hv Hr]. rewrite Hv. cbn [value].
    apply IH; [now rewrite run_testing | now rewrite Hr].
Qed.

(** C5.  For any sequence of calls of [record_metrics] and [flush] on a new
    logger that ends with a [flush], all of which return: the batches handed
    to the client, put together in the order of their submission, are the
    points appended, in the order of their recording, each once; every batch
    holds at least one point and at most [MAX_METRICS_PER_BATCH]; and the
    buffer is empty at the end. *)
Theorem flushed_batches_partition (calls : list logger_call) (id : option string)
    (w : world E) :
  (0 < MAX_METRICS_PER_BATCH)%nat ->
  let r := run env (perform_all MAX_METRICS_PER_BATCH (calls ++ [Flush]) (new id)) w in
  (value r).1 = inr tt ->
  concat (submitted (events r))
    = appended env MAX_METRICS_PER_BATCH (calls ++ [Flush]) (new id) w
  /\ Forall (batch_ok MAX_METRICS_PER_BATCH) (submitted (events r))
  /\ data (value r).2 = [].
Proof.
  intros HM r Hok.
  destruct (perform_all_facts (calls ++ [Flush]) (new id) w HM Hok) as (Heq & Hall & Hflush).
  fold r in Heq, Hall, Hflush.
  specialize (Hflush (last_snoc _ _)).
  rewrite Hflush, app_nil_r in Heq. cbn [new data app] in Heq.
  repeat split; assumption.
Qed.

End Facts.


(** C4, the exit by an exception: the body records two points, the second
    stays in the buffer, and the body raises; the block ends without a flush
    and the second point never reaches the client. *)
Theorem exception_exit_loses_points :
  let r := run Script.scripted
             (with_batch_metrics_logger 1000 (Some "run-1") Script.two_records_then_raise)
             (Script.bare_process Script.slow_client) in
  value r = inl Script.boom
  /\ flushes (events r) = 1%nat
  /\ submitted (events r) = [[MkMetric "loss" (VInt 1) 0 0]]
  /\ ~ In (MkMetric "loss" (VInt 2) 6000 1) (concat (submitted (events r))).
Proof.
  repeat split. cbn. intros [H | []]. discriminate H.
Qed.

(** The same body without the exception: the exit flushes the second point. *)
Example normal_exit_keeps_points :
  let r := run Script.scripted
             (with_batch_metrics_logger 1000 (Some "run-1") Script.two_records)
             (Script.bare_process Script.slow_client) in
  value r = inr tt
  /\ submitted (events r)
     = [[MkMetric "loss" (VInt 1) 0 0]; [MkMetric "loss" (VInt 2) 6000 1]].
Proof. split; reflexivity. Qed.

(** C5 on the scripted surroundings, with batches of at most two points:
    three points recorded in one call, then two in another, then a flush. *)
Lemma flushed_batches_partition_witness :
  let calls := [RecordMetrics [("a", VInt 1); ("b", VInt 2); ("c", VInt 3)] None;
                RecordMetrics [("d", VInt 4); ("e", VInt 5)] (Some 7%Z)] in
  let r := run Script.scripted (perform_all 2 (calls ++ [Flush]) (new (Some "run-1")))
             (Script.bare_process Script.slow_client) in
  concat (submitted (events r))
    = appended Script.scripted 2 (calls ++ [Flush]) (new (Some "run-1"))
        (Script.bare_process Script.slow_client)
  /\ Forall (batch_ok 2) (submitted (events r))
  /\ data (value r).2 = [].
Proof.
  apply (flushed_batches_partition Script.scripted 2
           [RecordMetrics [("a", VInt 1); ("b", VInt 2); ("c", VInt 3)] None;
            RecordMetrics [("d", VInt 4); ("e", VInt 5)] (Some 7%Z)]
           (Some "run-1") (Script.bare_process Script.slow_client)).
  - lia.
  - reflexivity.
Defined.

Example flushed_batches_example :
  submitted (events (run Script.scripted
    (perform_all 2
       [RecordMetrics [("a", VInt 1); ("b", VInt 2); ("c", VInt 3)] None;
        RecordMetrics [("d", VInt 4); ("e", VInt 5)] (Some 7%Z); Flush]
       (new (Some "run-1")))
    (Script.bare_process Script.slow_client)))
  = [[MkMetric "a" (VInt 1) 0 0; MkMetric "b" (VInt 2) 0 0];
     [MkMetric "c" (VInt 3) 0 0];
     [MkMetric "d" (VInt 4) 6000 7; MkMetric "e" (VInt 5) 6000 7]].
Proof. reflexivity. Qed.

End MetricsFacts.

(** ** More on the argument validator *)

Module ValidatorMore.
Import Validator ValidatorSpec.

(** [_validate], one step. *)
Lemma validate_unfold (a u : pyval) :
  _validate a u =
  if is_None u && negb (is_None a) then _validate_new_input a
  else if negb (bool_decide (type_of a = type_of u))
  then Fail (TypeMismatch (type_of a) (type_of u))
  else
    match a with
    | VTuple items | VList items =>
        let length_difference :=
          (Z.of_nat (length items) - Z.of_nat (length (seq_items u)))%Z in
        if (length_difference <? 0)%Z
        then Fail (ExpectedInputsMissing length_difference)
        else validate_seq items (seq_items u)
    | VDict entries =>
        match omitted_keys (dict_items u) entries with
        | (_ :: _) as missing => Fail (ExpectedKeysOmitted missing)
        | [] => validate_entries (dict_items u) entries
        end
    | _ =>
        if same_or_equal a u then Pass else Fail (InputMismatch a u)
    end.
Proof. destruct a; reflexivity. Qed.

Lemma validate_new_input_list (items : list pyval) :
  _validate_new_input (VList items) = validate_new_inputs items.
Proof. reflexivity. Qed.

(** Induction on values, through the sequences and dictionaries in them. *)
Lemma pyval_nested_ind (P : pyval -> Prop) :
  P VNone -> (forall b, P (VBool b)) -> (forall n, P (VInt n)) -> (forall s, P (VStr s)) ->
  (forall id safe, P (VFunc id safe)) -> (forall c, P (VClass c)) ->
  (forall c id, P (VObj c id)) ->
  (forall l, Forall P l -> P (VTuple l)) ->
  (forall l, Forall P l -> P (VList l)) ->
  (forall d, Forall (fun kv => P kv.2) d -> P (VDict d)) ->
  forall v, P v.
Proof.
  intros HN HB HI HS HF HC HO HT HL HD.
  fix IH 1. intros [| b | n | s | id safe | c | c id | l | l | d].
  - exact HN.
  - apply HB.
  - apply HI.
  - apply HS.
  - apply HF.
  - apply HC.
  - apply HO.
  - apply HT. induction l as [| x l IHl]; constructor; [apply IH | exact IHl].
  - apply HL. induction l as [| x l IHl]; constructor; [apply IH | exact IHl].
  - apply HD. induction d as [| [k x] d IHd]; constructor; [apply IH | exact IHd].
Qed.

Lemma unique_keys_seq (l : list pyval) :
  unique_keys (VTuple l) <-> Forall unique_keys l.
Proof.
  induction l as [| x l IH]; cbn.
  - split; constructor.
  - split.
    + intros [Hx Hl]. constructor; [assumption | now apply IH].
    + intros H. inversion H; subst. split; [assumption | now apply IH].
Qed.

Lemma unique_keys_list (l : list pyval) :
  unique_keys (VList l) <-> Forall unique_keys l.
Proof. apply unique_keys_seq. Qed.

Lemma unique_keys_dict (d : list (string * pyval)) :
  unique_keys (VDict d) <->
  List.NoDup (dict_keys d) /\ Forall (fun kv => unique_keys kv.2) d.
Proof.
  cbn. apply and_iff_compat_l.
  induction d as [| [k x] d IH]; cbn.
  - split; constructor.
  - split.
    + intros [Hx Hd]. constructor; [assumption | now apply IH].
    + intros H. inversion H; subst. split; [assumption | now apply IH].
Qed.

Lemma same_or_equal_refl (v : pyval) : is_atom v = true \/ v = VNone -> same_or_equal v v = true.
Proof.
  intros [H | ->]; [| reflexivity].
  destruct v; try discriminate H; cbn.
  - now destruct b.
  - apply Z.eqb_refl.
  - apply String.eqb_refl.
  - apply Nat.eqb_refl.
  - now apply bool_decide_eq_true.
  - rewrite Nat.eqb_refl, andb_true_r. now apply bool_decide_eq_true.
Qed.

Lemma has_key_In (d : list (string * pyval)) (k : string) :
  has_key d k = true <-> In k (dict_keys d).
Proof.
  unfold has_key. rewrite existsb_exists. split.
  - intros (x & Hin & Heq). apply String.eqb_eq in Heq. now subst.
  - intros Hin. exists k. split; [assumption | apply String.eqb_refl].
Qed.

(** No key is omitted by a dictionary that holds them all. *)
Lemma omitted_keys_nil (user actual : list (string * pyval)) :
  omitted_keys user actual = [] <-> (forall k, In k (dict_keys user) -> has_key actual k = true).
Proof.
  unfold omitted_keys. split.
  - intros Hnil k Hin. destruct (has_key actual k) eqn:Hk; [reflexivity |].
    assert (Hf : In k (List.filter (fun k => negb (has_key actual k)) (dict_keys user))).
    { apply filter_In. split; [assumption | now rewrite Hk]. }
    rewrite Hnil in Hf. destruct Hf.
  - intros Hall. induction (dict_keys user) as [| k l IH]; [reflexivity |]. cbn.
    rewrite (Hall k) by (left; reflexivity). cbn. apply IH.
    intros k' Hin. apply Hall. now right.
Qed.

(** The first entry under a key is the only one when no key occurs twice. *)
Lemma dict_get_In (d : list (string * pyval)) (k : string) (v default : pyval) :
  List.NoDup (dict_keys d) -> In (k, v) d -> dict_get d k default = v.
Proof.
  induction d as [| [k' v'] d IH]; intros Hnd Hin; [destruct Hin |].
  cbn in Hnd. inversion Hnd as [| ? ? Hnotin Hnd']; subst. cbn.
  destruct Hin as [Heq | Hin].
  - injection Heq as -> ->. now rewrite String.eqb_refl.
  - destruct (String.eqb_spec k' k) as [-> | Hne].
    + exfalso. apply Hnotin. change k with (fst (k, v)). now apply in_map.
    + now apply IH.
Qed.

Lemma dict_get_absent (d : list (string * pyval)) (k : string) (default : pyval) :
  has_key d k = false -> dict_get d k default = default.
Proof.
  induction d as [| [k' v'] d IH]; [reflexivity |]. unfold has_key. cbn.
  rewrite String.eqb_sym. destruct (String.eqb k' k); cbn; [discriminate |]. apply IH.
Qed.

Lemma validate_seq_self (l : list pyval) :
  Forall (fun x => _validate x x = Pass) l -> validate_seq l l = Pass.
Proof. induction 1 as [| x l Hx _ IH]; cbn; [reflexivity |]. now rewrite Hx. Qed.

Lemma validate_entries_app (u d1 d2 : list (string * pyval)) :
  validate_entries u (d1 ++ d2) = and_then (validate_entries u d1) (validate_entries u d2).
Proof.
  induction d1 as [| [k a] d1 IH]; [reflexivity |]. cbn.
  destruct (_validate a (dict_get u k VNone)); [apply IH | reflexivity].
Qed.

Lemma validate_entries_self (u d : list (string * pyval)) :
  (forall k a, In (k, a) d -> dict_get u k VNone = a /\ _validate a a = Pass) ->
  validate_entries u d = Pass.
Proof.
  induction d as [| [k a] d IH]; intros H; [reflexivity |]. cbn.
  destruct (H k a (or_introl eq_refl)) as [-> ->]. cbn.
  apply IH. intros k' a' Hin. apply H. now right.
Qed.

(** A value validates against itself. *)
Lemma validate_self (v : pyval) : unique_keys v -> _validate v v = Pass.
Proof.
  induction v as [| b | n | s | id safe | c | c id | l IH | l IH | d IH]
    using pyval_nested_ind; intros Hwf; rewrite validate_unfold;
    try (cbn [is_None negb andb]; rewrite bool_decide_eq_true_2 by reflexivity;
         cbn [negb]; rewrite same_or_equal_refl by (cbn; auto); reflexivity).
  - cbn [is_None negb andb]. rewrite bool_decide_eq_true_2 by reflexivity. cbn [negb seq_items].
    rewrite Z.sub_diag. cbn. apply validate_seq_self.
    apply unique_keys_seq in Hwf. rewrite List.Forall_forall in *. auto.
  - cbn [is_None negb andb]. rewrite bool_decide_eq_true_2 by reflexivity. cbn [negb seq_items].
    rewrite Z.sub_diag. cbn. apply validate_seq_self.
    apply unique_keys_list in Hwf. rewrite List.Forall_forall in *. auto.
  - cbn [is_None negb andb]. rewrite bool_decide_eq_true_2 by reflexivity. cbn [negb dict_items].
    apply unique_keys_dict in Hwf as [Hnd Hall].
    rewrite (proj2 (omitted_keys_nil d d)) by (intros k; apply has_key_In).
    apply validate_entries_self. intros k a Hin. split.
    + now apply dict_get_In.
    + rewrite List.Forall_forall in *. apply (IH (k, a) Hin), (Hall (k, a) Hin).
Qed.

Lemma validate_new_inputs_pass (items : list pyval) :
  validate_new_inputs items = Pass <-> Forall (fun x => _validate_new_input x = Pass) items.
Proof.
  induction items as [| x l IH]; cbn.
  - split; constructor.
  - split.
    + intros H. destruct (_validate_new_input x) eqn:Hx; [| discriminate H].
      constructor; [exact Hx | now apply IH].
    + intros H. inversion H as [| ? ? Hx Hl]; subst. rewrite Hx. now apply IH.
Qed.

Lemma validate_new_input_spec (v : pyval) :
  _validate_new_input v = Pass <-> exception_safe_input v.
Proof.
  induction v as [| b | n | s | id safe | c | c id | l IH | l IH | d IH]
    using pyval_nested_ind;
    try (split; [intros H; discriminate H | intros H; inversion H]).
  - cbn. split.
    + destruct safe; [constructor | discriminate].
    + intros H. inversion H. reflexivity.
  - cbn. split.
    + destruct (class_exception_safe c) eqn:Hc; [now constructor | discriminate].
    + intros H. inversion H as [| ? ? Hc |]; subst. now rewrite Hc.
  - rewrite validate_new_input_list, validate_new_inputs_pass. split.
    + intros H. constructor. rewrite List.Forall_forall in *.
      intros x Hx. apply (IH x Hx), (H x Hx).
    + intros H. inversion H as [| | ? Hall]; subst. rewrite List.Forall_forall in *.
      intros x Hx. apply (IH x Hx), (Hall x Hx).
Qed.

(** X4. A new input is accepted exactly when it is a function that carries
    the marker, an instance of a class whose metaclass is
    [ExceptionSafeClass], or a list of accepted inputs; so [None], numbers,
    strings, classes, tuples and dictionaries are all rejected. *)
Theorem new_input_accepted_iff (v : pyval) :
  _validate_new_input v = Pass <-> exception_safe_input v.
Proof. apply validate_new_input_spec. Qed.

Lemma validate_args_self (args : call_args) :
  unique_keys_args args -> _validate_args args args = Pass.
Proof.
  intros [Hpos Hkw]. unfold _validate_args.
  now rewrite (validate_self _ Hpos), (validate_self _ Hkw).
Qed.

(** X1. Arguments forwarded unchanged always pass: a call validates against
    itself, whatever it holds. *)
Theorem unchanged_arguments_validate (args : call_args) :
  unique_keys_args args -> _validate_args args args = Pass.
Proof. apply validate_args_self. Qed.

Lemma unchanged_arguments_validate_witness :
  _validate_args
    (CallArgs [VInt 1; VTuple [VStr "x"; VNone]; VList []]
              [("epochs", VInt 3); ("callbacks", VList [VFunc 4 false])])
    (CallArgs [VInt 1; VTuple [VStr "x"; VNone]; VList []]
              [("epochs", VInt 3); ("callbacks", VList [VFunc 4 false])])
  = Pass.
Proof.
  apply unchanged_arguments_validate. split; cbn.
  - tauto.
  - split; [| tauto]. repeat constructor; cbn; intuition discriminate.
Defined.

(** An expected value other than [None] admits only a value of its type, and
    only an equal one when it is neither a sequence nor a dictionary. *)
Lemma validate_pass_inv (a u : pyval) :
  _validate a u = Pass -> u <> VNone ->
  type_of a = type_of u /\ (is_atom u = true -> same_or_equal a u = true).
Proof.
  intros Hpass Hu. rewrite validate_unfold in Hpass.
  replace (is_None u) with false in Hpass by (destruct u; try reflexivity; contradiction).
  cbn [andb] in Hpass.
  destruct (bool_decide (type_of a = type_of u)) eqn:Hty; [| discriminate Hpass].
  apply bool_decide_eq_true in Hty. split; [assumption |].
  intros Hatom. cbn [negb] in Hpass.
  destruct a; destruct u; try discriminate Hatom; try discriminate Hty;
    try (destruct (same_or_equal _ _); [reflexivity | discriminate Hpass]);
    cbn in Hty; repeat match type of Hty with
                       | context [if ?b then _ else _] => destruct b
                       end; discriminate Hty.
Qed.

Lemma validate_seq_lookup (items us : list pyval) (i : nat) (a : pyval) :
  validate_seq items us = Pass -> items !! i = Some a ->
  _validate a (default VNone (us !! i)) = Pass.
Proof.
  revert us i. induction items as [| x l IH]; intros us i Hpass Hi; [discriminate Hi |].
  cbn in Hpass. destruct (_validate x (hd VNone us)) eqn:Hx; [| discriminate Hpass].
  destruct i as [| i]; cbn in Hi.
  - injection Hi as <-. destruct us; exact Hx.
  - destruct us as [| u us]; cbn.
    + apply (IH [] i Hpass) in Hi. now destruct i.
    + apply (IH us i Hpass Hi).
Qed.

Lemma validate_entries_In (u d : list (string * pyval)) (k : string) (a : pyval) :
  validate_entries u d = Pass -> In (k, a) d -> _validate a (dict_get u k VNone) = Pass.
Proof.
  induction d as [| [k' a'] d IH]; intros Hpass Hin; [destruct Hin |].
  cbn in Hpass. destruct (_validate a' (dict_get u k' VNone)) eqn:Hx; [| discriminate Hpass].
  destruct Hin as [Heq | Hin]; [injection Heq as -> ->; exact Hx | now apply IH].
Qed.

(** X2. When the validation passes, every argument of the caller has been
    forwarded: no position is missing, no keyword is missing, and where the
    caller passed a value other than [None] the original receives a value of
    the same type, which is the same or an equal value when it is neither a
    sequence nor a dictionary. *)
Theorem validated_arguments_are_forwarded (user actual : call_args) :
  _validate_args user actual = Pass ->
  (length (positional user) <= length (positional actual))%nat
  /\ (forall i u, positional user !! i = Some u -> u <> VNone ->
      exists a, positional actual !! i = Some a
                /\ type_of a = type_of u
                /\ (is_atom u = true -> same_or_equal a u = true))
  /\ (forall k, In k (dict_keys (keywords user)) -> has_key (keywords actual) k = true)
  /\ (forall k a, In (k, a) (keywords actual) ->
      dict_get (keywords user) k VNone <> VNone ->
      type_of a = type_of (dict_get (keywords user) k VNone)
      /\ (is_atom (dict_get (keywords user) k VNone) = true ->
          same_or_equal a (dict_get (keywords user) k VNone) = true)).
Proof.
  unfold _validate_args. intros Hpass.
  destruct (_validate (VTuple (positional actual)) (VTuple (positional user))) eqn:Hpos;
    [| discriminate Hpass].
  cbn [and_then] in Hpass. rename Hpass into Hkw.
  rewrite validate_unfold in Hpos, Hkw.
  cbn [is_None andb negb type_of seq_items dict_items] in Hpos, Hkw.
  rewrite bool_decide_eq_true_2 in Hpos, Hkw by reflexivity.
  cbn [negb] in Hpos, Hkw. cbn zeta in Hpos.
  destruct (Z.ltb_spec (Z.of_nat (length (positional actual))
                        - Z.of_nat (length (positional user))) 0) as [| Hlen];
    [discriminate Hpos |].
  destruct (omitted_keys (keywords user) (keywords actual)) eqn:Hom; [| discriminate Hkw].
  split; [lia |]. split; [| split].
  - intros i u Hi Hu.
    assert (Hlt : (i < length (positional actual))%nat).
    { apply lookup_lt_Some in Hi. lia. }
    destruct (lookup_lt_is_Some_2 _ _ Hlt) as [a Ha]. exists a. split; [assumption |].
    pose proof (validate_seq_lookup _ _ i a Hpos Ha) as Hv. rewrite Hi in Hv. cbn in Hv.
    now apply validate_pass_inv.
  - now apply omitted_keys_nil.
  - intros k a Hin Hu. apply validate_pass_inv; [| assumption].
    now apply (validate_entries_In _ _ k a Hkw).
Qed.

Lemma validated_arguments_are_forwarded_witness :
  (length [VInt 1; VInt 2] <= length [VInt 1; VInt 2; VFunc 7 true])%nat
  /\ (forall i u, [VInt 1; VInt 2] !! i = Some u -> u <> VNone ->
      exists a, [VInt 1; VInt 2; VFunc 7 true] !! i = Some a
                /\ type_of a = type_of u
                /\ (is_atom u = true -> same_or_equal a u = true))
  /\ (forall k, In k (dict_keys [("a", VInt 1)]) -> has_key [("a", VInt 1)] k = true)
  /\ (forall k a, In (k, a) [("a", VInt 1)] ->
      dict_get [("a", VInt 1)] k VNone <> VNone ->
      type_of a = type_of (dict_get [("a", VInt 1)] k VNone)
      /\ (is_atom (dict_get [("a", VInt 1)] k VNone) = true ->
          same_or_equal a (dict_get [("a", VInt 1)] k VNone) = true)).
Proof.
  apply (validated_arguments_are_forwarded
           (CallArgs [VInt 1; VInt 2] [("a", VInt 1)])
           (CallArgs [VInt 1; VInt 2; VFunc 7 true] [("a", VInt 1)])).
  reflexivity.
Defined.

Lemma validate_against_None (a : pyval) :
  a <> VNone -> _validate a VNone = _validate_new_input a.
Proof.
  intros Ha. rewrite validate_unfold.
  replace (is_None a) with false by (destruct a; try reflexivity; contradiction).
  reflexivity.
Qed.

Lemma validate_seq_new (extras : list pyval) :
  Forall (fun x => x <> VNone) extras -> validate_seq extras [] = validate_new_inputs extras.
Proof.
  induction 1 as [| x l Hx _ IH]; cbn; [reflexivity |].
  now rewrite (validate_against_None x Hx), IH.
Qed.

Lemma validate_seq_extras (us extras : list pyval) :
  Forall (fun x => _validate x x = Pass) us -> Forall (fun x => x <> VNone) extras ->
  validate_seq (us ++ extras) us = validate_new_inputs extras.
Proof.
  intros Hus Hex. induction Hus as [| u us Hu _ IH]; cbn.
  - now apply validate_seq_new.
  - now rewrite Hu.
Qed.

Lemma validate_entries_new (user extra_kw : list (string * pyval)) :
  Forall (fun kv => kv.2 <> VNone /\ has_key user kv.1 = false) extra_kw ->
  validate_entries user extra_kw = validate_new_inputs (map snd extra_kw).
Proof.
  induction 1 as [| [k x] l [Hx Hk] _ IH]; cbn in *; [reflexivity |].
  now rewrite (dict_get_absent _ _ _ Hk), (validate_against_None x Hx), IH.
Qed.

(** X3. Beside the caller's own arguments, forwarded unchanged, the patch may
    pass more positional arguments and more keywords, none of them [None]:
    the call is accepted exactly when every added value is an exception-safe
    input. *)
Theorem added_arguments_accepted_iff (user : call_args) (extras : list pyval)
    (extra_kw : list (string * pyval)) :
  unique_keys_args user ->
  Forall (fun x => x <> VNone) extras ->
  Forall (fun kv => kv.2 <> VNone /\ has_key (keywords user) kv.1 = false) extra_kw ->
  _validate_args user (CallArgs (positional user ++ extras) (keywords user ++ extra_kw)) = Pass
  <-> Forall exception_safe_input (extras ++ map snd extra_kw).
Proof.
  intros [Hpos Hkw] Hex Hexkw.
  assert (Hseq : _validate (VTuple (positional user ++ extras)) (VTuple (positional user))
                 = validate_new_inputs extras).
  { rewrite validate_unfold. cbn [is_None andb negb type_of seq_items].
    rewrite bool_decide_eq_true_2 by reflexivity. cbn [negb]. cbn zeta.
    destruct (Z.ltb_spec (Z.of_nat (length (positional user ++ extras))
                          - Z.of_nat (length (positional user))) 0) as [Hlt | _].
    - rewrite List.length_app in Hlt. lia.
    - apply validate_seq_extras; [| assumption].
      apply unique_keys_seq in Hpos. rewrite List.Forall_forall in *.
      intros x Hx. apply validate_self, Hpos, Hx. }
  assert (Hdict : _validate (VDict (keywords user ++ extra_kw)) (VDict (keywords user))
                  = validate_new_inputs (map snd extra_kw)).
  { rewrite validate_unfold. cbn [is_None andb negb type_of dict_items].
    rewrite bool_decide_eq_true_2 by reflexivity. cbn [negb].
    apply unique_keys_dict in Hkw as [Hnd Hall].
    rewrite (proj2 (omitted_keys_nil (keywords user) (keywords user ++ extra_kw))).
    - rewrite validate_entries_app, (validate_entries_new (keywords user) extra_kw Hexkw).
      rewrite validate_entries_self; [reflexivity |].
      intros k a Hin. split; [now apply dict_get_In |].
      rewrite List.Forall_forall in Hall. apply validate_self, (Hall (k, a) Hin).
    - intros k Hin. apply has_key_In. unfold dict_keys. rewrite map_app.
      apply in_or_app. now left. }
  unfold _validate_args. cbn [positional keywords]. rewrite Hseq, Hdict.
  rewrite Forall_app, <- !(Forall_iff _ _ _ validate_new_input_spec),
    <- !validate_new_inputs_pass.
  destruct (validate_new_inputs extras); cbn; [tauto |].
  split; [discriminate | intros [H _]; discriminate H].
Qed.

Lemma added_arguments_accepted_iff_witness :
  _validate_args (CallArgs [VInt 1; VInt 2] [("a", VInt 1)])
    (CallArgs ([VInt 1; VInt 2] ++ [VFunc 7 true])
              ([("a", VInt 1)] ++ [("callbacks", VList [VObj (PyClass "Callback" true) 3])]))
  = Pass
  <-> Forall exception_safe_input
        ([VFunc 7 true] ++ map snd [("callbacks", VList [VObj (PyClass "Callback" true) 3])]).
Proof.
  apply (added_arguments_accepted_iff (CallArgs [VInt 1; VInt 2] [("a", VInt 1)])
           [VFunc 7 true] [("callbacks", VList [VObj (PyClass "Callback" true) 3])]).
  - split; cbn; [tauto |]. split; [| tauto]. repeat constructor. cbn. tauto.
  - repeat constructor. discriminate.
  - repeat constructor. discriminate.
Defined.

End ValidatorMore.

(** ** More on patches *)

Module PatchingMore.
Import Patching PatchingFacts.

Section Facts.

Context {E : Type} (env : surroundings E).

Lemma step_testing {X : Type} (o : op X) (w : world E) :
  testing (final (step env o w)) = testing w.
Proof. unfold testing. now rewrite step_environ. Qed.

(** What every call of [call_original] keeps, the whole patch keeps. *)
Lemma with_original_preserves {A : Type} (P : tracker -> Prop) (args : call_args)
    (p : prog A) (t : tracker) (w : world E) :
  (forall og t' w', testing w' = testing w -> P t' ->
     P (value (run env (call_original args og t') w')).2) ->
  P t -> P (value (run env (with_original (call_original args) p t) w)).2.
Proof.
  intros Hcall. revert t w Hcall. induction p as [a | X o k IH]; intros t w Hcall Ht.
  - exact Ht.
  - destruct (is_Original o) eqn:Ho.
    + destruct o; try discriminate Ho.
      rewrite run_with_original_call. cbn zeta. cbn [value].
      apply IH.
      * intros og t' w' Hw'. apply Hcall. now rewrite Hw', run_testing.
      * now apply Hcall.
    + rewrite run_with_original_other by assumption. cbn zeta. cbn [value].
      apply IH; [| assumption].
      intros og t' w' Hw'. apply Hcall. now rewrite Hw', step_testing.
Qed.

(** In test mode every call of the original made by the patch has passed the
    validation. *)
Lemma with_original_validated {A : Type} (args : call_args) (p : prog A) (t : tracker)
    (w : world E) :
  testing w = true ->
  Forall (fun c => Validator._validate_args args c.1 = Validator.Pass)
    (original_calls (events (run env (with_original (call_original args) p t) w))).
Proof.
  revert t w. induction p as [a | X o k IH]; intros t w Htest.
  - constructor.
  - destruct (is_Original o) eqn:Ho.
    + destruct o; try discriminate Ho.
      rewrite run_with_original_call, run_call_original, Htest.
      destruct (Validator._validate_args args a) eqn:Hv.
      * cbn [value final events fst snd app original_calls omap].
        cbn zeta. cbn [events original_calls omap app].
        constructor; [exact Hv | apply IH; exact Htest].
      * cbn zeta. cbn [value final events fst snd app original_calls omap].
        apply IH, Htest.
    + rewrite run_with_original_other by assumption.
      cbn zeta. cbn [events]. rewrite original_calls_app, step_no_original by assumption.
      apply IH. now rewrite step_testing.
Qed.

Lemma conclude_calls (t : tracker) (args : call_args) (w : world E) (evs : list event) :
  let c := conclude env t args w evs in
  original_calls (events c) =
  if original_has_been_called t then original_calls evs
  else original_calls evs ++ [(args, value c)].
Proof.
  unfold conclude. destruct (original_has_been_called t); cbn; [reflexivity |].
  now rewrite original_calls_app.
Qed.

Lemma patch_run_called (patch : patch_function) (args : call_args) (w : world E) :
  let rp := run env (patch_run patch args) w in
  original_has_been_called (value rp).2 =
  match original_calls (events rp) with [] => false | _ => true end.
Proof.
  pose proof (with_original_tracks env (invoke patch args) args fresh_tracker w) as Htr.
  cbn zeta in Htr. destruct Htr as (Hcalled & _). exact Hcalled.
Qed.

(** The calls of the original in a patched call, by cases. *)
Lemma safe_patch_function_calls (name : string) (patch : patch_function) (args : call_args)
    (w : world E) :
  truthy (Registry.autologging_is_disabled (AUTOLOGGING_INTEGRATIONS w) name) = false ->
  let rp := run env (patch_run patch args) w in
  let r := run env (safe_patch_function name patch args) w in
  (original_calls (events rp) <> [] /\ original_calls (events r) = original_calls (events rp))
  \/ (original_calls (events rp) = []
      /\ (original_calls (events r) = [(args, value r)]
          \/ original_calls (events r) = [] /\ exists e, value r = inl e)).
Proof.
  intros Hen rp r. subst r. rewrite run_safe_patch_function, Hen. fold rp. cbn zeta.
  pose proof (patch_run_called patch args w) as Hcalled. cbn zeta in Hcalled. fold rp in Hcalled.
  assert (Hconclude : forall evs', original_calls evs' = original_calls (events rp) ->
    let c := conclude env (value rp).2 args (final rp) evs' in
    (original_calls (events rp) <> [] /\ original_calls (events c) = original_calls (events rp))
    \/ (original_calls (events rp) = []
        /\ (original_calls (events c) = [(args, value c)]
            \/ original_calls (events c) = [] /\ exists e, value c = inl e))).
  { intros evs' Hevs c. subst c. rewrite conclude_calls. cbn zeta. rewrite Hcalled, Hevs.
    destruct (original_calls (events rp)); [right | left].
    - split; [reflexivity |]. left. reflexivity.
    - split; [discriminate | reflexivity]. }
  destruct (value rp).1 as [e | v].
  - destruct (is_Exception e && negb (failed_during_original (value rp).2) && negb (testing w)).
    + apply Hconclude. rewrite original_calls_app. cbn. apply app_nil_r.
    + cbn [events value]. destruct (original_calls (events rp)) eqn:Hc; [right | left].
      * split; [reflexivity |]. right. split; [reflexivity | now exists e].
      * split; [discriminate | reflexivity].
  - now apply Hconclude.
Qed.

(** X5. The wrapper calls the original itself only when the patch has not:
    the calls of the original in a patched call are those the patch made, or,
    when it made none, a single call with the caller's arguments. *)
Theorem wrapper_calls_original_only_if_patch_did_not (name : string)
    (patch : patch_function) (args : call_args) (w : world E) :
  truthy (Registry.autologging_is_disabled (AUTOLOGGING_INTEGRATIONS w) name) = false ->
  let rp := run env (patch_run patch args) w in
  let r := run env (safe_patch_function name patch args) w in
  (original_calls (events rp) <> [] -> original_calls (events r) = original_calls (events rp))
  /\ (original_calls (events rp) = [] ->
      original_calls (events r) = [(args, value r)] \/ original_calls (events r) = []).
Proof.
  intros Hen rp r. subst rp r.
  destruct (safe_patch_function_calls name patch args w Hen) as [[Hne Heq] | [Hnil Hcases]];
    cbn zeta in *; split; intros H; try contradiction; try assumption.
  destruct Hcases as [Hone | [Hnone _]]; auto.
Qed.

(** X6. A patched function never returns without the original having been
    called: whenever the patched call returns a value, whether the
    integration is disabled or not, the events hold at least one call of the
    original. *)
Theorem patched_function_returns_after_original (name : string) (patch : patch_function)
    (args : call_args) (w : world E) (v : pyval) :
  value (run env (safe_patch_function name patch args) w) = inr v ->
  original_calls (events (run env (safe_patch_function name patch args) w)) <> [].
Proof.
  intros Hret.
  destruct (truthy (Registry.autologging_is_disabled (AUTOLOGGING_INTEGRATIONS w) name))
    eqn:Hdis.
  - rewrite run_safe_patch_function, Hdis, run_original. cbn. discriminate.
  - destruct (safe_patch_function_calls name patch args w Hdis)
      as [[Hne Heq] | [Hnil [Hone | [_ [e He]]]]]; cbn zeta in *.
    + now rewrite Heq.
    + rewrite Hone. discriminate.
    + rewrite He in Hret. discriminate.
Qed.

(** X7. In test mode nothing of the patch is swallowed: an exception that
    leaves the patch is raised by the patched function as it is, without a
    warning and without a call of the original by the wrapper. *)
Theorem test_mode_patch_failure_propagates (name : string) (patch : patch_function)
    (args : call_args) (w : world E) (e : pyexn) :
  truthy (Registry.autologging_is_disabled (AUTOLOGGING_INTEGRATIONS w) name) = false ->
  testing w = true ->
  let rp := run env (patch_run patch args) w in
  (value rp).1 = inl e ->
  run env (safe_patch_function name patch args) w = Result (inl e) (final rp) (events rp).
Proof.
  intros Hen Htest rp He. rewrite run_safe_patch_function, Hen. fold rp. cbn zeta.
  rewrite He, Htest, andb_false_r. reflexivity.
Qed.

(** X8. In test mode the original only ever receives arguments that pass the
    validation against the caller's: this holds of every call of the
    original in a patched call, those of the patch and that of the wrapper. *)
Theorem test_mode_original_receives_validated_arguments (name : string)
    (patch : patch_function) (args : call_args) (w : world E) :
  testing w = true -> ValidatorSpec.unique_keys_args args ->
  Forall (fun c => Validator._validate_args args c.1 = Validator.Pass)
    (original_calls (events (run env (safe_patch_function name patch args) w))).
Proof.
  intros Htest Hwf.
  pose proof (ValidatorMore.validate_args_self args Hwf) as Hself.
  rewrite run_safe_patch_function.
  destruct (truthy (Registry.autologging_is_disabled (AUTOLOGGING_INTEGRATIONS w) name)).
  - rewrite run_original. cbn. constructor; [exact Hself | constructor].
  - cbn zeta.
    pose proof (with_original_validated args (invoke patch args) fresh_tracker w Htest)
      as Hp. fold (patch_run patch args) in Hp.
    assert (Hconclude : forall t evs', original_calls evs' = original_calls
                                         (events (run env (patch_run patch args) w)) ->
      Forall (fun c => Validator._validate_args args c.1 = Validator.Pass)
        (original_calls (events (conclude env t args
                                   (final (run env (patch_run patch args) w)) evs')))).
    { intros t evs' Hevs. rewrite conclude_calls. cbn zeta.
      destruct (original_has_been_called t); rewrite Hevs; [exact Hp |].
      apply Forall_app. split; [exact Hp |]. constructor; [exact Hself | constructor]. }
    destruct (value (run env (patch_run patch args) w)).1 as [e | v].
    + destruct (_ && _ && _); [| exact Hp].
      apply Hconclude. rewrite original_calls_app. cbn. apply app_nil_r.
    + now apply Hconclude.
Qed.

(** X9. Outside test mode [failed_during_original] is set only after
    [original_has_been_called]: when the patch has run, a failure of the
    original is recorded only if a call of the original is. *)
Theorem failed_only_if_called_outside_test_mode (patch : patch_function)
    (args : call_args) (w : world E) :
  testing w = false ->
  let t := (value (run env (patch_run patch args) w)).2 in
  failed_during_original t = true -> original_has_been_called t = true.
Proof.
  intros Htest. cbn zeta. unfold patch_run.
  apply (with_original_preserves
           (fun t => failed_during_original t = true -> original_has_been_called t = true)).
  - intros og t' w' Hw' Ht'. rewrite run_call_original, Hw', Htest. cbn.
    destruct (original_impl env og (ext w')) as [[e | v] e']; cbn; auto.
  - discriminate.
Qed.

(** X10. A call of a [PatchFunction] ends as its [_patch_implementation]
    does, whatever the callback does: the value is returned, the exception
    is raised again; and [_on_exception] runs exactly when the exception is
    an [Exception], once, after the implementation. *)
Theorem patch_function_call_outcome (cls : PatchFunction) (self : instance cls)
    (args : call_args) (w : world E) :
  let ri := run env (_patch_implementation cls self args) w in
  let r := run env (__call__ cls self args) w in
  value r = (value ri).1
  /\ match (value ri).1 with
     | inr _ => final r = final ri /\ events r = events ri
     | inl e =>
         if is_Exception e
         then
           let oe := run env (_on_exception cls (value ri).2 e) (final ri) in
           final r = final oe /\ events r = events ri ++ events oe
         else final r = final ri /\ events r = events ri
     end.
Proof.
  cbn zeta. rewrite run___call__. cbn zeta.
  destruct (value (run env (_patch_implementation cls self args) w)).1 as [e | v];
    [destruct (is_Exception e) |]; repeat split; reflexivity.
Qed.

(** X11. The class form of [with_managed_run] leaves the run it started
    open when the inner implementation is interrupted: with no run active,
    a start that yields a run and an implementation that raises something
    that is not an [Exception], the wrapped patch raises it and
    [mlflow.end_run] is not called. *)
Theorem managed_class_leaves_run_open (cls : PatchFunction) (args : call_args)
    (w : world E) (id : string) (e : pyexn) :
  active_run_impl env (ext w) = None ->
  (start_run_impl env (ext w)).1 = inr id ->
  let ri := run env (_patch_implementation cls (init cls) args)
              (with_ext w (start_run_impl env (ext w)).2) in
  (value ri).1 = inl e -> is_Exception e = false ->
  run env (invoke (with_managed_run (ClassPatch cls)) args) w
  = Result (inl e) (final ri) (EvStartRun (inr id) :: events ri).
Proof.
  intros Hnone Hstart ri He Hexc. cbn [with_managed_run invoke]. unfold PatchFunction_call.
  change (init (PatchWithManagedRun cls)) with (init cls, @None string).
  rewrite run___call__, run_managed_implementation, run_start_managed_run, Hnone. cbn zeta.
  rewrite Hstart. cbn [value final events]. fold ri. rewrite He.
  cbn [value final events fst snd]. rewrite Hexc. reflexivity.
Qed.

(** X12. In the class form a failure of [mlflow.end_run] that is not
    swallowed ends the run twice: when the inner implementation returns and
    ending the run with [FINISHED] raises an [Exception] in test mode, the
    callback of the wrapper calls [mlflow.end_run] again, with [FAILED], and
    the wrapped patch raises the exception of the first. *)
Theorem managed_class_ends_run_twice (cls : PatchFunction) (args : call_args)
    (w : world E) (id : string) (v : pyval) (e' : pyexn) :
  active_run_impl env (ext w) = None ->
  (start_run_impl env (ext w)).1 = inr id ->
  testing w = true ->
  let ri := run env (_patch_implementation cls (init cls) args)
              (with_ext w (start_run_impl env (ext w)).2) in
  (value ri).1 = inr v ->
  (end_run_impl env FINISHED (ext (final ri))).1 = inl e' -> is_Exception e' = true ->
  let r := run env (invoke (with_managed_run (ClassPatch cls)) args) w in
  value r = inl e'
  /\ exists r_end tail,
       events r = EvStartRun (inr id)
                  :: events ri ++ EvEndRun FINISHED (inl e') :: EvEndRun FAILED r_end :: tail.
Proof.
  intros Hnone Hstart Htest ri Hv Hend Hexc. cbn [with_managed_run invoke].
  unfold PatchFunction_call.
  change (init (PatchWithManagedRun cls)) with (init cls, @None string).
  rewrite run___call__, run_managed_implementation, run_start_managed_run, Hnone. cbn zeta.
  rewrite Hstart. cbn [value final events]. fold ri. rewrite Hv.
  assert (Htest' : testing (final ri) = true).
  { subst ri. rewrite run_testing. exact Htest. }
  rewrite run_end_managed_run. cbn zeta. rewrite Hend, Hexc, Htest'.
  cbn [andb negb value final events fst snd]. rewrite Hexc.
  rewrite run_managed_on_exception.
  destruct (end_managed_run_events env id FAILED
              (with_ext (final ri) (end_run_impl env FINISHED (ext (final ri))).2))
    as (r_end & tail & Hev & _).
  cbn zeta in Hev. cbn zeta.
  destruct (run env (end_managed_run (Some id) FAILED) _) as [vf wf evf].
  cbn [value final events] in *. subst evf.
  split.
  - destruct vf; reflexivity.
  - destruct vf; cbn [value final events]; eexists _, _; cbn;
      rewrite <- ?app_assoc; cbn; reflexivity.
Qed.

End Facts.

Lemma managed_class_leaves_run_open_witness :
  run Script.scripted
    (invoke (with_managed_run (ClassPatch Script.interrupted_class)) Script.one_two)
    (Script.process false Script.quiet)
  = Result (inl KeyboardInterrupt)
      (with_ext (Script.process false Script.quiet)
                (Script.set_active Script.quiet (Some "run-1")))
      [EvStartRun (inr "run-1")].
Proof.
  apply (managed_class_leaves_run_open Script.scripted Script.interrupted_class
           Script.one_two (Script.process false Script.quiet) "run-1" KeyboardInterrupt);
    reflexivity.
Defined.

Lemma managed_class_ends_run_twice_witness :
  let r := run Script.scripted
             (invoke (with_managed_run (ClassPatch Script.transparent_class)) Script.one_two)
             (Script.process true Cases.failing_end) in
  value r = inl Script.boom
  /\ exists r_end tail,
       events r = EvStartRun (inr "run-1")
                  :: [EvOriginal Script.one_two (inr (VInt 1))]
                  ++ EvEndRun FINISHED (inl Script.boom) :: EvEndRun FAILED r_end :: tail.
Proof.
  apply (managed_class_ends_run_twice Script.scripted Script.transparent_class Script.one_two
           (Script.process true Cases.failing_end) "run-1" (VInt 1) Script.boom);
    reflexivity.
Defined.

(** In test mode the failed validation of what the patch forwards sets
    [failed_during_original] although the original was not called. *)
Example failed_without_call_in_test_mode :
  let t := (value (run Script.scripted
                     (patch_run (FunctionPatch (fun _ => call (Original (CallArgs [] []))))
                        Script.one_two)
                     (Script.process true Script.quiet))).2 in
  failed_during_original t = true /\ original_has_been_called t = false.
Proof. split; reflexivity. Qed.

Lemma wrapper_calls_original_only_if_patch_did_not_witness :
  (let r := run Script.scripted
              (safe_patch_function "sklearn" Script.swallowing_patch Script.one_two)
              (Script.process false Script.failing_original) in
   original_calls (events r) = [(Script.one_two, inl Script.boom)])
  /\ (let r := run Script.scripted
                 (safe_patch_function "sklearn" Script.broken_patch Script.one_two)
                 (Script.process false Script.quiet) in
      original_calls (events r) = [(Script.one_two, value r)]
      \/ original_calls (events r) = []).
Proof.
  split.
  - apply (proj1 (wrapper_calls_original_only_if_patch_did_not Script.scripted "sklearn"
                    Script.swallowing_patch Script.one_two
                    (Script.process false Script.failing_original) eq_refl)).
    discriminate.
  - apply (proj2 (wrapper_calls_original_only_if_patch_did_not Script.scripted "sklearn"
                    Script.broken_patch Script.one_two
                    (Script.process false Script.quiet) eq_refl)).
    reflexivity.
Defined.

Lemma patched_function_returns_after_original_witness :
  original_calls (events (run Script.scripted
                            (safe_patch_function "sklearn" Script.swallowing_patch
                               Script.one_two)
                            (Script.process false Script.failing_original))) <> [].
Proof.
  apply (patched_function_returns_after_original Script.scripted "sklearn"
           Script.swallowing_patch Script.one_two
           (Script.process false Script.failing_original) VNone).
  reflexivity.
Defined.

Lemma test_mode_patch_failure_propagates_witness :
  run Script.scripted (safe_patch_function "sklearn" Script.broken_patch Script.one_two)
    (Script.process true Script.quiet)
  = Result (inl Script.boom) (Script.process true Script.quiet) [].
Proof.
  apply (test_mode_patch_failure_propagates Script.scripted "sklearn" Script.broken_patch
           Script.one_two (Script.process true Script.quiet) Script.boom);
    reflexivity.
Defined.

Lemma test_mode_original_receives_validated_arguments_witness :
  Forall (fun c => Validator._validate_args Script.one_two c.1 = Validator.Pass)
    (original_calls (events (run Script.scripted
                               (safe_patch_function "sklearn" Script.transparent_patch
                                  Script.one_two)
                               (Script.process true Script.quiet)))).
Proof.
  apply (test_mode_original_receives_validated_arguments Script.scripted "sklearn"
           Script.transparent_patch Script.one_two (Script.process true Script.quiet)).
  - reflexivity.
  - split; cbn; [tauto |]. split; [constructor | exact I].
Defined.

Lemma failed_only_if_called_outside_test_mode_witness :
  original_has_been_called
    (value (run Script.scripted (patch_run Script.transparent_patch Script.one_two)
              (Script.process false Script.failing_original))).2 = true.
Proof.
  apply (failed_only_if_called_outside_test_mode Script.scripted Script.transparent_patch
           Script.one_two (Script.process false Script.failing_original));
    reflexivity.
Defined.

End PatchingMore.

(** ** More on the integration registry *)

Module RegistryMore.
Import Registry RegistryFacts Cases.

Lemma dict_update_absent (d : gmap string pyval) (items : list (string * pyval)) (k : string) :
  ~ In k (map fst items) -> dict_update d items !! k = d !! k.
Proof.
  unfold dict_update. revert d. induction items as [| [k' v'] items IH]; intros d Hk.
  - reflexivity.
  - cbn in *. rewrite IH by tauto. apply lookup_insert_ne. intros ->. tauto.
Qed.

Lemma dict_update_present (d : gmap string pyval) (items : list (string * pyval))
    (k : string) (v : pyval) :
  List.NoDup (map fst items) -> In (k, v) items -> dict_update d items !! k = Some v.
Proof.
  unfold dict_update. revert d. induction items as [| [k' v'] items IH]; intros d Hnd Hin.
  - destruct Hin.
  - cbn in *. inversion Hnd as [| ? ? Hnotin Hnd']; subst.
    destruct Hin as [Heq | Hin].
    + injection Heq as -> ->.
      pose proof (dict_update_absent (<[k := v]> d) items k Hnotin) as Habs.
      unfold dict_update in Habs. rewrite Habs. apply lookup_insert_eq.
    + now apply IH.
Qed.

(** The names bound by position are names of the signature, each once. *)
Lemma positional_names (param_spec : list parameter) (pos : list pyval) :
  map fst (map (fun ap : pyval * parameter => (param_name ap.2, ap.1)) (zip pos param_spec))
  = map param_name (firstn (length pos) param_spec).
Proof.
  revert param_spec. induction pos as [| a pos IH]; intros [| p param_spec]; cbn;
    try reflexivity.
  now rewrite IH.
Qed.

Lemma NoDup_firstn {A : Type} (n : nat) (l : list A) :
  List.NoDup l -> List.NoDup (firstn n l).
Proof.
  intros Hnd. apply NoDup_ListNoDup.
  eapply sublist_NoDup; [apply NoDup_ListNoDup; exact Hnd | apply sublist_take].
Qed.

Lemma positional_pair_In (param_spec : list parameter) (pos : list pyval) (i : nat)
    (p : parameter) (a : pyval) :
  param_spec !! i = Some p -> pos !! i = Some a ->
  In (param_name p, a)
     (map (fun ap : pyval * parameter => (param_name ap.2, ap.1)) (zip pos param_spec)).
Proof.
  revert param_spec i. induction pos as [| x pos IH]; intros [| q param_spec] [| i] Hp Ha;
    try discriminate; cbn in *.
  - injection Hp as ->. injection Ha as ->. now left.
  - right. now apply (IH param_spec i).
Qed.

Lemma later_name_not_positional (param_spec : list parameter) (n i : nat) (p : parameter) :
  List.NoDup (map param_name param_spec) -> param_spec !! i = Some p -> (n <= i)%nat ->
  ~ In (param_name p) (map param_name (firstn n param_spec)).
Proof.
  revert n i. induction param_spec as [| q l IH]; intros [| n] [| i] Hnd Hp Hle;
    try discriminate; cbn in *; try tauto; try lia.
  inversion Hnd as [| ? ? Hnotin Hnd']; subst. intros [Heq | Hin].
  - apply Hnotin. rewrite Heq. apply in_map. apply list_elem_of_In.
    now apply (list_elem_of_lookup_2 _ i).
  - apply (IH n i Hnd' Hp); [lia | assumption].
Qed.

Lemma default_pair_In (param_spec : list parameter) (i : nat) (p : parameter) :
  param_spec !! i = Some p ->
  In (param_name p, param_default p)
     (map (fun p => (param_name p, param_default p)) param_spec).
Proof.
  intros Hp. apply (in_map (fun p => (param_name p, param_default p))).
  apply list_elem_of_In. now apply (list_elem_of_lookup_2 _ i).
Qed.

Lemma default_names (param_spec : list parameter) :
  map fst (map (fun p => (param_name p, param_default p)) param_spec)
  = map param_name param_spec.
Proof. rewrite map_map. reflexivity. Qed.

(** What [autolog] stores under a key: the keyword of that name, else the
    positional argument at the place of the parameter of that name, else the
    default of that parameter, else nothing. *)
Lemma stored_config_lookup (param_spec : list parameter) (pos : list pyval)
    (kw : list (string * pyval)) :
  List.NoDup (map param_name param_spec) -> List.NoDup (dict_keys kw) ->
  (forall k v, In (k, v) kw -> stored_config param_spec (CallArgs pos kw) !! k = Some v)
  /\ (forall i p a, param_spec !! i = Some p -> pos !! i = Some a ->
      has_key kw (param_name p) = false ->
      stored_config param_spec (CallArgs pos kw) !! param_name p = Some a)
  /\ (forall i p, param_spec !! i = Some p -> (length pos <= i)%nat ->
      has_key kw (param_name p) = false ->
      stored_config param_spec (CallArgs pos kw) !! param_name p = Some (param_default p))
  /\ (forall k, has_key kw k = false -> ~ In k (map param_name param_spec) ->
      stored_config param_spec (CallArgs pos kw) !! k = None).
Proof.
  intros Hnd Hkw. unfold stored_config. cbn [positional keywords].
  assert (Habsent : forall k, has_key kw k = false -> ~ In k (map fst kw)).
  { intros k Hk Hin. apply ValidatorMore.has_key_In in Hin. congruence. }
  repeat split.
  - intros k v Hin. now apply dict_update_present.
  - intros i p a Hp Ha Hk. rewrite dict_update_absent by now apply Habsent.
    apply dict_update_present.
    + rewrite positional_names, <- firstn_map. now apply NoDup_firstn.
    + now apply (positional_pair_In _ _ i).
  - intros i p Hp Hlen Hk. rewrite dict_update_absent by now apply Habsent.
    rewrite dict_update_absent
      by (rewrite positional_names; now apply (later_name_not_positional _ _ i)).
    apply dict_update_present.
    + now rewrite default_names.
    + now apply (default_pair_In _ i).
  - intros k Hk Hnot. rewrite dict_update_absent by now apply Habsent.
    rewrite dict_update_absent.
    + rewrite dict_update_absent by now rewrite default_names. apply lookup_empty.
    + rewrite positional_names. intros Hin. apply Hnot.
      apply in_map_iff in Hin as (q & <- & Hq). apply in_map.
      apply list_elem_of_In. apply list_elem_of_In in Hq.
      now apply (subseteq_take (length pos)).
Qed.

Section Autolog.

Context {E : Type} (env : surroundings E).

Lemma run_autolog (name : string) (param_spec : list parameter) (args : call_args)
    (w : world E) :
  run env (autolog name param_spec args) w =
  let o := external_impl env ("autolog:" +:+ name) args (ext w) in
  Result o.1
    (World (environ w) (<[name := stored_config param_spec args]> (AUTOLOGGING_INTEGRATIONS w))
       o.2)
    [EvExternal ("autolog:" +:+ name) args o.1].
Proof.
  unfold autolog. cbn. destruct (external_impl env ("autolog:" +:+ name) args (ext w)).
  reflexivity.
Qed.

(** X13. After a call of the decorated [autolog], the configuration read
    back for the integration is, for each key: the keyword argument of that
    name if there is one; else the positional argument at the place of the
    parameter of that name; else the default of that parameter; and the
    caller's default for a key that is neither.  This holds whether the
    decorated function returns or raises. *)
Theorem autolog_configuration_readback (name : string) (param_spec : list parameter)
    (pos : list pyval) (kw : list (string * pyval)) (w : world E) (default_value : pyval) :
  List.NoDup (map param_name param_spec) -> List.NoDup (dict_keys kw) ->
  let after := AUTOLOGGING_INTEGRATIONS
                 (final (run env (autolog name param_spec (CallArgs pos kw)) w)) in
  (forall k v, In (k, v) kw -> get_autologging_config after name k default_value = v)
  /\ (forall i p a, param_spec !! i = Some p -> pos !! i = Some a ->
      has_key kw (param_name p) = false ->
      get_autologging_config after name (param_name p) default_value = a)
  /\ (forall i p, param_spec !! i = Some p -> (length pos <= i)%nat ->
      has_key kw (param_name p) = false ->
      get_autologging_config after name (param_name p) default_value = param_default p)
  /\ (forall k, has_key kw k = false -> ~ In k (map param_name param_spec) ->
      get_autologging_config after name k default_value = default_value).
Proof.
  intros Hnd Hkw after. subst after. rewrite run_autolog. cbn zeta. cbn [final].
  cbn [AUTOLOGGING_INTEGRATIONS]. unfold get_autologging_config.
  rewrite lookup_insert_eq.
  destruct (stored_config_lookup param_spec pos kw Hnd Hkw) as (Ha & Hb & Hc & Hd).
  repeat split.
  - intros k v Hin. now rewrite (Ha k v Hin).
  - intros i p a Hp Hpos Hk. now rewrite (Hb i p a Hp Hpos Hk).
  - intros i p Hp Hlen Hk. now rewrite (Hc i p Hp Hlen Hk).
  - intros k Hk Hnot. now rewrite (Hd k Hk Hnot).
Qed.

(** X14. The decorated [autolog] calls the function it decorates exactly
    once, with the arguments it was given, and ends as that function does;
    it touches the configuration of no other integration and leaves
    [os.environ] as it is. *)
Theorem autolog_forwards (name : string) (param_spec : list parameter) (args : call_args)
    (w : world E) :
  let r := run env (autolog name param_spec args) w in
  value r = (external_impl env ("autolog:" +:+ name) args (ext w)).1
  /\ events r = [EvExternal ("autolog:" +:+ name) args (value r)]
  /\ environ (final r) = environ w
  /\ (forall other, other <> name ->
      AUTOLOGGING_INTEGRATIONS (final r) !! other = AUTOLOGGING_INTEGRATIONS w !! other).
Proof.
  cbn zeta. rewrite run_autolog. cbn zeta. cbn [value final events].
  repeat split. intros other Hne. cbn [AUTOLOGGING_INTEGRATIONS].
  now apply lookup_insert_ne.
Qed.

(** X15. Calling [autolog] switches the integration: with [disable] given by
    keyword the integration is disabled exactly when the value is true, and
    a patched function then is a plain call of the original; with [disable]
    given neither by keyword nor by position, and declared with the default
    [False], the integration is enabled. *)
Theorem autolog_switches_integration (name : string) (param_spec : list parameter)
    (pos : list pyval) (kw : list (string * pyval)) (w : world E) :
  List.NoDup (map param_name param_spec) -> List.NoDup (dict_keys kw) ->
  let w' := final (run env (autolog name param_spec (CallArgs pos kw)) w) in
  (forall v, In ("disable", v) kw ->
     autologging_is_disabled (AUTOLOGGING_INTEGRATIONS w') name = v
     /\ (truthy v = true ->
         forall patch args,
           run env (Patching.safe_patch_function name patch args) w'
           = run env (call (Original args)) w'))
  /\ (forall i p, param_spec !! i = Some p -> param_name p = "disable" ->
      param_default p = VBool false -> (length pos <= i)%nat ->
      has_key kw "disable" = false ->
      autologging_is_disabled (AUTOLOGGING_INTEGRATIONS w') name = VBool false).
Proof.
  intros Hnd Hkw w'. subst w'. rewrite run_autolog. cbn zeta. cbn [final].
  destruct (stored_config_lookup param_spec pos kw Hnd Hkw) as (Ha & _ & Hc & _).
  split.
  - intros v Hin.
    assert (Hdis : autologging_is_disabled
                     (<[name := stored_config param_spec (CallArgs pos kw)]>
                        (AUTOLOGGING_INTEGRATIONS w)) name = v).
    { unfold autologging_is_disabled, get_autologging_config.
      now rewrite lookup_insert_eq, (Ha _ v Hin). }
    split; [exact Hdis |].
    intros Htrue patch args. rewrite PatchingFacts.run_safe_patch_function.
    cbn [AUTOLOGGING_INTEGRATIONS]. now rewrite Hdis, Htrue.
  - intros i p Hp Hname Hdef Hlen Hk. rewrite <- Hname in Hk.
    unfold autologging_is_disabled, get_autologging_config. cbn [AUTOLOGGING_INTEGRATIONS].
    rewrite lookup_insert_eq, <- Hname, (Hc i p Hp Hlen Hk), Hdef. reflexivity.
Qed.

End Autolog.

Lemma autolog_configuration_readback_witness :
  get_autologging_config
    (AUTOLOGGING_INTEGRATIONS
       (final (run Script.scripted
                 (autolog "keras" Script.keras_autolog
                    (CallArgs [VBool false] [("disable", VBool true)]))
                 (Script.bare_process Script.quiet))))
    "keras" "disable" VNone = VBool true.
Proof.
  apply (proj1 (autolog_configuration_readback Script.scripted "keras" Script.keras_autolog
                  [VBool false] [("disable", VBool true)]
                  (Script.bare_process Script.quiet) VNone
                  ltac:(repeat constructor; cbn; intuition discriminate)
                  ltac:(repeat constructor; cbn; tauto))).
  now left.
Defined.

Lemma autolog_switches_integration_witness :
  autologging_is_disabled
    (AUTOLOGGING_INTEGRATIONS
       (final (run Script.scripted
                 (autolog "keras" Script.keras_autolog (CallArgs [VBool false] []))
                 (Script.bare_process Script.quiet))))
    "keras" = VBool false.
Proof.
  apply (proj2 (autolog_switches_integration Script.scripted "keras" Script.keras_autolog
                  [VBool false] [] (Script.bare_process Script.quiet)
                  ltac:(repeat constructor; cbn; intuition discriminate)
                  ltac:(constructor))
           1%nat (Param "disable" (VBool false)));
    reflexivity.
Defined.

End RegistryMore.

(** ** More on the batch metrics logger *)

Module MetricsMore.
Import Metrics MetricsFacts.

(** *** Slices *)

Lemma range_from_lookup (fuel start stop step i x : nat) :
  range_from fuel start stop step !! i = Some x ->
  x = (start + i * step)%nat /\ (x < stop)%nat.
Proof.
  revert start i. induction fuel as [| fuel IH]; intros start i; cbn [range_from];
    [discriminate |].
  destruct (Nat.ltb_spec start stop) as [Hlt | Hge]; [| discriminate].
  destruct i as [| i]; cbn.
  - intros H. injection H as <-. lia.
  - intros H. apply IH in H. lia.
Qed.

(** X16. The slices of a flush have a fixed size: every slice but the last
    holds exactly [MAX_METRICS_PER_BATCH] points. *)
Theorem slices_but_last_are_full (M : nat) (data : list Metric) (i : nat)
    (batch : list Metric) :
  (0 < M)%nat ->
  metrics_slices M data !! i = Some batch ->
  (S i < length (metrics_slices M data))%nat ->
  length batch = M.
Proof.
  intros HM Hi Hnext. unfold metrics_slices in *.
  rewrite list_lookup_fmap in Hi. rewrite length_map in Hnext.
  destruct (range (length data) M !! i) as [x |] eqn:Hx; [| discriminate Hi].
  cbn in Hi. injection Hi as <-.
  destruct (lookup_lt_is_Some_2 _ _ Hnext) as [y Hy].
  unfold range in *. apply range_from_lookup in Hx, Hy.
  rewrite length_firstn, length_skipn. lia.
Qed.

Lemma slices_but_last_are_full_witness :
  length [MkMetric "a" (VInt 1) 0 0; MkMetric "b" (VInt 2) 0 0] = 2%nat.
Proof.
  apply (slices_but_last_are_full 2
           [MkMetric "a" (VInt 1) 0 0; MkMetric "b" (VInt 2) 0 0; MkMetric "c" (VInt 3) 0 0]
           0 [MkMetric "a" (VInt 1) 0 0; MkMetric "b" (VInt 2) 0 0]).
  - lia.
  - reflexivity.
  - cbn. lia.
Defined.

Section Facts.

Context {E : Type} (env : surroundings E).
Variable MAX_METRICS_PER_BATCH : nat.

(** [_timed_log_batch] that raises leaves the logger as it was. *)
Lemma timed_log_batch_keeps (self : BatchMetricsLogger) (w : world E) (e : pyexn) :
  let r := run env (_timed_log_batch MAX_METRICS_PER_BATCH self) w in
  (value r).1 = inl e -> (value r).2 = self.
Proof.
  unfold _timed_log_batch. rewrite run_bind, run_current_run_id.
  cbn [value final events app]. cbn zeta.
  destruct (match run_id self with
            | Some id => inr id
            | None => _
            end) as [e0 | id].
  - cbn. reflexivity.
  - rewrite run_bind, run_time. cbn [value final events app]. cbn zeta.
    rewrite run_bind. cbn zeta.
    destruct (run env (for_each _ _) _) as [[e1 | []] w1 evs1]; cbn [value final events].
    + cbn. reflexivity.
    + rewrite run_bind, run_time. cbn. discriminate.
Qed.

(** X17. A flush that raises loses nothing: the logger is left exactly as it
    was, buffer and times. *)
Theorem failed_flush_keeps_logger (self : BatchMetricsLogger) (w : world E) (e : pyexn) :
  let r := run env (flush MAX_METRICS_PER_BATCH self) w in
  (value r).1 = inl e -> (value r).2 = self.
Proof.
  unfold flush. rewrite run_bind.
  change (run env (call (Leave Flushing)) w) with (Result tt w [EvMark Flushing]).
  cbn [value final events]. cbn zeta. rewrite run_bind. cbn zeta.
  pose proof (timed_log_batch_keeps self w) as Hkeep. cbn zeta in Hkeep.
  destruct (run env (_timed_log_batch MAX_METRICS_PER_BATCH self) w)
    as [[[e0 | []] self'] w1 evs1]; cbn [value final events fst snd] in *.
  - cbn. intros _. now apply (Hkeep e0).
  - cbn. discriminate.
Qed.

(** X18. Outside test mode, with a run id bound, a constructor
    [MlflowClient()] that returns and a client whose failures are
    [Exception]s, a flush always returns, has handed every slice of the
    buffer to the client, and leaves the buffer empty: what the client
    failed to take is not kept. *)
Theorem flush_outside_test_mode (self : BatchMetricsLogger) (w : world E) :
  client_constructor_returns env -> client_raises_exceptions_only env ->
  testing w = false -> is_Some (run_id self) ->
  let r := run env (flush MAX_METRICS_PER_BATCH self) w in
  (value r).1 = inr tt
  /\ submitted (events r) = metrics_slices MAX_METRICS_PER_BATCH (data self)
  /\ data (value r).2 = [].
Proof.
  intros Hnew Hclient Htest Hid r. subst r.
  destruct (flush_returns env MAX_METRICS_PER_BATCH self w Hnew Hclient Htest Hid) as [Hv _].
  destruct (proj2 (flush_facts env MAX_METRICS_PER_BATCH self w) Hv) as [Hsub Hdata].
  repeat split; assumption.
Qed.

(** The constructor of the client is outside [try_mlflow_log]: what it
    raises for the first slice leaves the flush in either mode, before any
    batch is handed over, and the logger is as it was. *)
Lemma constructor_failure_leaves_flush (self : BatchMetricsLogger) (w : world E)
    (id : string) (metrics_slice : list Metric) (slices : list (list Metric)) (e : pyexn) :
  run_id self = Some id ->
  metrics_slices MAX_METRICS_PER_BATCH (data self) = metrics_slice :: slices ->
  (external_impl env "MlflowClient" (CallArgs [] []) (time_impl env (ext w)).2).1 = inl e ->
  let r := run env (flush MAX_METRICS_PER_BATCH self) w in
  value r = (inl e, self) /\ submitted (events r) = [].
Proof.
  intros Hid Hslices Hnew. cbn zeta. unfold flush, _timed_log_batch. rewrite run_bind.
  change (run env (call (Leave Flushing)) w) with (Result tt w [EvMark Flushing]).
  cbn [value final events]. cbn zeta. rewrite !run_bind, run_current_run_id, Hid.
  cbn [value final events app]. cbn zeta.
  rewrite run_bind, run_time. cbn [value final events app]. cbn zeta.
  rewrite run_bind. cbn zeta. rewrite Hslices. cbn [for_each].
  rewrite run_bindx, run_bindx, run_client. cbn [value final events ext with_ext]. cbn zeta.
  rewrite Hnew. cbn [value final events run]. split; reflexivity.
Qed.

(** X19. Without a run id and without an active run a flush raises
    [AttributeError] before it reads the clock or calls the client, and keeps
    the buffer. *)
Theorem flush_without_run (self : BatchMetricsLogger) (w : world E) :
  run_id self = None -> active_run_impl env (ext w) = None ->
  run env (flush MAX_METRICS_PER_BATCH self) w
  = Result (inl (AttributeError "'NoneType' object has no attribute 'info'"), self) w
      [EvMark Flushing].
Proof.
  intros Hid Hactive. unfold flush, _timed_log_batch, current_run_id. rewrite Hid.
  cbn. rewrite Hactive. reflexivity.
Qed.

(** X20. A flush of an empty buffer hands nothing to the client, whether it
    returns or raises; so after a flush that returned, a second flush hands
    nothing over. *)
Theorem empty_flush_submits_nothing (self : BatchMetricsLogger) (w : world E) :
  data self = [] ->
  submitted (events (run env (flush MAX_METRICS_PER_BATCH self) w)) = [].
Proof.
  intros Hdata. unfold flush, _timed_log_batch. rewrite run_bind.
  change (run env (call (Leave Flushing)) w) with (Result tt w [EvMark Flushing]).
  cbn [value final events]. cbn zeta. rewrite !run_bind, run_current_run_id.
  cbn [value final events app]. cbn zeta. rewrite Hdata.
  destruct (match run_id self with
            | Some id => inr id
            | None => _
            end) as [e0 | id]; [reflexivity |].
  rewrite run_bind, run_time. cbn [value final events app]. cbn zeta.
  rewrite run_bind. cbn [metrics_slices length range range_from map for_each]. cbn zeta.
  cbn [run ret value final events app]. rewrite run_bind, run_time. reflexivity.
Qed.

(** *** The [with] block *)

(** X21. When the [with] block of [batch_metrics_logger] is left normally,
    every point that the calls of the body appended has been handed to the
    client, in order and once, in batches that are not empty and not longer
    than the limit. *)
Theorem with_block_submits_everything (calls : list logger_call) (id : option string)
    (w : world E) :
  (0 < MAX_METRICS_PER_BATCH)%nat ->
  let r := run env (with_batch_metrics_logger MAX_METRICS_PER_BATCH id
                      (perform_all MAX_METRICS_PER_BATCH calls)) w in
  value r = inr tt ->
  concat (submitted (events r)) = appended env MAX_METRICS_PER_BATCH calls (new id) w
  /\ Forall (batch_ok MAX_METRICS_PER_BATCH) (submitted (events r)).
Proof.
  intros HM r. subst r. unfold with_batch_metrics_logger. rewrite run_bind. cbn zeta.
  pose proof (perform_all_facts env MAX_METRICS_PER_BATCH calls (new id) w HM) as Hbody.
  cbn zeta in Hbody.
  destruct (run env (perform_all MAX_METRICS_PER_BATCH calls (new id)) w)
    as [[[e | []] self'] w1 evs1]; cbn [value final events fst snd] in *.
  - cbn. discriminate.
  - destruct (Hbody eq_refl) as (Heq & Hall & _). cbn [new data app] in Heq.
    rewrite run_bind. cbn zeta.
    pose proof (flush_facts env MAX_METRICS_PER_BATCH self' w1) as [_ Hflush].
    cbn zeta in Hflush.
    destruct (run env (flush MAX_METRICS_PER_BATCH self') w1)
      as [[[e | []] self2] w2 evs2]; cbn [value final events fst snd] in *.
    + cbn. discriminate.
    + cbn [run value final events]. intros _. destruct (Hflush eq_refl) as [Hsub _].
      destruct (metrics_slices_partition MAX_METRICS_PER_BATCH (data self') HM)
        as [Hcat Hok].
      rewrite app_nil_r, submitted_app, concat_app, Hsub, Hcat, Heq.
      split; [reflexivity |]. apply Forall_app. split; assumption.
Qed.

(** *** The clock *)

Lemma timed_log_batch_clock (self : BatchMetricsLogger) (w : world E) :
  let r := run env (_timed_log_batch MAX_METRICS_PER_BATCH self) w in
  total_training_time (value r).2 = total_training_time self
  /\ previous_training_timestamp (value r).2 = previous_training_timestamp self.
Proof.
  unfold _timed_log_batch. rewrite run_bind, run_current_run_id.
  cbn [value final events app]. cbn zeta.
  destruct (match run_id self with
            | Some id => inr id
            | None => _
            end) as [e0 | id].
  - cbn. split; reflexivity.
  - rewrite run_bind, run_time. cbn [value final events app]. cbn zeta.
    rewrite run_bind. cbn zeta.
    destruct (run env (for_each _ _) _) as [[e1 | []] w1 evs1]; cbn [value final events].
    + cbn. split; reflexivity.
    + rewrite run_bind, run_time. cbn. split; reflexivity.
Qed.

Lemma flush_clock (self : BatchMetricsLogger) (w : world E) :
  let r := run env (flush MAX_METRICS_PER_BATCH self) w in
  total_training_time (value r).2 = total_training_time self
  /\ previous_training_timestamp (value r).2 = previous_training_timestamp self.
Proof.
  unfold flush. rewrite run_bind.
  change (run env (call (Leave Flushing)) w) with (Result tt w [EvMark Flushing]).
  cbn [value final events]. cbn zeta. rewrite run_bind. cbn zeta.
  pose proof (timed_log_batch_clock self w) as Hclock. cbn zeta in Hclock.
  destruct (run env (_timed_log_batch MAX_METRICS_PER_BATCH self) w)
    as [[[e0 | []] self'] w1 evs1]; cbn [value final events fst snd] in *;
    cbn; exact Hclock.
Qed.

(** X22. The training clock of a logger over one [record_metrics]: the
    call adds to [total_training_time] the time it reads less the previous
    timestamp (the time read itself on the first call), whether it returns
    or raises, and the flush it may perform does not touch that; it
    advances [previous_training_timestamp] to the time read only when it
    returns, and leaves it at the previous timestamp when the flush raises.
    The sum and the difference are those that the code computes, in its
    order. *)
Theorem training_clock_after_record (self : BatchMetricsLogger)
    (metrics : list (string * pyval)) (step : option Z) (w : world E) :
  let now := (time_impl env (ext w)).1 in
  let previous := default now (previous_training_timestamp self) in
  let r := run env (record_metrics MAX_METRICS_PER_BATCH self metrics step) w in
  total_training_time (value r).2 = (total_training_time self + (now - previous))%Q
  /\ previous_training_timestamp (value r).2
     = match (value r).1 with
       | inr _ => Some now
       | inl _ => Some previous
       end.
Proof.
  cbn zeta. unfold record_metrics. rewrite run_bind, run_time.
  cbn [value final events app]. cbn zeta. rewrite run_bind. cbn zeta.
  set (self1 := recorded self metrics step (time_impl env (ext w)).1).
  set (w1 := with_ext w (time_impl env (ext w)).2).
  destruct (_should_flush self1).
  - pose proof (flush_clock self1 w1) as [Htotal Hprev]. cbn zeta in Htotal, Hprev.
    destruct (run env (flush MAX_METRICS_PER_BATCH self1) w1)
      as [[[e | []] self2] w2 evs2]; cbn [value final events fst snd] in *.
    + cbn [run value final events fst snd]. split; [exact Htotal | exact Hprev].
    + cbn [run value final events fst snd total_training_time
             previous_training_timestamp]. split; [exact Htotal | reflexivity].
  - cbn. split; reflexivity.
Qed.

End Facts.

Lemma with_block_submits_everything_witness :
  let calls := [RecordMetrics [("a", VInt 1); ("b", VInt 2); ("c", VInt 3)] None;
                RecordMetrics [("d", VInt 4); ("e", VInt 5)] (Some 7%Z)] in
  let r := run Script.scripted
             (with_batch_metrics_logger 2 (Some "run-1") (perform_all 2 calls))
             (Script.bare_process Script.slow_client) in
  concat (submitted (events r))
    = appended Script.scripted 2 calls (new (Some "run-1"))
        (Script.bare_process Script.slow_client)
  /\ Forall (batch_ok 2) (submitted (events r)).
Proof.
  apply (with_block_submits_everything Script.scripted 2
           [RecordMetrics [("a", VInt 1); ("b", VInt 2); ("c", VInt 3)] None;
            RecordMetrics [("d", VInt 4); ("e", VInt 5)] (Some 7%Z)]
           (Some "run-1") (Script.bare_process Script.slow_client)).
  - lia.
  - reflexivity.
Defined.

Lemma failed_flush_keeps_logger_witness :
  (value (run Script.scripted
            (flush 1000 (Logger (Some "run-1") [MkMetric "a" (VInt 1) 0 0] 0 0 None))
            (Script.process true Cases.failing_client))).2
  = Logger (Some "run-1") [MkMetric "a" (VInt 1) 0 0] 0 0 None.
Proof.
  apply (failed_flush_keeps_logger Script.scripted 1000
           (Logger (Some "run-1") [MkMetric "a" (VInt 1) 0 0] 0 0 None)
           (Script.process true Cases.failing_client) Script.boom).
  reflexivity.
Defined.

Lemma flush_outside_test_mode_witness :
  let r := run Cases.rejecting
             (flush 1000 (Logger (Some "run-1") [MkMetric "a" (VInt 1) 0 0] 0 0 None))
             (Script.process false Script.quiet) in
  (value r).1 = inr tt
  /\ submitted (events r) = metrics_slices 1000 [MkMetric "a" (VInt 1) 0 0]
  /\ data (value r).2 = [].
Proof.
  apply (flush_outside_test_mode Cases.rejecting 1000
           (Logger (Some "run-1") [MkMetric "a" (VInt 1) 0 0] 0 0 None)
           (Script.process false Script.quiet)).
  - intros s. now exists VNone.
  - intros id metrics s x H. cbn in H. injection H as <-. reflexivity.
  - reflexivity.
  - now exists "run-1".
Defined.

Lemma flush_without_run_witness :
  run Script.scripted (flush 1000 (new None)) (Script.bare_process Script.quiet)
  = Result (inl (AttributeError "'NoneType' object has no attribute 'info'"), new None)
      (Script.bare_process Script.quiet) [EvMark Flushing].
Proof.
  apply (flush_without_run Script.scripted 1000 (new None)
           (Script.bare_process Script.quiet)); reflexivity.
Defined.

Lemma empty_flush_submits_nothing_witness :
  submitted (events (run Script.scripted (flush 1000 (new (Some "run-1")))
                       (Script.bare_process Script.quiet))) = [].
Proof.
  apply (empty_flush_submits_nothing Script.scripted 1000 (new (Some "run-1"))
           (Script.bare_process Script.quiet)).
  reflexivity.
Defined.

End MetricsMore.

(** ** Logging to MLflow *)

Module LoggingMore.

Section Facts.

Context {E : Type} (env : surroundings E).

(** X23. What [try_mlflow_log] does with a call: the value of the call is
    returned; an [Exception] of the call becomes a warning and [None]
    outside test mode and is raised again, without a warning, in test mode;
    anything else the call raises is raised in either mode. *)
Theorem try_mlflow_log_outcome {A : Type} (fn : px A) (w : world E) :
  let r0 := run env fn w in
  let r := run env (try_mlflow_log fn) w in
  final r = final r0
  /\ match value r0 with
     | inr a => value r = inr (Some a) /\ events r = events r0
     | inl e =>
         if is_Exception e && negb (testing w)
         then value r = inr None
              /\ events r = events r0 ++ [EvWarn (LoggingToMLflowFailed e)]
         else value r = inl e /\ events r = events r0
     end.
Proof.
  cbn zeta. rewrite run_try_mlflow_log. cbn zeta. rewrite (run_testing env fn w).
  destruct (value (run env fn w)) as [e | a]; [| now cbn].
  destruct (is_Exception e && negb (testing w)); now cbn.
Qed.

End Facts.

End LoggingMore.

(** ** Input example and model signature *)

Module ResolveMore.
Import Resolve.

Section Facts.

Context {E : Type} (env : surroundings E).
Variable str : pyexn -> string.
Variable concatenate_None_message : string.

Lemma run_try_except {A : Type} (c : px A) (catches : pyexn -> bool)
    (handler : pyexn -> px A) (w : world E) :
  run env (try_except c catches handler) w =
  let r := run env c w in
  match value r with
  | inl e =>
      if catches e
      then let r' := run env (handler e) (final r) in
           Result (value r') (final r') (events r ++ events r')
      else Result (inl e) (final r) (events r)
  | inr a => Result (inr a) (final r) (events r)
  end.
Proof.
  unfold try_except. rewrite run_bind. cbn zeta.
  destruct (value (run env c w)) as [e | a].
  - destruct (catches e); [reflexivity |]. cbn. now rewrite app_nil_r.
  - cbn. now rewrite app_nil_r.
Qed.

Lemma quiet_ret {A : Type} (a : A) : raises_no_Exception env (ret a).
Proof. intros w e H. discriminate H. Qed.

Lemma quiet_bindx {A B : Type} (c : px A) (f : A -> px B) :
  raises_no_Exception env c -> (forall a, raises_no_Exception env (f a)) ->
  raises_no_Exception env (bindx c f).
Proof.
  intros Hc Hf w e. rewrite run_bindx. cbn zeta. specialize (Hc w).
  destruct (value (run env c w)) as [e0 | a]; cbn [value].
  - intros H. injection H as <-. now apply Hc.
  - apply Hf.
Qed.

Lemma quiet_try_except {A : Type} (c : px A) (handler : pyexn -> px A) :
  (forall e, raises_no_Exception env (handler e)) ->
  raises_no_Exception env (try_except c is_Exception handler).
Proof.
  intros Hh w e. rewrite run_try_except. cbn zeta.
  destruct (value (run env c w)) as [e0 | a]; cbn [value]; [| discriminate].
  destruct (is_Exception e0) eqn:He0; cbn [value].
  - apply Hh.
  - intros H. now injection H as <-.
Qed.

Lemma quiet_logger (logger_warning : string -> px pyval) (msg : string) :
  logger_returns env logger_warning ->
  raises_no_Exception env (logger_warning msg ;;! ret tt).
Proof.
  intros Hlog. apply quiet_bindx; [| intros; apply quiet_ret].
  intros w e H. destruct (Hlog msg w) as [v Hv]. congruence.
Qed.

Lemma value_bindx {A B : Type} (c : px A) (f : A -> px B) (w : world E) (b : B) :
  value (run env (bindx c f) w) = inr b ->
  exists a, value (run env c w) = inr a
            /\ value (run env (f a) (final (run env c w))) = inr b.
Proof.
  rewrite run_bindx. cbn zeta.
  destruct (value (run env c w)) as [e | a]; cbn [value]; [discriminate |].
  intros H. now exists a.
Qed.

(** X24. No [Exception] leaves [resolve_input_example_and_signature] as long
    as the warnings of the logger return: whatever [get_input_example] and
    [infer_model_signature] raise that is an [Exception] is caught, for every
    choice of the two flags. *)
Theorem resolve_raises_no_exception (get_input_example : px pyval)
    (infer_model_signature : pyval -> px pyval) (log_input_example log_model_signature : bool)
    (logger_warning : string -> px pyval) (w : world E) (e : pyexn) :
  logger_returns env logger_warning ->
  value (run env (resolve_input_example_and_signature str concatenate_None_message
                    get_input_example infer_model_signature
                    log_input_example log_model_signature logger_warning) w) = inl e ->
  is_Exception e = false.
Proof.
  intros Hlog. revert w e.
  change (raises_no_Exception env
            (resolve_input_example_and_signature str concatenate_None_message
               get_input_example infer_model_signature
               log_input_example log_model_signature logger_warning)).
  unfold resolve_input_example_and_signature. cbn zeta.
  apply quiet_bindx.
  { destruct (log_input_example || log_model_signature); [| apply quiet_ret].
    apply quiet_try_except. intros e. apply quiet_ret. }
  intros [[input_example input_example_user_msg] input_example_failure_msg].
  apply quiet_bindx.
  { destruct log_model_signature; [| apply quiet_ret].
    apply quiet_try_except. intros e. apply quiet_ret. }
  intros [model_signature model_signature_user_msg].
  apply quiet_bindx.
  { destruct log_input_example, input_example_user_msg;
      try apply quiet_ret. now apply quiet_logger. }
  intros _. apply quiet_bindx; [| intros; apply quiet_ret].
  destruct log_model_signature, model_signature_user_msg;
    try apply quiet_ret. now apply quiet_logger.
Qed.

(** X25. Nothing is returned that was not asked for: without
    [log_input_example] the example returned is [None], without
    [log_model_signature] the signature is [None]; and when neither is asked
    for, neither function is called and the logger is not used. *)
Theorem resolve_returns_what_is_asked (get_input_example : px pyval)
    (infer_model_signature : pyval -> px pyval) (log_input_example log_model_signature : bool)
    (logger_warning : string -> px pyval) (w : world E) :
  let r := run env (resolve_input_example_and_signature str concatenate_None_message
                      get_input_example infer_model_signature
                      log_input_example log_model_signature logger_warning) w in
  (forall input_example model_signature,
     value r = inr (input_example, model_signature) ->
     (log_input_example = false -> input_example = VNone)
     /\ (log_model_signature = false -> model_signature = VNone))
  /\ (log_input_example = false -> log_model_signature = false ->
      r = Result (inr (VNone, VNone)) w []).
Proof.
  cbn zeta. split.
  - intros input_example model_signature Hr.
    unfold resolve_input_example_and_signature in Hr. cbn zeta in Hr.
    apply value_bindx in Hr. destruct Hr as ([[ex um] fm] & _ & Hr).
    apply value_bindx in Hr. destruct Hr as ([sig sm] & Hsig & Hr).
    apply value_bindx in Hr. destruct Hr as (_ & _ & Hr).
    apply value_bindx in Hr. destruct Hr as (_ & _ & Hr).
    cbn in Hr. injection Hr as <- <-. split.
    + now intros ->.
    + intros ->. cbn in Hsig. now injection Hsig as <- _.
  - intros -> ->. reflexivity.
Qed.

(** X26. When [get_input_example] returns an example that is not [None] and
    [infer_model_signature] returns a signature for it, a call that asks for
    the signature returns that signature, with the example if it was asked
    for too; the two functions are called once each, in this order, and the
    logger is not used. *)
Theorem resolve_returns_signature (get_input_example : px pyval)
    (infer_model_signature : pyval -> px pyval) (log_input_example : bool)
    (logger_warning : string -> px pyval) (w : world E)
    (input_example model_signature : pyval) :
  let r1 := run env get_input_example w in
  let r2 := run env (infer_model_signature input_example) (final r1) in
  value r1 = inr input_example -> input_example <> VNone ->
  value r2 = inr model_signature ->
  run env (resolve_input_example_and_signature str concatenate_None_message
             get_input_example infer_model_signature
             log_input_example true logger_warning) w
  = Result (inr (if log_input_example then input_example else VNone, model_signature))
      (final r2) (events r1 ++ events r2).
Proof.
  intros r1 r2 H1 Hex H2. subst r1 r2.
  unfold resolve_input_example_and_signature. cbn zeta.
  rewrite orb_true_r, run_bindx, run_try_except, run_bindx. cbn zeta.
  rewrite H1. cbn [run ret value final events]. cbn zeta. rewrite app_nil_r.
  rewrite run_bindx, run_try_except, run_bindx. cbn zeta.
  destruct input_example; try contradiction; cbn [is_None run ret value final events];
    cbn zeta; rewrite run_bindx; cbn zeta; rewrite H2;
    cbn [run ret value final events]; cbn zeta;
    destruct log_input_example; cbn; rewrite ?app_nil_r; reflexivity.
Qed.

(** X27. When [get_input_example] raises an [Exception], a call that asks for
    both results calls [infer_model_signature] not at all, warns twice, that
    the example could not be gathered and that the signature could not be
    inferred for want of data, and, the warnings returning, returns
    [None] twice. *)
Theorem resolve_without_example (get_input_example : px pyval)
    (infer_model_signature : pyval -> px pyval)
    (logger_warning : string -> px pyval) (w : world E) (e : pyexn) :
  let r1 := run env get_input_example w in
  let l1 := run env (logger_warning ("Failed to gather input example: " +:+ str e))
              (final r1) in
  let l2 := run env
              (logger_warning
                 ("Failed to infer model signature: " +:+
                  str (PyException "Exception"
                         ("could not sample data to infer model signature: " +:+ str e))))
              (final l1) in
  value r1 = inl e -> is_Exception e = true ->
  logger_returns env logger_warning ->
  run env (resolve_input_example_and_signature str concatenate_None_message
             get_input_example infer_model_signature true true logger_warning) w
  = Result (inr (VNone, VNone)) (final l2) (events r1 ++ events l1 ++ events l2).
Proof.
  intros r1 l1 l2 H1 He Hlog. subst r1 l1 l2.
  unfold resolve_input_example_and_signature. cbn zeta. cbn [orb].
  rewrite run_bindx, run_try_except, run_bindx. cbn zeta.
  rewrite H1. cbn [value final events]. rewrite He. cbn [run ret value final events]. cbn zeta. rewrite app_nil_r.
  rewrite run_bindx, run_try_except, run_bindx. cbn zeta.
  cbn [is_None run ret throw value final events is_Exception]. cbn zeta.
  rewrite !app_nil_r. rewrite run_bindx. cbn zeta. rewrite run_bindx. cbn zeta.
  destruct (Hlog ("Failed to gather input example: " +:+ str e) (final (run env get_input_example w)))
    as [v1 Hv1].
  rewrite Hv1. cbn [run ret value final events]. cbn zeta. rewrite app_nil_r.
  rewrite run_bindx. cbn zeta. rewrite run_bindx. cbn zeta.
  match goal with
  | |- context [run env (logger_warning ?m) ?w'] =>
      destruct (Hlog m w') as [v2 Hv2]; rewrite Hv2
  end.
  cbn [run ret value final events]. rewrite !app_nil_r. reflexivity.
Qed.

End Facts.

Lemma external_logger_returns : logger_returns Script.scripted external_logger.
Proof. intros msg w. now exists VNone. Qed.

Lemma resolve_raises_no_exception_witness :
  is_Exception KeyboardInterrupt = false.
Proof.
  apply (resolve_raises_no_exception Script.scripted message_of "unsupported operand"
           (ret (VInt 1)) (fun _ => throw KeyboardInterrupt) true true external_logger
           (Script.bare_process Script.quiet) KeyboardInterrupt).
  - exact external_logger_returns.
  - reflexivity.
Defined.

Lemma resolve_returns_signature_witness :
  run Script.scripted
    (resolve_input_example_and_signature message_of "unsupported operand"
       (ret (VInt 1)) (fun input_example => ret (VList [input_example]))
       false true external_logger)
    (Script.bare_process Script.quiet)
  = Result (inr (VNone, VList [VInt 1])) (Script.bare_process Script.quiet) [].
Proof.
  apply (resolve_returns_signature Script.scripted message_of "unsupported operand"
           (ret (VInt 1)) (fun input_example => ret (VList [input_example]))
           false external_logger (Script.bare_process Script.quiet)
           (VInt 1) (VList [VInt 1])).
  - reflexivity.
  - discriminate.
  - reflexivity.
Defined.

Lemma resolve_without_example_witness :
  run Script.scripted
    (resolve_input_example_and_signature message_of "unsupported operand"
       (throw Script.boom) (fun input_example => ret (VList [input_example]))
       true true external_logger)
    (Script.bare_process Script.quiet)
  = Result (inr (VNone, VNone)) (Script.bare_process Script.quiet)
      [EvExternal "logger.warning"
         (CallArgs [VStr "Failed to gather input example: boom"] []) (inr VNone);
       EvExternal "logger.warning"
         (CallArgs
            [VStr ("Failed to infer model signature: " +:+
                   "could not sample data to infer model signature: boom")] [])
         (inr VNone)].
Proof.
  apply (resolve_without_example Script.scripted message_of "unsupported operand"
           (throw Script.boom) (fun input_example => ret (VList [input_example]))
           external_logger (Script.bare_process Script.quiet) Script.boom).
  - reflexivity.
  - reflexivity.
  - exact external_logger_returns.
Defined.

End ResolveMore.

(** ** Logging the arguments of a call *)

Module ParamsMore.
Import Registry Params.

(** *** Insertion-ordered dictionaries *)

Lemma dict_lookup_set (d : list (string * pyval)) (k k' : string) (v : pyval) :
  dict_lookup (dict_set d k v) k' = if String.eqb k k' then Some v else dict_lookup d k'.
Proof.
  induction d as [| [k0 v0] d IH]; cbn [dict_set dict_lookup]; [reflexivity |].
  destruct (String.eqb_spec k0 k) as [-> | Hne]; cbn [dict_lookup].
  - destruct (String.eqb k k'); reflexivity.
  - rewrite IH. destruct (String.eqb_spec k0 k') as [-> | Hne']; [| reflexivity].
    destruct (String.eqb_spec k k') as [-> | _]; [contradiction | reflexivity].
Qed.

Lemma dict_set_keys (d : list (string * pyval)) (k k' : string) (v : pyval) :
  In k' (map fst (dict_set d k v)) <-> k' = k \/ In k' (map fst d).
Proof.
  induction d as [| [k0 v0] d IH]; cbn [dict_set map fst In].
  - intuition congruence.
  - destruct (String.eqb_spec k0 k) as [-> | Hne]; cbn [map fst In].
    + intuition congruence.
    + rewrite IH. intuition congruence.
Qed.

Lemma dict_set_NoDup (d : list (string * pyval)) (k : string) (v : pyval) :
  List.NoDup (map fst d) -> List.NoDup (map fst (dict_set d k v)).
Proof.
  induction d as [| [k0 v0] d IH]; cbn [dict_set map fst]; intros Hnd.
  - constructor; [intros [] | constructor].
  - inversion Hnd as [| ? ? Hnotin Hnd']; subst.
    destruct (String.eqb_spec k0 k) as [-> | Hne]; cbn [map fst].
    + constructor; assumption.
    + constructor; [| now apply IH].
      rewrite dict_set_keys. intros [-> | Hin]; [now apply Hne | now apply Hnotin].
Qed.

Lemma dict_lookup_In (d : list (string * pyval)) (k : string) (v : pyval) :
  dict_lookup d k = Some v -> In (k, v) d.
Proof.
  induction d as [| [k0 v0] d IH]; cbn [dict_lookup]; [discriminate |].
  destruct (String.eqb_spec k0 k) as [-> | Hne].
  - intros H. injection H as ->. now left.
  - intros H. right. now apply IH.
Qed.

Lemma In_dict_lookup (d : list (string * pyval)) (k : string) (v : pyval) :
  List.NoDup (map fst d) -> In (k, v) d -> dict_lookup d k = Some v.
Proof.
  induction d as [| [k0 v0] d IH]; intros Hnd Hin; [destruct Hin |].
  cbn [map fst] in Hnd. inversion Hnd as [| ? ? Hnotin Hnd']; subst. cbn [dict_lookup].
  destruct Hin as [Heq | Hin].
  - injection Heq as -> ->. now rewrite String.eqb_refl.
  - destruct (String.eqb_spec k0 k) as [-> | Hne]; [| now apply IH].
    exfalso. apply Hnotin. change k with (fst (k, v)). now apply in_map.
Qed.

Lemma update_keys (items d : list (string * pyval)) (k : string) :
  In k (map fst (ordered_update d items)) <-> In k (map fst d) \/ In k (map fst items).
Proof.
  unfold ordered_update. revert d. induction items as [| [k0 v0] items IH]; intros d;
    cbn [foldl map fst In].
  - tauto.
  - rewrite IH, dict_set_keys. cbn [fst snd]. intuition congruence.
Qed.

Lemma update_NoDup (items d : list (string * pyval)) :
  List.NoDup (map fst d) -> List.NoDup (map fst (ordered_update d items)).
Proof.
  unfold ordered_update. revert d. induction items as [| [k0 v0] items IH]; intros d Hnd;
    cbn [foldl]; [assumption |].
  apply IH. now apply dict_set_NoDup.
Qed.

Lemma update_lookup_absent (items d : list (string * pyval)) (k : string) :
  ~ In k (map fst items) -> dict_lookup (ordered_update d items) k = dict_lookup d k.
Proof.
  unfold ordered_update. revert d. induction items as [| [k0 v0] items IH]; intros d Hk;
    cbn [foldl]; [reflexivity |].
  cbn [map fst In] in Hk. rewrite IH by tauto. cbn [fst snd]. rewrite dict_lookup_set.
  destruct (String.eqb_spec k0 k) as [-> | Hne]; [tauto | reflexivity].
Qed.

Lemma update_lookup_present (items d : list (string * pyval)) (k : string) (v : pyval) :
  List.NoDup (map fst items) -> In (k, v) items ->
  dict_lookup (ordered_update d items) k = Some v.
Proof.
  unfold ordered_update. revert d. induction items as [| [k0 v0] items IH]; intros d Hnd Hin;
    [destruct Hin |].
  cbn [map fst] in Hnd. inversion Hnd as [| ? ? Hnotin Hnd']; subst. cbn [foldl fst snd].
  destruct Hin as [Heq | Hin].
  - injection Heq as -> ->.
    pose proof (update_lookup_absent items (dict_set d k v) k Hnotin) as Habsent.
    unfold ordered_update in Habsent. rewrite Habsent, dict_lookup_set.
    now rewrite String.eqb_refl.
  - now apply IH.
Qed.

Lemma filter_lookup (p : string -> bool) (d : list (string * pyval)) (k : string) :
  dict_lookup (List.filter (fun kv => p kv.1) d) k = if p k then dict_lookup d k else None.
Proof.
  induction d as [| [k0 v0] d IH]; cbn [List.filter dict_lookup fst].
  - now destruct (p k).
  - destruct (p k0) eqn:Hp0; cbn [dict_lookup].
    + destruct (String.eqb_spec k0 k) as [-> | Hne]; [now rewrite Hp0 | apply IH].
    + rewrite IH. destruct (String.eqb_spec k0 k) as [-> | Hne]; [now rewrite Hp0 | reflexivity].
Qed.

Lemma NoDup_map_filter {A B : Type} (f : A -> B) (q : A -> bool) (l : list A) :
  List.NoDup (map f l) -> List.NoDup (map f (List.filter q l)).
Proof.
  induction l as [| x l IH]; cbn [map List.filter]; intros Hnd; [constructor |].
  inversion Hnd as [| ? ? Hnotin Hnd']; subst.
  destruct (q x); cbn [map]; [| now apply IH].
  constructor; [| now apply IH].
  intros Hin. apply Hnotin. apply in_map_iff in Hin. destruct Hin as (y & Hy & Hin).
  apply filter_In in Hin. rewrite <- Hy. now apply in_map.
Qed.

Lemma unlogged_In (unlogged : list string) (k : string) :
  existsb (String.eqb k) unlogged = true <-> In k unlogged.
Proof.
  rewrite existsb_exists. split.
  - intros (x & Hin & Heq). apply String.eqb_eq in Heq. now subst.
  - intros Hin. exists k. split; [assumption | apply String.eqb_refl].
Qed.

Lemma kwargs_has_key (kwargs : list (string * pyval)) (k : string) :
  has_key kwargs k = true <-> In k (map fst kwargs).
Proof. apply unlogged_In. Qed.

(** *** The signature *)

Lemma relevant_names (param_spec : list parameter) (k : string) :
  In k (map param_name (relevant_params param_spec)) ->
  k <> "self" /\ In k (map param_name param_spec).
Proof.
  unfold relevant_params. rewrite !in_map_iff. intros (p & <- & Hin).
  apply filter_In in Hin. destruct Hin as [Hin Hself]. split.
  - intros Heq. rewrite Heq in Hself. discriminate Hself.
  - now exists p.
Qed.

Lemma relevant_NoDup (param_spec : list parameter) :
  List.NoDup (map param_name param_spec) ->
  List.NoDup (map param_name (relevant_params param_spec)).
Proof. apply NoDup_map_filter. Qed.

Lemma names_take (l : list parameter) (n : nat) (k : string) :
  In k (map param_name (take n l)) -> In k (map param_name l).
Proof.
  rewrite <- (take_drop n l) at 2. rewrite map_app, in_app_iff. tauto.
Qed.

Lemma names_drop (l : list parameter) (n : nat) (k : string) :
  In k (map param_name (drop n l)) -> In k (map param_name l).
Proof.
  rewrite <- (take_drop n l) at 2. rewrite map_app, in_app_iff. tauto.
Qed.

Lemma take_drop_apart (l : list parameter) (n : nat) (k : string) :
  List.NoDup (map param_name l) ->
  In k (map param_name (take n l)) -> ~ In k (map param_name (drop n l)).
Proof.
  rewrite <- (take_drop n l) at 1. rewrite map_app. intros Hnd Htake Hdrop.
  apply NoDup_ListNoDup, NoDup_app in Hnd. destruct Hnd as (_ & Hapart & _).
  apply (Hapart k); now apply list_elem_of_In.
Qed.

(** The names bound by position. *)
Lemma positional_keys (l : list parameter) (args : list pyval) :
  map fst (map (fun pv : parameter * pyval => (param_name pv.1, pv.2)) (zip l args))
  = map param_name (take (length args) l).
Proof.
  revert args. induction l as [| p l IH]; intros [| a args]; cbn; try reflexivity.
  now rewrite IH.
Qed.

Lemma positional_In (l : list parameter) (args : list pyval) (i : nat) (p : parameter)
    (a : pyval) :
  l !! i = Some p -> args !! i = Some a ->
  In (param_name p, a)
    (map (fun pv : parameter * pyval => (param_name pv.1, pv.2))
       (zip (take (length args) l) args)).
Proof.
  revert args i. induction l as [| p0 l IH]; intros [| a0 args] [| i]; cbn;
    try discriminate.
  - intros H1 H2. injection H1 as ->. injection H2 as ->. now left.
  - intros H1 H2. right. now apply (IH args i).
Qed.

Lemma take_lookup_name (l : list parameter) (n i : nat) (p : parameter) :
  l !! i = Some p -> (i < n)%nat -> In (param_name p) (map param_name (take n l)).
Proof.
  intros Hp Hi. apply in_map, list_elem_of_In.
  apply (list_elem_of_lookup_2 _ i). now rewrite lookup_take_lt.
Qed.

Lemma drop_lookup (l : list parameter) (n i : nat) (p : parameter) :
  l !! i = Some p -> (n <= i)%nat -> In p (drop n l).
Proof.
  intros Hp Hi. apply list_elem_of_In. apply (list_elem_of_lookup_2 _ (i - n)).
  rewrite lookup_drop. now replace (n + (i - n))%nat with i by lia.
Qed.

(** *** The dictionary that is logged *)

Section Logged.

Variables (param_spec : list parameter) (args : list pyval)
  (kwargs : list (string * pyval)) (unlogged : list string).

Let relevant := relevant_params param_spec.
Let bound :=
  map (fun pv : parameter * pyval => (param_name pv.1, pv.2))
    (zip (take (length args) relevant) args).
Let defaults :=
  map (fun param => (param_name param, param_default param))
    (List.filter (fun param => negb (has_key kwargs (param_name param)))
       (drop (length args) relevant)).

Lemma logged_lookup (k : string) :
  dict_lookup (params_to_log param_spec args kwargs unlogged) k
  = if negb (existsb (String.eqb k) unlogged)
    then dict_lookup
           (ordered_update (ordered_update (ordered_update [] bound) kwargs)
              (ordered_update [] defaults)) k
    else None.
Proof.
  unfold params_to_log. cbn zeta.
  apply (filter_lookup (fun k => negb (existsb (String.eqb k) unlogged))).
Qed.

Lemma bound_keys (k : string) :
  In k (map fst bound) -> In k (map param_name (take (length args) relevant)).
Proof.
  unfold bound. rewrite positional_keys, take_take, Nat.min_id. tauto.
Qed.

Lemma defaults_keys (k : string) :
  In k (map fst defaults) ->
  In k (map param_name (drop (length args) relevant)) /\ has_key kwargs k = false.
Proof.
  unfold defaults. rewrite map_map. cbn [fst]. rewrite in_map_iff.
  intros (p & <- & Hin). apply filter_In in Hin. destruct Hin as [Hin Hkw]. split.
  - now apply in_map.
  - now apply negb_true_iff in Hkw.
Qed.

Lemma defaults_NoDup :
  List.NoDup (map param_name param_spec) -> List.NoDup (map fst defaults).
Proof.
  intros Hnd. unfold defaults. rewrite map_map. cbn [fst].
  apply NoDup_map_filter. apply relevant_NoDup in Hnd. fold relevant in Hnd.
  rewrite <- (take_drop (length args) relevant), map_app in Hnd.
  apply NoDup_ListNoDup, NoDup_app in Hnd. destruct Hnd as (_ & _ & Hnd).
  now apply NoDup_ListNoDup.
Qed.

Lemma bound_NoDup :
  List.NoDup (map param_name param_spec) -> List.NoDup (map fst bound).
Proof.
  intros Hnd. unfold bound. rewrite positional_keys, take_take, Nat.min_id.
  apply relevant_NoDup in Hnd. fold relevant in Hnd.
  rewrite <- (take_drop (length args) relevant), map_app in Hnd.
  apply NoDup_ListNoDup, NoDup_app in Hnd. destruct Hnd as (Hnd & _ & _).
  now apply NoDup_ListNoDup.
Qed.

(** X28. What [log_fn_args_as_params] logs, for a signature with distinct
    names and keyword arguments with distinct names: the dictionary has
    each name once; a keyword argument is logged as given; a parameter
    bound by position, [self] left out of the count, is logged with the
    positional argument, and a parameter that is not bound with its default,
    when no keyword argument has its name; all this for the names that are
    not in [unlogged]. *)
Theorem logged_parameters :
  List.NoDup (map param_name param_spec) -> List.NoDup (dict_keys kwargs) ->
  let logged := params_to_log param_spec args kwargs unlogged in
  List.NoDup (dict_keys logged)
  /\ (forall k v, In (k, v) kwargs -> ~ In k unlogged -> In (k, v) logged)
  /\ (forall i p a, relevant_params param_spec !! i = Some p -> args !! i = Some a ->
      has_key kwargs (param_name p) = false -> ~ In (param_name p) unlogged ->
      In (param_name p, a) logged)
  /\ (forall i p, relevant_params param_spec !! i = Some p -> (length args <= i)%nat ->
      has_key kwargs (param_name p) = false -> ~ In (param_name p) unlogged ->
      In (param_name p, param_default p) logged).
Proof.
  intros Hspec Hkw logged.
  assert (Hout : forall k, ~ In k unlogged -> negb (existsb (String.eqb k) unlogged) = true).
  { intros k Hk. apply negb_true_iff. destruct (existsb _ _) eqn:Hex; [| reflexivity].
    apply unlogged_In in Hex. contradiction. }
  assert (Hrel := relevant_NoDup param_spec Hspec). fold relevant in Hrel.
  split; [| split; [| split]].
  - unfold logged, params_to_log, dict_keys. cbn zeta.
    apply NoDup_map_filter. repeat apply update_NoDup. constructor.
  - intros k v Hin Hk. apply dict_lookup_In. subst logged.
    rewrite logged_lookup, (Hout k Hk).
    rewrite update_lookup_absent.
    + now apply update_lookup_present.
    + rewrite update_keys. cbn [map In]. intros [[] | Hd].
      apply defaults_keys in Hd. destruct Hd as [_ Hd].
      assert (has_key kwargs k = true) as Hk'; [| congruence].
      apply kwargs_has_key. change k with (fst (k, v)). now apply in_map.
  - intros i p a Hp Ha Hnokw Hk. apply dict_lookup_In. subst logged.
    rewrite logged_lookup, (Hout _ Hk).
    assert (Hi : (i < length args)%nat) by (eapply lookup_lt_Some; exact Ha).
    rewrite update_lookup_absent.
    + rewrite update_lookup_absent.
      * apply update_lookup_present; [now apply bound_NoDup |].
        now apply (positional_In relevant args i).
      * intros Hin. apply kwargs_has_key in Hin. congruence.
    + rewrite update_keys. cbn [map In]. intros [[] | Hd].
      apply defaults_keys in Hd. destruct Hd as [Hd _]. revert Hd.
      apply take_drop_apart; [exact Hrel |]. now apply (take_lookup_name relevant _ i).
  - intros i p Hp Hi Hnokw Hk. apply dict_lookup_In. subst logged.
    rewrite logged_lookup, (Hout _ Hk).
    apply update_lookup_present; [apply update_NoDup; constructor |].
    apply dict_lookup_In. apply update_lookup_present; [now apply defaults_NoDup |].
    unfold defaults.
    apply (in_map (fun param => (param_name param, param_default param))).
    apply filter_In. split; [now apply (drop_lookup relevant _ i) |].
    now rewrite Hnokw.
Qed.

(** X29. What [log_fn_args_as_params] never logs: no name of [unlogged] is
    in the dictionary, and every name in it is the name of a keyword
    argument or of a parameter of the signature other than [self]; so [self]
    is logged only when it is passed by keyword, and positional arguments
    beyond the signature are dropped. *)
Theorem logged_names (k : string) (v : pyval) :
  In (k, v) (params_to_log param_spec args kwargs unlogged) ->
  ~ In k unlogged
  /\ (In k (dict_keys kwargs) \/ (k <> "self" /\ In k (map param_name param_spec))).
Proof.
  unfold params_to_log. cbn zeta. fold relevant. fold bound. fold defaults.
  intros Hin. apply filter_In in Hin. destruct Hin as [Hin Hk]. cbn [fst] in Hk. split.
  - intros Hun. apply unlogged_In in Hun. rewrite Hun in Hk. discriminate Hk.
  - assert (Hkey : In k (map fst (ordered_update (ordered_update (ordered_update [] bound) kwargs)
                                   (ordered_update [] defaults)))).
    { change k with (fst (k, v)). now apply in_map. }
    rewrite !update_keys in Hkey. cbn [map In] in Hkey.
    destruct Hkey as [[[[] | Hb] | Hkw] | [[] | Hd]].
    + right. apply relevant_names. apply bound_keys in Hb. eapply names_take. exact Hb.
    + now left.
    + right. apply relevant_names. apply defaults_keys in Hd. destruct Hd as [Hd _].
      eapply names_drop. exact Hd.
Qed.

End Logged.

Section Call.

Context {E : Type} (env : surroundings E).

(** X30. [log_fn_args_as_params] calls [mlflow.log_params] once, with the
    dictionary as its only argument; outside test mode an [Exception] of
    that call becomes a warning and the function returns, in test mode it
    is raised. *)
Theorem log_fn_args_as_params_outcome (param_spec : list parameter) (args : list pyval)
    (kwargs : list (string * pyval)) (unlogged : list string) (w : world E) :
  let a := CallArgs [VDict (params_to_log param_spec args kwargs unlogged)] [] in
  let o := external_impl env "mlflow.log_params" a (ext w) in
  let r := run env (log_fn_args_as_params param_spec args kwargs unlogged) w in
  final r = with_ext w o.2
  /\ match o.1 with
     | inr _ => value r = inr tt /\ events r = [EvExternal "mlflow.log_params" a o.1]
     | inl e =>
         if is_Exception e && negb (testing w)
         then value r = inr tt
              /\ events r = [EvExternal "mlflow.log_params" a o.1;
                             EvWarn (LoggingToMLflowFailed e)]
         else value r = inl e /\ events r = [EvExternal "mlflow.log_params" a o.1]
     end.
Proof.
  cbn zeta. unfold log_fn_args_as_params. cbn zeta.
  rewrite run_bindx, run_try_mlflow_log. cbn zeta.
  set (a := CallArgs [VDict (params_to_log param_spec args kwargs unlogged)] []).
  assert (Hcall : run env (call (External "mlflow.log_params" a)) w
                  = Result (external_impl env "mlflow.log_params" a (ext w)).1
                      (with_ext w (external_impl env "mlflow.log_params" a (ext w)).2)
                      [EvExternal "mlflow.log_params" a
                         (external_impl env "mlflow.log_params" a (ext w)).1]).
  { cbn. destruct (external_impl env "mlflow.log_params" a (ext w)); reflexivity. }
  rewrite Hcall. cbn [value final events].
  destruct (external_impl env "mlflow.log_params" a (ext w)).1 as [e | v];
    cbn [value final events].
  - change (testing (with_ext w _)) with (testing w).
    destruct (is_Exception e && negb (testing w)); cbn; auto.
  - cbn. auto.
Qed.

End Call.

Lemma logged_parameters_witness :
  In ("epochs", VInt 3)
    (params_to_log
       [Param "self" Parameter_empty; Param "x" Parameter_empty; Param "epochs" (VInt 1);
        Param "verbose" (VBool false)]
       [VList []] [("epochs", VInt 3)] ["verbose"]).
Proof.
  apply (proj1 (proj2 (logged_parameters
           [Param "self" Parameter_empty; Param "x" Parameter_empty; Param "epochs" (VInt 1);
            Param "verbose" (VBool false)]
           [VList []] [("epochs", VInt 3)] ["verbose"]
           ltac:(repeat constructor; cbn; intuition discriminate)
           ltac:(repeat constructor; cbn; tauto)))).
  - now left.
  - cbn. intuition discriminate.
Defined.

Lemma logged_names_witness :
  ~ In "x" ["verbose"]
  /\ (In "x" (dict_keys [("epochs", VInt 3)])
      \/ ("x" <> "self"
          /\ In "x" (map param_name
                       [Param "self" Parameter_empty; Param "x" Parameter_empty;
                        Param "epochs" (VInt 1); Param "verbose" (VBool false)]))).
Proof.
  apply (logged_names
           [Param "self" Parameter_empty; Param "x" Parameter_empty; Param "epochs" (VInt 1);
            Param "verbose" (VBool false)]
           [VList []] [("epochs", VInt 3)] ["verbose"] "x" (VList [])).
  cbn. now left.
Defined.

End ParamsMore.
